(** * The Kafka-to-MinIO batch ingestor ([consumer/kafka-to-minio.py])

    A shallow embedding of the script and of the parts of the Python
    runtime it calls ([int], [str.join], [datetime.strftime], the UTF-8
    codec, [json.loads], [json.dumps]), followed by the properties of the
    consume-batch-flush loop.

    Conventions.
    - Program text (environment values, bucket names, object keys) is a
      Rocq [string]; a character stands for the code point of the same
      number (0..255).
    - A Python [str] holding a JSON document is a list of code points
      ([pystr]), since events carry arbitrary Unicode.
    - External calls (object store, topic client, wall clock) are recorded
      in a trace; what they return is read from a [world].
    - Console output ([print]) and what [load_dotenv] reads are not
      modelled: the environment is taken as it is after [load_dotenv].
      Which settings file is looked up is modelled in [Dotenv], on the
      paths of a POSIX system.
    - [int] on [BATCH_SIZE] has the interpreter's default limit of 4300
      digits. The other resource limits of the interpreter (the recursion
      depth, and the same digit limit inside [json.loads] and
      [json.dumps]) are not modelled. *)

From Stdlib Require Import ZArith NArith List String Ascii Bool Lia.
From Stdlib Require Import Strings.Byte.
From Stdlib Require Import Floats.SpecFloat.
From stdpp Require Import base option list gmap strings.

Import ListNotations.
Local Open Scope N_scope.

(** ** Python primitives *)

Module Py.

(** Decimal digits of a natural number, most significant first. *)
Fixpoint digits_fuel (fuel : nat) (n : N) (acc : list N) : list N :=
  match fuel with
  | O => acc
  | S fuel' =>
      let acc' := (n mod 10) :: acc in
      if n / 10 =? 0 then acc' else digits_fuel fuel' (n / 10) acc'
  end.

Definition digits (n : N) : list N :=
  digits_fuel (S (N.to_nat (N.log2 n))) n [].

(** The number a list of digits denotes. *)
Definition number (ds : list N) : N := fold_left (fun a d => 10 * a + d) ds 0.

(** [str.zfill]-style padding of a digit list to a minimal width. *)
Definition zero_pad (width : nat) (ds : list N) : list N :=
  replicate (width - length ds) 0 ++ ds.

Definition digit_char (d : N) : ascii := ascii_of_N (48 + d).

Definition digits_string (ds : list N) : string :=
  string_of_list_ascii (map digit_char ds).

(** *** [datetime] and [strftime] *)

Record datetime := {
  year : N; month : N; day : N;
  hour : N; minute : N; second : N; microsecond : N
}.

Definition is_leap (y : N) : bool :=
  (y mod 4 =? 0) && (negb (y mod 100 =? 0) || (y mod 400 =? 0)).

Definition days_in_month (y m : N) : N :=
  if m =? 2 then (if is_leap y then 29 else 28)
  else if (m =? 4) || (m =? 6) || (m =? 9) || (m =? 11) then 30 else 31.

(** The invariants of a [datetime] object. *)
Definition valid_datetime (t : datetime) : bool :=
  (1 <=? year t) && (year t <=? 9999) &&
  (1 <=? month t) && (month t <=? 12) &&
  (1 <=? day t) && (day t <=? days_in_month (year t) (month t)) &&
  (hour t <? 24) && (minute t <? 60) && (second t <? 60) &&
  (microsecond t <? 1000000).

(** A reading of the system clock: a [datetime] of 1970 or later. *)
Definition wall_clock_time (t : datetime) : bool :=
  valid_datetime t && (1970 <=? year t).

(** One [strftime] directive. Only the directives of this program are
    interpreted; any other directive is copied as it is. The fields of
    [%m], [%d], [%H], [%M] and [%S] are zero-padded to two digits. The
    year of [%Y] is written without padding, as glibc does (other C
    libraries pad it to four digits: the two agree from year 1000 on). *)
Definition directive (c : ascii) (t : datetime) : string :=
  if Ascii.eqb c "Y" then digits_string (digits (year t))
  else if Ascii.eqb c "m" then digits_string (zero_pad 2 (digits (month t)))
  else if Ascii.eqb c "d" then digits_string (zero_pad 2 (digits (day t)))
  else if Ascii.eqb c "H" then digits_string (zero_pad 2 (digits (hour t)))
  else if Ascii.eqb c "M" then digits_string (zero_pad 2 (digits (minute t)))
  else if Ascii.eqb c "S" then digits_string (zero_pad 2 (digits (second t)))
  else if Ascii.eqb c "%" then "%"
  else String "%" (String c EmptyString).

Fixpoint strftime (t : datetime) (fmt : string) : string :=
  match fmt with
  | EmptyString => EmptyString
  | String c rest =>
      if Ascii.eqb c "%" then
        match rest with
        | String d rest' => directive d t +:+ strftime t rest'
        | EmptyString => "%"
        end
      else String c (strftime t rest)
  end.

(** A field of two, or of four, decimal digits. *)
Definition two_digits (n : N) : string :=
  digits_string [n / 10; n mod 10].

Definition four_digits (n : N) : string :=
  digits_string [n / 1000; (n / 100) mod 10; (n / 10) mod 10; n mod 10].

(** *** [str.join] on program text *)

Fixpoint join (sep : string) (parts : list string) : string :=
  match parts with
  | [] => EmptyString
  | [p] => p
  | p :: rest => p +:+ sep +:+ join sep rest
  end.

(** *** [int(s)] in base 10

    Surrounding whitespace is dropped, one sign is allowed, and the digits
    may be grouped by single underscores. Among the code points below 256
    the whitespace of [int] is tab..carriage return, space, U+0085 and
    U+00A0, and the decimal digits are [0]..[9]. A literal of more than
    4300 digits is rejected: the interpreter's default limit on the
    conversion (the underscores are not counted, leading zeros are). *)

Definition is_int_space (c : ascii) : bool :=
  let n := N_of_ascii c in
  ((9 <=? n) && (n <=? 13)) || (n =? 32) || (n =? 133) || (n =? 160).

Definition digit_value (c : ascii) : option N :=
  let n := N_of_ascii c in
  if (48 <=? n) && (n <=? 57) then Some (n - 48) else None.

Fixpoint skip_int_space (s : string) : string :=
  match s with
  | String c rest => if is_int_space c then skip_int_space rest else s
  | EmptyString => s
  end.

(** The digit run: [after_digit] tells whether the previous character was
    a digit (an underscore is accepted only there, and the run may not end
    on one). Returns the value and what follows the run. *)
Fixpoint scan_int_digits (s : string) (after_digit : bool) (acc : N)
  : option (N * string) :=
  match s with
  | String c rest =>
      match digit_value c with
      | Some d => scan_int_digits rest true (10 * acc + d)
      | None =>
          if Ascii.eqb c "_" then
            (if after_digit then scan_int_digits rest false acc else None)
          else if after_digit then Some (acc, s) else None
      end
  | EmptyString => if after_digit then Some (acc, s) else None
  end.

(** The number of digits in the run that [int] scans. *)
Fixpoint run_digits (s : string) : nat :=
  match s with
  | String c rest =>
      match digit_value c with
      | Some _ => S (run_digits rest)
      | None => if Ascii.eqb c "_" then run_digits rest else O
      end
  | EmptyString => O
  end.

(** [sys.int_info.default_max_str_digits]. *)
Definition int_max_str_digits : nat := 4300.

Definition py_int (s : string) : option Z :=
  let s1 := skip_int_space s in
  let '(negative, s2) :=
    match s1 with
    | String c rest =>
        if Ascii.eqb c "-" then (true, rest)
        else if Ascii.eqb c "+" then (false, rest)
        else (false, s1)
    | EmptyString => (false, s1)
    end in
  match scan_int_digits s2 false 0 with
  | Some (n, rest) =>
      if Nat.ltb int_max_str_digits (run_digits s2) then None
      else
        match skip_int_space rest with
        | EmptyString => Some (if negative then (- Z.of_N n)%Z else Z.of_N n)
        | _ => None
        end
  | None => None
  end.

(** *** Vocabulary of [int] *)

(** Every character that [int] may meet in a base-10 literal. *)
Definition int_char (c : ascii) : bool :=
  is_int_space c
  || match digit_value c with Some _ => true | None => false end
  || Ascii.eqb c "_" || Ascii.eqb c "+" || Ascii.eqb c "-".


(** Text made of such characters, and text that holds a digit. *)
Definition int_text (s : string) : Prop :=
  Forall (fun c => int_char c = true) (list_ascii_of_string s).

Definition has_digit (s : string) : Prop :=
  Exists (fun c => digit_value c <> None) (list_ascii_of_string s).

End Py.

(** ** Python [str] values and the UTF-8 codec *)

Module Utf8.

(** A Python [str]: its code points. *)
Definition pystr := list N.

(** Program text read as a Python [str]. *)
Definition str (s : string) : pystr := map N_of_ascii (list_ascii_of_string s).

Definition is_surrogate (c : N) : bool := (0xD800 <=? c) && (c <=? 0xDFFF).

Definition byte_of (n : N) : byte :=
  match Byte.of_N n with Some b => b | None => x00 end.

(** [s.encode("utf-8")]: [None] stands for [UnicodeEncodeError], raised on
    a surrogate code point. *)
Definition encode_char (c : N) : option (list byte) :=
  if c <? 0x80 then Some [byte_of c]
  else if c <? 0x800 then
    Some [byte_of (N.lor 0xC0 (N.shiftr c 6));
          byte_of (N.lor 0x80 (N.land c 0x3F))]
  else if c <? 0x10000 then
    if is_surrogate c then None
    else Some [byte_of (N.lor 0xE0 (N.shiftr c 12));
               byte_of (N.lor 0x80 (N.land (N.shiftr c 6) 0x3F));
               byte_of (N.lor 0x80 (N.land c 0x3F))]
  else if c <? 0x110000 then
    Some [byte_of (N.lor 0xF0 (N.shiftr c 18));
          byte_of (N.lor 0x80 (N.land (N.shiftr c 12) 0x3F));
          byte_of (N.lor 0x80 (N.land (N.shiftr c 6) 0x3F));
          byte_of (N.lor 0x80 (N.land c 0x3F))]
  else None.

Fixpoint encode (s : pystr) : option (list byte) :=
  match s with
  | [] => Some []
  | c :: rest =>
      match encode_char c, encode rest with
      | Some bs, Some bs' => Some (bs ++ bs')
      | _, _ => None
      end
  end.

Definition continuation (b : N) : bool := (0x80 <=? b) && (b <=? 0xBF).

Definition low6 (b : N) : N := N.land b 0x3F.

(** [b.decode("utf-8")], strict: [None] stands for [UnicodeDecodeError]
    (truncated or overlong sequences, surrogates, values above U+10FFFF). *)
Fixpoint decode (bs : list byte) : option pystr :=
  match bs with
  | [] => Some []
  | b0 :: r0 =>
      let c0 := Byte.to_N b0 in
      if c0 <? 0x80 then cons c0 <$> decode r0
      else if (0xC2 <=? c0) && (c0 <=? 0xDF) then
        match r0 with
        | b1 :: r1 =>
            let c1 := Byte.to_N b1 in
            if continuation c1
            then cons (N.lor (N.shiftl (N.land c0 0x1F) 6) (low6 c1)) <$> decode r1
            else None
        | _ => None
        end
      else if (0xE0 <=? c0) && (c0 <=? 0xEF) then
        match r0 with
        | b1 :: b2 :: r2 =>
            let c1 := Byte.to_N b1 in
            let c2 := Byte.to_N b2 in
            if continuation c1 && continuation c2
               && (negb (c0 =? 0xE0) || (0xA0 <=? c1))
               && (negb (c0 =? 0xED) || (c1 <=? 0x9F))
            then cons (N.lor (N.shiftl (N.land c0 0x0F) 12)
                        (N.lor (N.shiftl (low6 c1) 6) (low6 c2))) <$> decode r2
            else None
        | _ => None
        end
      else if (0xF0 <=? c0) && (c0 <=? 0xF4) then
        match r0 with
        | b1 :: b2 :: b3 :: r3 =>
            let c1 := Byte.to_N b1 in
            let c2 := Byte.to_N b2 in
            let c3 := Byte.to_N b3 in
            if continuation c1 && continuation c2 && continuation c3
               && (negb (c0 =? 0xF0) || (0x90 <=? c1))
               && (negb (c0 =? 0xF4) || (c1 <=? 0x8F))
            then cons (N.lor (N.shiftl (N.land c0 0x07) 18)
                        (N.lor (N.shiftl (low6 c1) 12)
                          (N.lor (N.shiftl (low6 c2) 6) (low6 c3)))) <$> decode r3
            else None
        | _ => None
        end
      else None
  end.

(** Program text of a Python [str] made of code points below 256. *)
Definition to_string (s : pystr) : string :=
  string_of_list_ascii (map ascii_of_N s).

(** [sep.join(parts)], on [str] and on [bytes] alike. *)
Fixpoint join_seq {A : Type} (sep : list A) (parts : list (list A)) : list A :=
  match parts with
  | [] => []
  | [p] => p
  | p :: rest => p ++ sep ++ join_seq sep rest
  end.

(** All code points of a text are below a bound. *)
Definition below (b : N) (s : pystr) : Prop := Forall (fun c => c < b) s.

(** The printable characters of ASCII. *)
Definition printable (c : N) : Prop := 32 <= c <= 126.

(** [body.split(b"\n")]. *)
Fixpoint split_lines (bs : list byte) : list (list byte) :=
  match bs with
  | [] => [[]]
  | b :: r =>
      if Byte.eqb b x0a then [] :: split_lines r
      else
        match split_lines r with
        | l :: ls => (b :: l) :: ls
        | [] => [[b]]
        end
  end.

Fixpoint str_eqb (a b : pystr) : bool :=
  match a, b with
  | [], [] => true
  | x :: a', y :: b' => (x =? y) && str_eqb a' b'
  | _, _ => false
  end.

(** A byte of printable ASCII. *)
Definition printable_byte (x : byte) : Prop := 32 <= Byte.to_N x <= 126.

End Utf8.

(** ** The [json] module: [json.dumps] and [json.loads] with their
    default settings, as CPython's C encoder and scanner compute them *)

Module Json.
Import Py Utf8.

(** The two conversions between binary64 values and decimal text,
    [float.__repr__] and [float(literal)], are not implemented here: they
    are an interface of the runtime. *)
Class FloatConv := {
  float_repr : spec_float -> string;
  float_of_literal : string -> spec_float
}.

(** What [json.loads] can return: [None], [bool], [int], [float], [str],
    [list], and [dict] with [str] keys (in insertion order). *)
#[local] Unset Elimination Schemes.
Inductive pyvalue :=
| PyNone
| PyBool (b : bool)
| PyInt (n : Z)
| PyFloat (f : spec_float)
| PyStr (s : pystr)
| PyList (items : list pyvalue)
| PyDict (items : list (pystr * pyvalue)).
#[local] Set Elimination Schemes.

Definition chr (a : ascii) : N := N_of_ascii a.
Definition QUOTE : N := 34.
Definition BACKSLASH : N := 92.

(** *** Encoder *)

Definition hex_digit (d : N) : N := if d <? 10 then 48 + d else 87 + d.

Definition hex4 (c : N) : pystr :=
  [hex_digit (N.land (N.shiftr c 12) 0xF); hex_digit (N.land (N.shiftr c 8) 0xF);
   hex_digit (N.land (N.shiftr c 4) 0xF); hex_digit (N.land c 0xF)].

Definition high_surrogate (c : N) : N := 0xD800 - N.shiftr 0x10000 10 + N.shiftr c 10.
Definition low_surrogate (c : N) : N := 0xDC00 + N.land c 0x3FF.

(** The characters written as they are ([S_CHAR]). *)
Definition plain_char (c : N) : bool :=
  (32 <=? c) && (c <=? 126) && negb (c =? BACKSLASH) && negb (c =? QUOTE).

Definition escape_char (c : N) : pystr :=
  if plain_char c then [c]
  else BACKSLASH ::
    (if c =? BACKSLASH then [BACKSLASH]
     else if c =? QUOTE then [QUOTE]
     else if c =? 8 then [chr "b"]
     else if c =? 12 then [chr "f"]
     else if c =? 10 then [chr "n"]
     else if c =? 13 then [chr "r"]
     else if c =? 9 then [chr "t"]
     else if 0x10000 <=? c then
       chr "u" :: hex4 (high_surrogate c) ++ BACKSLASH :: chr "u" :: hex4 (low_surrogate c)
     else chr "u" :: hex4 c).

(** [encode_basestring_ascii]. *)
Definition encode_basestring_ascii (s : pystr) : pystr :=
  QUOTE :: flat_map escape_char s ++ [QUOTE].

(** [int.__repr__]. *)
Definition int_repr (n : Z) : pystr :=
  (if (n <? 0)%Z then [chr "-"] else []) ++ map (N.add 48) (digits (Z.abs_N n)).

Section Encoder.
Context `{FloatConv}.

Definition encode_float (f : spec_float) : pystr :=
  match f with
  | S754_nan => str "NaN"
  | S754_infinity false => str "Infinity"
  | S754_infinity true => str "-Infinity"
  | _ => str (float_repr f)
  end.

Fixpoint dumps (v : pyvalue) : pystr :=
  match v with
  | PyNone => str "null"
  | PyBool true => str "true"
  | PyBool false => str "false"
  | PyInt n => int_repr n
  | PyFloat f => encode_float f
  | PyStr s => encode_basestring_ascii s
  | PyList items =>
      chr "[" :: join_seq (str ", ") (map dumps items) ++ [chr "]"]
  | PyDict items =>
      chr "{" ::
      join_seq (str ", ")
        (map (fun kv => encode_basestring_ascii (fst kv) ++ str ": " ++ dumps (snd kv)) items)
      ++ [chr "}"]
  end.

End Encoder.

(** *** Scanner *)

Definition is_ws (c : N) : bool :=
  (c =? 32) || (c =? 9) || (c =? 10) || (c =? 13).

Fixpoint skip_ws (s : pystr) : pystr :=
  match s with
  | c :: r => if is_ws c then skip_ws r else s
  | [] => []
  end.

Definition is_digit (c : N) : bool := (48 <=? c) && (c <=? 57).

Fixpoint span_digits (s : pystr) : pystr * pystr :=
  match s with
  | c :: r =>
      if is_digit c then let '(ds, r') := span_digits r in (c :: ds, r')
      else ([], s)
  | [] => ([], [])
  end.

Fixpoint strip_prefix (p s : pystr) : option pystr :=
  match p, s with
  | [], _ => Some s
  | a :: p', b :: s' => if a =? b then strip_prefix p' s' else None
  | _ :: _, [] => None
  end.

Definition hex_value (c : N) : option N :=
  if is_digit c then Some (c - 48)
  else if (97 <=? c) && (c <=? 102) then Some (c - 97 + 10)
  else if (65 <=? c) && (c <=? 70) then Some (c - 65 + 10)
  else None.

(** Four hexadecimal digits, accumulated as [c <<= 4; c |= digit]. *)
Definition unhex4 (h1 h2 h3 h4 : N) : option N :=
  match hex_value h1, hex_value h2, hex_value h3, hex_value h4 with
  | Some d1, Some d2, Some d3, Some d4 =>
      Some (fold_left (fun c d => N.lor (N.shiftl c 4) d) [d1; d2; d3; d4] 0)
  | _, _, _, _ => None
  end.

Definition is_high_surrogate (c : N) : bool := (0xD800 <=? c) && (c <=? 0xDBFF).
Definition is_low_surrogate (c : N) : bool := (0xDC00 <=? c) && (c <=? 0xDFFF).

Definition join_surrogates (hi lo : N) : N :=
  N.lor (N.shiftl (N.land hi 0x3FF) 10) (N.land lo 0x3FF) + 0x10000.

Definition unescape (c : N) : option N :=
  if (c =? QUOTE) || (c =? BACKSLASH) || (c =? chr "/") then Some c
  else if c =? chr "b" then Some 8
  else if c =? chr "f" then Some 12
  else if c =? chr "n" then Some 10
  else if c =? chr "r" then Some 13
  else if c =? chr "t" then Some 9
  else None.

Definition then_cons (c : N) (r : option (pystr * pystr)) : option (pystr * pystr) :=
  match r with
  | Some (t, rest) => Some (c :: t, rest)
  | None => None
  end.

(** [scanstring], strict, from just after the opening quote: the decoded
    string and what follows the closing quote. *)
Fixpoint scanstring (s : pystr) : option (pystr * pystr) :=
  match s with
  | [] => None
  | c :: r =>
      if c =? QUOTE then Some ([], r)
      else if c =? BACKSLASH then
        match r with
        | [] => None
        | e :: r1 =>
            if e =? chr "u" then
              match r1 with
              | h1 :: h2 :: h3 :: h4 :: r2 =>
                  match unhex4 h1 h2 h3 h4 with
                  | None => None
                  | Some u =>
                      if is_high_surrogate u then
                        match r2 with
                        | b :: u' :: g1 :: g2 :: g3 :: g4 :: r3 =>
                            if (b =? BACKSLASH) && (u' =? chr "u") then
                              match unhex4 g1 g2 g3 g4 with
                              | None => None
                              | Some u2 =>
                                  if is_low_surrogate u2
                                  then then_cons (join_surrogates u u2) (scanstring r3)
                                  else then_cons u (scanstring r2)
                              end
                            else then_cons u (scanstring r2)
                        | _ => then_cons u (scanstring r2)
                        end
                      else then_cons u (scanstring r2)
                  end
              | _ => None
              end
            else
              match unescape e with
              | Some c' => then_cons c' (scanstring r1)
              | None => None
              end
        end
      else if c <=? 0x1F then None
      else then_cons c (scanstring r)
  end.

(** [_match_number], phase by phase. The sign: *)
Definition scan_sign (s : pystr) : pystr * pystr :=
  match s with
  | c :: r => if c =? chr "-" then ([c], r) else ([], s)
  | [] => ([], s)
  end.

(** The integer digits: a run that does not start with [0], or one [0]. *)
Definition scan_int_part (s : pystr) : option (pystr * pystr) :=
  match s with
  | c :: r =>
      if (49 <=? c) && (c <=? 57)
      then Some (let '(ds, r') := span_digits r in (c :: ds, r'))
      else if c =? 48 then Some ([c], r)
      else None
  | [] => None
  end.

(** The fraction: a point that a digit follows, and all the digits. *)
Definition scan_frac (s : pystr) : pystr * pystr :=
  match s with
  | dot :: d :: r =>
      if (dot =? chr ".") && is_digit d
      then let '(ds, r') := span_digits r in (dot :: d :: ds, r')
      else ([], s)
  | _ => ([], s)
  end.

(** The exponent: the mark, a sign if any, and digits; a mark that no
    digit follows is not part of the number. *)
Definition scan_exp (s : pystr) : pystr * pystr :=
  match s with
  | e :: r =>
      if (e =? chr "e") || (e =? chr "E") then
        let '(sg, u) :=
          match r with
          | c :: u' => if (c =? chr "-") || (c =? chr "+") then ([c], u') else ([], r)
          | [] => ([], r)
          end in
        let '(ds, r') := span_digits u in
        match ds with
        | [] => ([], s)
        | _ :: _ => (e :: sg ++ ds, r')
        end
      else ([], s)
  | [] => ([], s)
  end.

(** The literal, whether it is a float literal (it has a fraction or an
    exponent), and what follows it. *)
Definition scan_number (s : pystr) : option (pystr * bool * pystr) :=
  let '(sign, s1) := scan_sign s in
  match scan_int_part s1 with
  | None => None
  | Some (ip, r1) =>
      let '(frac, r2) := scan_frac r1 in
      let '(exp, r3) := scan_exp r2 in
      Some (sign ++ ip ++ frac ++ exp,
            negb (match frac, exp with [], [] => true | _, _ => false end), r3)
  end.

(** [int(literal)] on what [scan_number] accepts as an integer. *)
Definition int_of_literal (lit : pystr) : Z :=
  match lit with
  | c :: ds =>
      if c =? chr "-" then Z.opp (Z.of_N (number (map (fun d => d - 48) ds)))
      else Z.of_N (number (map (fun d => d - 48) lit))
  | [] => 0%Z
  end.

(** [d[k] = v]: a key already present keeps its place. *)
Fixpoint dict_set (k : pystr) (v : pyvalue) (d : list (pystr * pyvalue))
  : list (pystr * pyvalue) :=
  match d with
  | [] => [(k, v)]
  | (k', v') :: r =>
      if str_eqb k k' then (k', v) :: r else (k', v') :: dict_set k v r
  end.

Fixpoint dict_get (k : pystr) (d : list (pystr * pyvalue)) : option pyvalue :=
  match d with
  | [] => None
  | (k', v') :: r => if str_eqb k k' then Some v' else dict_get k r
  end.

Section Items.
Variable scan : pystr -> option (pyvalue * pystr).

(** The loop of [_parse_array], entered on the first term; [n] bounds the
    number of terms. *)
Fixpoint array_items (n : nat) (s : pystr) : option (list pyvalue * pystr) :=
  match n with
  | O => None
  | S n' =>
      match scan s with
      | None => None
      | Some (v, r) =>
          match skip_ws r with
          | c :: r' =>
              if c =? chr "]" then Some ([v], r')
              else if c =? chr "," then
                match array_items n' (skip_ws r') with
                | Some (vs, r'') => Some (v :: vs, r'')
                | None => None
                end
              else None
          | [] => None
          end
      end
  end.

(** The loop of [_parse_object], entered on the first key; the pairs are
    returned in the order read. *)
Fixpoint object_items (n : nat) (s : pystr)
  : option (list (pystr * pyvalue) * pystr) :=
  match n with
  | O => None
  | S n' =>
      match s with
      | q :: r =>
          if q =? QUOTE then
            match scanstring r with
            | None => None
            | Some (k, r1) =>
                match skip_ws r1 with
                | colon :: r2 =>
                    if colon =? chr ":" then
                      match scan (skip_ws r2) with
                      | None => None
                      | Some (v, r3) =>
                          match skip_ws r3 with
                          | c :: r4 =>
                              if c =? chr "}" then Some ([(k, v)], r4)
                              else if c =? chr "," then
                                match object_items n' (skip_ws r4) with
                                | Some (kvs, r5) => Some ((k, v) :: kvs, r5)
                                | None => None
                                end
                              else None
                          | [] => None
                          end
                      end
                    else None
                | [] => None
                end
            end
          else None
      | [] => None
      end
  end.

End Items.

Section Scanner.
Context `{FloatConv}.

(** The named constants of [scan_once]. *)
Definition scan_constant (s : pystr) : option (pyvalue * pystr) :=
  match strip_prefix (str "null") s with
  | Some r => Some (PyNone, r)
  | None =>
  match strip_prefix (str "true") s with
  | Some r => Some (PyBool true, r)
  | None =>
  match strip_prefix (str "false") s with
  | Some r => Some (PyBool false, r)
  | None =>
  match strip_prefix (str "NaN") s with
  | Some r => Some (PyFloat S754_nan, r)
  | None =>
  match strip_prefix (str "Infinity") s with
  | Some r => Some (PyFloat (S754_infinity false), r)
  | None =>
  match strip_prefix (str "-Infinity") s with
  | Some r => Some (PyFloat (S754_infinity true), r)
  | None => None
  end end end end end end.

Definition scan_number_value (s : pystr) : option (pyvalue * pystr) :=
  match scan_number s with
  | Some (lit, true, r) => Some (PyFloat (float_of_literal (to_string lit)), r)
  | Some (lit, false, r) => Some (PyInt (int_of_literal lit), r)
  | None => None
  end.

(** [scan_once]: one JSON term at the head of [s]; [fuel] bounds the
    nesting depth. *)
Fixpoint scan_once (fuel : nat) (s : pystr) : option (pyvalue * pystr) :=
  match fuel with
  | O => None
  | S fuel' =>
      match s with
      | [] => None
      | c :: r =>
          if c =? QUOTE then
            match scanstring r with
            | Some (x, r') => Some (PyStr x, r')
            | None => None
            end
          else if c =? chr "{" then
            match skip_ws r with
            | c' :: r' =>
                if c' =? chr "}" then Some (PyDict [], r')
                else
                  match object_items (scan_once fuel') (length r) (skip_ws r) with
                  | Some (kvs, r'') =>
                      Some (PyDict (fold_left (fun d kv => dict_set (fst kv) (snd kv) d) kvs []), r'')
                  | None => None
                  end
            | [] => None
            end
          else if c =? chr "[" then
            match skip_ws r with
            | c' :: r' =>
                if c' =? chr "]" then Some (PyList [], r')
                else
                  match array_items (scan_once fuel') (length r) (skip_ws r) with
                  | Some (vs, r'') => Some (PyList vs, r'')
                  | None => None
                  end
            | [] => None
            end
          else
            match scan_constant s with
            | Some res => Some res
            | None => scan_number_value s
            end
      end
  end.

(** [json.loads(s)] for a [str]: [None] stands for [JSONDecodeError]. *)
Definition loads (s : pystr) : option pyvalue :=
  match strip_prefix [0xFEFF] s with
  | Some _ => None
  | None =>
      let s1 := skip_ws s in
      match scan_once (S (length s1)) s1 with
      | Some (v, r) =>
          match skip_ws r with
          | [] => Some v
          | _ :: _ => None
          end
      | None => None
      end
  end.

End Scanner.

(** *** What a value contains *)

(** The floats of a value. *)
Fixpoint floats (v : pyvalue) : list spec_float :=
  match v with
  | PyFloat f => [f]
  | PyList items => flat_map floats items
  | PyDict items => flat_map (fun kv => floats (snd kv)) items
  | _ => []
  end.

(** A string as [json.loads] builds them from decoded UTF-8: Unicode code
    points, and no high surrogate followed by a low one (the scanner joins
    such a pair of escapes, and decoded text holds no surrogate). *)
Fixpoint well_formed_str (s : pystr) : bool :=
  match s with
  | [] => true
  | c :: r =>
      (c <? 0x110000)
      && negb (is_high_surrogate c
               && match r with c' :: _ => is_low_surrogate c' | [] => false end)
      && well_formed_str r
  end.

Fixpoint distinct_keys (items : list (pystr * pyvalue)) : bool :=
  match items with
  | [] => true
  | kv :: r => negb (existsb (fun kv' => str_eqb (fst kv) (fst kv')) r) && distinct_keys r
  end.

(** A value as [json.loads] builds them: well-formed strings and keys, and
    no key twice in a [dict]. *)
Fixpoint well_formed (v : pyvalue) : bool :=
  match v with
  | PyStr s => well_formed_str s
  | PyList items => forallb well_formed items
  | PyDict items =>
      forallb (fun kv => well_formed_str (fst kv) && well_formed (snd kv)) items
      && distinct_keys items
  | _ => true
  end.

Definition is_nan (f : spec_float) : bool :=
  match f with S754_nan => true | _ => false end.

Definition no_nan (v : pyvalue) : bool :=
  forallb (fun f => negb (is_nan f)) (floats v).

(** The nesting depth of a value. *)
Fixpoint depth (v : pyvalue) : nat :=
  match v with
  | PyList items => S (list_max (map depth items))
  | PyDict items => S (list_max (map (fun kv => depth (snd kv)) items))
  | _ => 1%nat
  end.

(** The runtime's conversions agree on a float: its [repr] is a float
    literal of JSON, and [float] reads it back. (For the infinities and
    NaN the encoder writes a constant instead.) *)
Definition float_round_trips `{FloatConv} (f : spec_float) : Prop :=
  match f with
  | S754_nan | S754_infinity _ => True
  | _ =>
      scan_number (str (float_repr f)) = Some (str (float_repr f), true, [])
      /\ float_of_literal (float_repr f) = f
  end.

(** *** Vocabulary of the round trip *)

(** What may follow the escape of a high surrogate without being taken
    for its second half. *)
Definition no_low_escape (t : pystr) : Prop :=
  match t with
  | b :: u' :: g1 :: g2 :: g3 :: g4 :: _ =>
      (b =? BACKSLASH) && (u' =? chr "u") = true ->
      exists u2, unhex4 g1 g2 g3 g4 = Some u2 /\ is_low_surrogate u2 = false
  | _ => True
  end.

(** What may follow a number in a document: nothing, or a character that
    no number contains. *)
Definition ends_number (rest : pystr) : Prop :=
  match rest with
  | [] => True
  | c :: _ =>
      is_digit c = false /\ c <> chr "." /\ c <> chr "e" /\ c <> chr "E"
      /\ c <> chr "+" /\ c <> chr "-"
  end.

(** A number starts with a digit, or with a minus sign and a digit. *)
Definition starts_number (s : pystr) : Prop :=
  match s with
  | c :: r =>
      is_digit c = true
      \/ (c = chr "-" /\ match r with d :: _ => is_digit d = true | [] => False end)
  | [] => False
  end.

(** What may follow a value in the text of a document. *)
Definition ends_value (rest : pystr) : Prop :=
  match rest with
  | [] => True
  | c :: _ => c = chr "," \/ c = chr "]" \/ c = chr "}"
  end.

(** The first character of a term: no white space, no closing bracket. *)
Definition starts_term (s : pystr) : Prop :=
  match s with
  | c :: _ => is_ws c = false /\ c <> chr "]" /\ c <> chr "}" /\ c <> 0xFEFF
  | [] => False
  end.

(** *** Vocabulary of the scanner's output *)

(** A Unicode scalar value: a code point that is no surrogate. *)
Definition scalar (c : N) : Prop := c < 0x110000 /\ is_surrogate c = false.

(** The first character of a string, when it is a low surrogate. *)
Definition head_low (x : pystr) : bool :=
  match x with c :: _ => is_low_surrogate c | [] => false end.

(** The text starts with the escape of a low surrogate. *)
Definition low_escape_at (s : pystr) : Prop :=
  exists g1 g2 g3 g4 r u2,
    s = BACKSLASH :: chr "u" :: g1 :: g2 :: g3 :: g4 :: r
    /\ unhex4 g1 g2 g3 g4 = Some u2 /\ is_low_surrogate u2 = true.

(** A dictionary under construction: well-formed keys and values, no key
    twice. *)
Definition dict_ok (d : list (pystr * pyvalue)) : Prop :=
  Forall (fun kv => well_formed_str (fst kv) = true /\ well_formed (snd kv) = true) d
  /\ List.NoDup (map fst d).

(** What a scanner of terms ensures, on text made of scalar values. *)
Definition scans_well (scan : pystr -> option (pyvalue * pystr)) : Prop :=
  forall s v r,
    Forall scalar s -> scan s = Some (v, r) ->
    well_formed v = true /\ Forall scalar r.

(** White space only. *)
Definition ws_text (t : pystr) : Prop := Forall (fun c => is_ws c = true) t.

(** *** Equality of Python values ([==]) *)

Definition int_of_bool (b : bool) : Z := if b then 1%Z else 0%Z.

(** Exact comparison of a float with an integer. *)
Definition float_eq_int (f : spec_float) (n : Z) : bool :=
  match f with
  | S754_zero _ => (n =? 0)%Z
  | S754_finite s m e =>
      let mz := if s then Z.neg m else Z.pos m in
      if (0 <=? e)%Z then (n =? mz * 2 ^ e)%Z else (mz =? n * 2 ^ (- e))%Z
  | _ => false
  end.

Fixpoint py_eq (a b : pyvalue) : bool :=
  match a with
  | PyNone => match b with PyNone => true | _ => false end
  | PyBool x =>
      match b with
      | PyBool y => Bool.eqb x y
      | PyInt n => (int_of_bool x =? n)%Z
      | PyFloat f => float_eq_int f (int_of_bool x)
      | _ => false
      end
  | PyInt m =>
      match b with
      | PyBool y => (m =? int_of_bool y)%Z
      | PyInt n => (m =? n)%Z
      | PyFloat f => float_eq_int f m
      | _ => false
      end
  | PyFloat f =>
      match b with
      | PyBool y => float_eq_int f (int_of_bool y)
      | PyInt n => float_eq_int f n
      | PyFloat g => SFeqb f g
      | _ => false
      end
  | PyStr s => match b with PyStr t => str_eqb s t | _ => false end
  | PyList xs =>
      match b with
      | PyList ys =>
          (fix all2 (xs ys : list pyvalue) : bool :=
             match xs, ys with
             | [], [] => true
             | x :: xs', y :: ys' => py_eq x y && all2 xs' ys'
             | _, _ => false
             end) xs ys
      | _ => false
      end
  | PyDict kvs =>
      match b with
      | PyDict kvs' =>
          Nat.eqb (length kvs) (length kvs') &&
          forallb (fun kv =>
                     match dict_get (fst kv) kvs' with
                     | Some v' => py_eq (snd kv) v'
                     | None => false
                     end) kvs
      | _ => false
      end
  end.

(** CPython's conversions on the few floats the examples use ([0.5],
    [2.5] and [1e+16]); every other argument is sent to zero. *)
Definition sample_floats : FloatConv := {|
  float_repr f :=
    match f with
    | S754_finite false 4503599627370496%positive (-53) => "0.5"
    | S754_finite false 5629499534213120%positive (-51) => "2.5"
    | S754_finite false 5000000000000000%positive 1 => "1e+16"
    | _ => "0.0"
    end%string;
  float_of_literal lit :=
    if String.eqb lit "0.5" then S754_finite false 4503599627370496%positive (-53)
    else if String.eqb lit "2.5" then S754_finite false 5629499534213120%positive (-51)
    else if String.eqb lit "1e+16" then S754_finite false 5000000000000000%positive 1
    else S754_zero false
|}.

End Json.

(** ** The script *)

Module Consumer.
Import Py Utf8 Json.

(** The exceptions of a run. All of them derive from [Exception]. *)
Inductive exn :=
| ValueError (msg : string)        (* [raise ValueError(msg)] *)
| InvalidLiteral (s : string)      (* the [ValueError] of [int(s)] *)
| AttributeError                   (* [None.decode] on a record without payload *)
| UnicodeDecodeError
| UnicodeEncodeError
| JSONDecodeError
| ClientError (what : string).     (* whatever a store or topic client raises *)

(** The external calls of the script, with their arguments. A setting that
    is read from the environment is a [str] or [None]. *)
Inductive call :=
| boto3_client (endpoint_url aws_access_key_id aws_secret_access_key : option string)
| head_bucket (Bucket : option string)
| create_bucket (Bucket : option string)
| KafkaConsumer (topic bootstrap_server group_id : option string)
| utcnow (now : datetime)
| put_object (Bucket : option string) (Key : string) (Body : list byte).

(** What the outside answers: the wall-clock readings in the order they
    are taken, and for each fallible call the exception it raises, if any
    (the store writes are numbered from zero). *)
Record world := {
  clock : nat -> datetime;
  boto3_client_raises : option exn;
  head_bucket_raises : option exn;
  create_bucket_raises : option exn;
  KafkaConsumer_raises : option exn;
  put_object_raises : nat -> option exn
}.

Record state := {
  batch : list pyvalue;
  trace : list call
}.

Inductive outcome (A : Type) :=
| Returned (a : A) (st : state)
| Raised (e : exn) (st : state).
Arguments Returned {A} a st.
Arguments Raised {A} e st.

Definition M (A : Type) : Type := state -> outcome A.

(** The state a run ends in, whether it returned or raised. *)
Definition final {A} (r : outcome A) : state :=
  match r with
  | Returned _ st => st
  | Raised _ st => st
  end.

Definition ret {A} (a : A) : M A := fun st => Returned a st.

Definition raise {A} (e : exn) : M A := fun st => Raised e st.

Definition bind {A B} (m : M A) (k : A -> M B) : M B :=
  fun st =>
    match m st with
    | Returned a st' => k a st'
    | Raised e st' => Raised e st'
    end.

Notation "x <- m ;; k" := (bind m (fun x => k))
  (at level 100, m at next level, right associativity).
Notation "m ;; k" := (bind m (fun _ => k))
  (at level 100, right associativity).

Definition lift {A} (r : exn + A) : M A :=
  match r with
  | inl e => raise e
  | inr a => ret a
  end.

(** [try: m except Exception: handler]. *)
Definition try_except {A} (m : M A) (handler : M A) : M A :=
  fun st =>
    match m st with
    | Returned a st' => Returned a st'
    | Raised _ st' => handler st'
    end.

(** An external call: recorded, then it returns or raises. *)
Definition invoke (c : call) (raises : option exn) : M unit :=
  fun st =>
    let st' := {| batch := batch st; trace := trace st ++ [c] |} in
    match raises with
    | None => Returned tt st'
    | Some e => Raised e st'
    end.

Definition is_put (c : call) : bool :=
  match c with put_object _ _ _ => true | _ => false end.




Definition is_utcnow (c : call) : bool :=
  match c with utcnow _ => true | _ => false end.

Definition count (p : call -> bool) (tr : list call) : nat :=
  length (List.filter p tr).

(** [datetime.utcnow()]: the next reading of the clock. *)
Definition datetime_utcnow (w : world) : M datetime :=
  fun st =>
    let now := clock w (count is_utcnow (trace st)) in
    Returned now {| batch := batch st; trace := trace st ++ [utcnow now] |}.

Definition get_batch : M (list pyvalue) := fun st => Returned (batch st) st.

Definition set_batch (b : list pyvalue) : M unit :=
  fun st => Returned tt {| batch := b; trace := trace st |}.

(** *** Configuration (lines 31-53) *)

Record config := {
  MINIO_BUCKET : option string;
  MINIO_ENDPOINT : option string;
  MINIO_ACCESS_KEY : option string;
  MINIO_SECRET_KEY : option string;
  KAFKA_TOPIC : option string;
  KAFKA_BOOTSTRAP_SERVER : option string;
  KAFKA_GROUP_ID : option string;
  BATCH_SIZE : Z
}.

Definition getenv (env : gmap string string) (key : string) : option string :=
  env !! key.

(** [int(os.getenv("BATCH_SIZE", 10))]. *)
Definition read_batch_size (env : gmap string string) : M Z :=
  match getenv env "BATCH_SIZE" with
  | None => ret 10%Z
  | Some s =>
      match py_int s with
      | Some n => ret n
      | None => raise (InvalidLiteral s)
      end
  end.

Definition required_vars (c : config) : list (string * option string) :=
  [ ("MINIO_BUCKET", MINIO_BUCKET c);
    ("MINIO_ENDPOINT", MINIO_ENDPOINT c);
    ("MINIO_ACCESS_KEY", MINIO_ACCESS_KEY c);
    ("MINIO_SECRET_KEY", MINIO_SECRET_KEY c);
    ("KAFKA_TOPIC", KAFKA_TOPIC c);
    ("KAFKA_BOOTSTRAP_SERVER", KAFKA_BOOTSTRAP_SERVER c);
    ("KAFKA_GROUP_ID", KAFKA_GROUP_ID c) ]%string.

Definition is_None {A} (o : option A) : bool :=
  match o with None => true | Some _ => false end.

(** The keys of [required_vars], in the order of the dictionary. *)
Definition required_names : list string :=
  [ "MINIO_BUCKET"; "MINIO_ENDPOINT"; "MINIO_ACCESS_KEY"; "MINIO_SECRET_KEY";
    "KAFKA_TOPIC"; "KAFKA_BOOTSTRAP_SERVER"; "KAFKA_GROUP_ID" ]%string.

Definition missing_vars (c : config) : list string :=
  map fst (List.filter (fun kv => is_None (snd kv)) (required_vars c)).

Definition configure (env : gmap string string) : M config :=
  n <- read_batch_size env ;;
  let c := {| MINIO_BUCKET := getenv env "MINIO_BUCKET";
              MINIO_ENDPOINT := getenv env "MINIO_ENDPOINT";
              MINIO_ACCESS_KEY := getenv env "MINIO_ACCESS_KEY";
              MINIO_SECRET_KEY := getenv env "MINIO_SECRET_KEY";
              KAFKA_TOPIC := getenv env "KAFKA_TOPIC";
              KAFKA_BOOTSTRAP_SERVER := getenv env "KAFKA_BOOTSTRAP_SERVER";
              KAFKA_GROUP_ID := getenv env "KAFKA_GROUP_ID";
              BATCH_SIZE := n |} in
  match missing_vars c with
  | [] => ret c
  | _ :: _ =>
      raise (ValueError ("Missing required environment variables: "
                         +:+ join ", " (missing_vars c)))
  end.

(** *** Clients and bucket (lines 56-79) *)

Definition ensure_bucket (w : world) (c : config) : M unit :=
  try_except
    (invoke (head_bucket (MINIO_BUCKET c)) (head_bucket_raises w))
    (invoke (create_bucket (MINIO_BUCKET c)) (create_bucket_raises w)).

Definition startup (w : world) (env : gmap string string) : M config :=
  c <- configure env ;;
  invoke (boto3_client (MINIO_ENDPOINT c) (MINIO_ACCESS_KEY c) (MINIO_SECRET_KEY c))
         (boto3_client_raises w) ;;
  ensure_bucket w c ;;
  invoke (KafkaConsumer (KAFKA_TOPIC c) (KAFKA_BOOTSTRAP_SERVER c) (KAFKA_GROUP_ID c))
         (KafkaConsumer_raises w) ;;
  ret c.

(** *** The loop (lines 83-103) *)

Section Loop.
Context `{FloatConv}.

(** [lambda v: json.loads(v.decode("utf-8"))] on the payload of a record
    ([None] for a record without payload). *)
Definition value_deserializer (v : option (list byte)) : exn + pyvalue :=
  match v with
  | None => inl AttributeError
  | Some bytes =>
      match decode bytes with
      | None => inl UnicodeDecodeError
      | Some text =>
          match loads text with
          | None => inl JSONDecodeError
          | Some event => inr event
          end
      end
  end.

Definition file_path (now : datetime) : string :=
  let date_path := strftime now "date=%Y-%m-%d/hour=%H" in
  let file_name := "spotify_events_" +:+ strftime now "%Y-%m-%dT%H-%M-%S" +:+ ".json" in
  "bronze/" +:+ date_path +:+ "/" +:+ file_name.

Definition json_data (b : list pyvalue) : pystr :=
  join_seq [10] (map dumps b).

Definition flush (w : world) (c : config) : M unit :=
  now <- datetime_utcnow w ;;
  b <- get_batch ;;
  match encode (json_data b) with
  | None => raise UnicodeEncodeError
  | Some body =>
      (fun st =>
         invoke (put_object (MINIO_BUCKET c) (file_path now) body)
                (put_object_raises w (count is_put (trace st))) st) ;;
      set_batch []
  end.

(** One iteration of [for message in consumer]. *)
Definition on_message (w : world) (c : config) (message : option (list byte)) : M unit :=
  event <- lift (value_deserializer message) ;;
  b <- get_batch ;;
  set_batch (b ++ [event]) ;;
  b <- get_batch ;;
  if (BATCH_SIZE c <=? Z.of_nat (length b))%Z then flush w c else ret tt.

(** The iterations over the records delivered so far. *)
Fixpoint consume (w : world) (c : config) (messages : list (option (list byte))) : M unit :=
  match messages with
  | [] => ret tt
  | message :: rest => on_message w c message ;; consume w c rest
  end.

Definition initial : state := {| batch := []; trace := [] |}.

(** The whole script on an environment and the records delivered so far. *)
Definition main (w : world) (env : gmap string string)
    (messages : list (option (list byte))) : outcome unit :=
  (c <- startup w env ;;
   set_batch [] ;;
   consume w c messages) initial.

(** *** Vocabulary of the properties *)

(** The bytes written for a batch (its text always has an encoding, see
    [encode_json_data] below). *)
Definition body_of (b : list pyvalue) : list byte :=
  match encode (json_data b) with
  | Some body => body
  | None => []
  end.

(** The calls of successive flushes, one per group of events, the first
    of them taking reading [n] of the clock. *)
Fixpoint flush_calls (w : world) (c : config) (n : nat) (groups : list (list pyvalue))
  : list call :=
  match groups with
  | [] => []
  | g :: rest =>
      utcnow (clock w n)
      :: put_object (MINIO_BUCKET c) (file_path (clock w n)) (body_of g)
      :: flush_calls w c (S n) rest
  end.

End Loop.

(** The calls that the loop may make: readings of the clock, and writes
    to the bucket of the configuration under a key of the bronze layer. *)
Definition loop_call (c : config) (cl : call) : Prop :=
  match cl with
  | utcnow _ => True
  | put_object bucket key _ =>
      bucket = MINIO_BUCKET c
      /\ exists stem, key = ("bronze/date=" +:+ stem +:+ ".json")%string
  | _ => False
  end.

(** The calls of the startup, with the settings of the environment. *)
Definition boto_call (env : gmap string string) : call :=
  boto3_client (getenv env "MINIO_ENDPOINT") (getenv env "MINIO_ACCESS_KEY")
    (getenv env "MINIO_SECRET_KEY").

Definition kafka_call (env : gmap string string) : call :=
  KafkaConsumer (getenv env "KAFKA_TOPIC") (getenv env "KAFKA_BOOTSTRAP_SERVER")
    (getenv env "KAFKA_GROUP_ID").

Definition bucket_calls (w : world) (env : gmap string string) : list call :=
  head_bucket (getenv env "MINIO_BUCKET")
  :: match head_bucket_raises w with
     | None => []
     | Some _ => [create_bucket (getenv env "MINIO_BUCKET")]
     end.

End Consumer.

(** ** The settings file (lines 10-28)

    Paths are those of a POSIX system: [os.path] is [posixpath]. *)

Module Dotenv.

(** [p[:p.rfind("/") + 1]]: the path up to its last slash, included. *)
Fixpoint head_of (p : string) : string :=
  match p with
  | EmptyString => EmptyString
  | String c rest =>
      match head_of rest with
      | EmptyString => if Ascii.eqb c "/" then String c EmptyString else EmptyString
      | h => String c h
      end
  end.

(** [head == "/" * len(head)]. *)
Fixpoint all_slashes (s : string) : bool :=
  match s with
  | EmptyString => true
  | String c rest => Ascii.eqb c "/" && all_slashes rest
  end.

(** [head.rstrip("/")]. *)
Fixpoint rstrip (s : string) : string :=
  match s with
  | EmptyString => EmptyString
  | String c rest =>
      match rstrip rest with
      | EmptyString => if Ascii.eqb c "/" then EmptyString else String c EmptyString
      | r => String c r
      end
  end.

Definition is_empty (s : string) : bool :=
  match s with EmptyString => true | String _ _ => false end.

(** [os.path.dirname(p)]. *)
Definition dirname (p : string) : string :=
  let head := head_of p in
  if negb (is_empty head) && negb (all_slashes head) then rstrip head else head.

Definition startswith_slash (s : string) : bool :=
  match s with String c _ => Ascii.eqb c "/" | EmptyString => false end.

Fixpoint endswith_slash (s : string) : bool :=
  match s with
  | EmptyString => false
  | String c EmptyString => Ascii.eqb c "/"
  | String _ rest => endswith_slash rest
  end.

(** [os.path.join(a, b)]. *)
Definition path_join (a b : string) : string :=
  if startswith_slash b then b
  else if is_empty a || endswith_slash a then a +:+ b
  else a +:+ "/" +:+ b.

(** The file that [load_dotenv] is called on, if any: [script] is
    [os.path.abspath(__file__)], and [path_exists] is [os.path.exists]. *)
Definition env_file (path_exists : string -> bool) (script : string) : option string :=
  let script_dir := dirname script in
  let parent_dir := dirname script_dir in
  let env_path := path_join parent_dir ".env" in
  if path_exists env_path then Some env_path
  else
    let env_path := path_join script_dir ".env" in
    if path_exists env_path then Some env_path else None.

(** A name of a path: no slash in it. *)
Fixpoint no_slash (s : string) : bool :=
  match s with
  | EmptyString => true
  | String c rest => negb (Ascii.eqb c "/") && no_slash rest
  end.

End Dotenv.

(** * Properties *)

Import Py Utf8 Json Consumer.

(** ** Worlds and inputs of the examples *)

Definition quiet_world : world := {|
  clock := fun n =>
    {| year := 2024; month := 3; day := 7; hour := 9; minute := 5;
       second := N.of_nat n; microsecond := 0 |};
  boto3_client_raises := None;
  head_bucket_raises := None;
  create_bucket_raises := None;
  KafkaConsumer_raises := None;
  put_object_raises := fun _ => None
|}.

(** A store that is unreachable: the existence check and the creation
    both raise. *)
Definition unreachable_store : world := {|
  clock := clock quiet_world;
  boto3_client_raises := None;
  head_bucket_raises := Some (ClientError "EndpointConnectionError");
  create_bucket_raises := Some (ClientError "EndpointConnectionError");
  KafkaConsumer_raises := None;
  put_object_raises := fun _ => None
|}.

(** A store that refuses every write. *)
Definition refusing_store : world := {|
  clock := clock quiet_world;
  boto3_client_raises := None;
  head_bucket_raises := None;
  create_bucket_raises := None;
  KafkaConsumer_raises := None;
  put_object_raises := fun _ => Some (ClientError "AccessDenied")
|}.

Definition full_env (batch_size : string) : gmap string string :=
  list_to_map
    [ ("MINIO_BUCKET", "lake"); ("MINIO_ENDPOINT", "http://minio:9000");
      ("MINIO_ACCESS_KEY", "key"); ("MINIO_SECRET_KEY", "secret");
      ("KAFKA_TOPIC", "spotify"); ("KAFKA_BOOTSTRAP_SERVER", "kafka:9092");
      ("KAFKA_GROUP_ID", "bronze"); ("BATCH_SIZE", batch_size) ]%string.

(** The payload of a record holding ASCII text. *)
Definition payload (text : string) : option (list byte) :=
  Some (map byte_of (str text)).

(** The configuration read from [full_env], for an integer threshold. *)
Definition sample_config (batch_size : Z) : config := {|
  MINIO_BUCKET := Some "lake";
  MINIO_ENDPOINT := Some "http://minio:9000";
  MINIO_ACCESS_KEY := Some "key";
  MINIO_SECRET_KEY := Some "secret";
  KAFKA_TOPIC := Some "spotify";
  KAFKA_BOOTSTRAP_SERVER := Some "kafka:9092";
  KAFKA_GROUP_ID := Some "bronze";
  BATCH_SIZE := batch_size
|}%string.

(** The event [{"id": n}] and a record carrying its JSON text. *)
Definition id_event (n : Z) : pyvalue := PyDict [(str "id", PyInt n)].

Definition id_record (n : Z) : option (list byte) :=
  Some (body_of (H := sample_floats) [id_event n]).

(** The text of an object that gives the key [a] twice:
    [{"a": 1, "b": null, "a": 2}], after the opening brace. *)
Definition repeated_key_text : pystr :=
  [QUOTE] ++ str "a" ++ [QUOTE] ++ str ": 1, " ++ [QUOTE] ++ str "b" ++ [QUOTE]
  ++ str ": null, " ++ [QUOTE] ++ str "a" ++ [QUOTE] ++ str ": 2}".

(** ** Decimal digits *)

Lemma digits_fuel_acc fuel n acc :
  digits_fuel fuel n acc = digits_fuel fuel n [] ++ acc.
Proof.
  revert n acc. induction fuel as [|fuel IH]; intros n acc; [reflexivity|].
  cbn [digits_fuel]. destruct (n / 10 =? 0); [reflexivity|].
  rewrite (IH _ (_ :: acc)), (IH _ [_]), <- app_assoc. reflexivity.
Qed.

Lemma log2_div10 n : n / 10 <> 0 -> N.log2 (n / 10) < N.log2 n.
Proof.
  intros Hq.
  assert (Hn : 0 < n) by (destruct n; [discriminate Hq || (exfalso; apply Hq; reflexivity) | lia]).
  apply N.log2_lt_pow2; [apply N.neq_0_lt_0; exact Hq|].
  pose proof (N.log2_spec n Hn) as [_ Hup].
  rewrite N.pow_succ_r' in Hup.
  pose proof (N.Div0.mul_div_le n 10). lia.
Qed.

Lemma digits_fuel_enough fuel fuel' n :
  (N.to_nat (N.log2 n) < fuel)%nat -> (N.to_nat (N.log2 n) < fuel')%nat ->
  digits_fuel fuel n [] = digits_fuel fuel' n [].
Proof.
  revert fuel' n. induction fuel as [|fuel IH]; intros fuel' n Hf Hf'; [lia|].
  destruct fuel' as [|fuel']; [lia|]. cbn [digits_fuel].
  destruct (n / 10 =? 0) eqn:Hq; [reflexivity|].
  apply N.eqb_neq in Hq. pose proof (log2_div10 n Hq).
  rewrite (digits_fuel_acc fuel), (digits_fuel_acc fuel').
  f_equal. apply IH; lia.
Qed.

(** The digits of [n] are those of [n / 10] followed by [n mod 10]. *)
Lemma digits_step n :
  digits n = (if n / 10 =? 0 then [] else digits (n / 10)) ++ [n mod 10].
Proof.
  unfold digits at 1. cbn [digits_fuel].
  destruct (n / 10 =? 0) eqn:Hq; [reflexivity|].
  apply N.eqb_neq in Hq. pose proof (log2_div10 n Hq).
  rewrite digits_fuel_acc. f_equal. unfold digits. apply digits_fuel_enough; lia.
Qed.

Lemma number_snoc ds d : number (ds ++ [d]) = 10 * number ds + d.
Proof. unfold number. rewrite fold_left_app. reflexivity. Qed.

Lemma number_digits n : number (digits n) = n.
Proof.
  induction n as [n IH] using (well_founded_induction N.lt_wf_0).
  rewrite digits_step, number_snoc.
  destruct (n / 10 =? 0) eqn:Hq.
  - apply N.eqb_eq in Hq. cbn [number fold_left].
    pose proof (N.div_mod n 10). lia.
  - apply N.eqb_neq in Hq. rewrite IH.
    + pose proof (N.div_mod n 10). lia.
    + apply N.div_lt; [|lia]. destruct n; [exfalso; apply Hq; reflexivity | lia].
Qed.

Lemma digits_small n : n < 10 -> digits n = [n].
Proof.
  intros Hn. rewrite digits_step, N.div_small, N.mod_small by exact Hn. reflexivity.
Qed.

(** Two-digit and four-digit fields. *)
Lemma zero_pad_2 n : n < 100 -> zero_pad 2 (digits n) = [n / 10; n mod 10].
Proof.
  intros Hn. rewrite digits_step. destruct (n / 10 =? 0) eqn:Hq.
  - apply N.eqb_eq in Hq. rewrite Hq. reflexivity.
  - rewrite digits_small by (apply N.Div0.div_lt_upper_bound; lia). reflexivity.
Qed.

Lemma digits_4 n :
  1000 <= n -> n < 10000 ->
  digits n = [n / 1000; (n / 100) mod 10; (n / 10) mod 10; n mod 10].
Proof.
  intros Hlo Hhi.
  assert (H100 : n / 10 / 10 = n / 100) by (rewrite N.Div0.div_div; reflexivity).
  assert (H1000 : n / 100 / 10 = n / 1000) by (rewrite N.Div0.div_div; reflexivity).
  assert (Hq : forall m, 10 <= m -> (m / 10 =? 0) = false).
  { intros m Hm. apply N.eqb_neq. intros H0.
    pose proof (N.div_mod m 10). pose proof (N.mod_lt m 10). lia. }
  assert (H1 : 10 <= n / 100).
  { apply N.div_le_lower_bound; lia. }
  assert (H2 : 10 <= n / 10).
  { apply N.div_le_lower_bound; lia. }
  rewrite digits_step, (Hq n) by lia.
  rewrite digits_step, (Hq (n / 10)), H100 by exact H2.
  rewrite digits_step, (Hq (n / 100)), H1000 by exact H1.
  rewrite digits_small by (apply N.Div0.div_lt_upper_bound; lia). reflexivity.
Qed.

(** ** Text produced by the encoder *)

Lemma pyvalue_induction (P : pyvalue -> Prop) :
  P PyNone ->
  (forall b, P (PyBool b)) ->
  (forall n, P (PyInt n)) ->
  (forall f, P (PyFloat f)) ->
  (forall s, P (PyStr s)) ->
  (forall items, Forall P items -> P (PyList items)) ->
  (forall items, Forall (fun kv => P (snd kv)) items -> P (PyDict items)) ->
  forall v, P v.
Proof.
  intros HN HB HI HF HS HL HD.
  fix IH 1. intros [ | b | n | f | s | items | items].
  - exact HN.
  - apply HB.
  - apply HI.
  - apply HF.
  - apply HS.
  - apply HL. induction items as [|x r IHr]; constructor; [apply IH | exact IHr].
  - apply HD. induction items as [|kv r IHr]; constructor; [apply IH | exact IHr].
Qed.

Lemma below_app b s t : below b s -> below b t -> below b (s ++ t).
Proof. apply Forall_app_2. Qed.

Lemma below_weaken b b' s : b <= b' -> below b s -> below b' s.
Proof. intros Hb Hs. eapply Forall_impl; [exact Hs|]. simpl. intros c Hc. lia. Qed.

Lemma str_below s : below 256 (str s).
Proof.
  unfold below, str. apply Forall_map, Forall_forall. intros a _.
  apply N_ascii_bounded.
Qed.

Lemma join_seq_Forall {A} (P : A -> Prop) sep parts :
  Forall P sep -> Forall (Forall P) parts -> Forall P (join_seq sep parts).
Proof.
  intros Hsep Hparts. induction Hparts as [|p rest Hp Hrest IH]; [constructor|].
  destruct rest as [|q rest']; [exact Hp|].
  change (Forall P (p ++ sep ++ join_seq sep (q :: rest'))).
  apply Forall_app_2; [exact Hp|]. apply Forall_app_2; [exact Hsep | exact IH].
Qed.

Lemma digits_fuel_lt fuel n acc :
  Forall (fun d => d < 10) acc -> Forall (fun d => d < 10) (digits_fuel fuel n acc).
Proof.
  revert n acc. induction fuel as [|fuel IH]; intros n acc Hacc; simpl; [exact Hacc|].
  assert (Hd : n mod 10 < 10) by (apply N.mod_lt; lia).
  destruct (n / 10 =? 0); [constructor; assumption|].
  apply IH. constructor; assumption.
Qed.

Lemma digits_lt n : Forall (fun d => d < 10) (digits n).
Proof. apply digits_fuel_lt. constructor. Qed.

Lemma str_literal_printable (P : N -> Prop) (s : pystr) :
  (forall c, printable c -> P c) ->
  Forall printable s -> Forall P s.
Proof. intros HP Hs. eapply Forall_impl; [exact Hs | exact HP]. Qed.

Lemma int_repr_printable n : Forall printable (int_repr n).
Proof.
  unfold int_repr. apply Forall_app_2.
  - destruct (n <? 0)%Z; [|apply List.Forall_nil].
    apply List.Forall_cons; [unfold printable, chr; simpl; lia | apply List.Forall_nil].
  - apply Forall_map. eapply Forall_impl; [apply digits_lt|].
    cbv beta. unfold printable. intros d Hd. lia.
Qed.

Lemma hex_digit_printable d : printable (hex_digit (N.land d 0xF)).
Proof.
  assert (Hd : N.land d 0xF <= 0xF) by apply N.land_le_r.
  unfold hex_digit, printable. destruct (N.land d 15 <? 10); lia.
Qed.

Lemma hex4_printable c : Forall printable (hex4 c).
Proof. unfold hex4. repeat constructor; apply hex_digit_printable. Qed.

Ltac printable_literal :=
  repeat (apply List.Forall_cons; [unfold printable, chr, QUOTE, BACKSLASH; simpl; lia|]);
  try apply List.Forall_nil.

Lemma escape_char_printable c : Forall printable (escape_char c).
Proof.
  unfold escape_char. destruct (plain_char c) eqn:Hp.
  - unfold plain_char in Hp. apply List.Forall_cons; [|apply List.Forall_nil].
    apply andb_prop in Hp as [Hp _]. apply andb_prop in Hp as [Hp _].
    apply andb_prop in Hp as [H1 H2]. apply N.leb_le in H1, H2. split; assumption.
  - apply List.Forall_cons; [unfold printable, BACKSLASH; lia|].
    repeat match goal with |- context [if ?b then _ else _] => destruct b end;
      try (printable_literal; fail).
    + apply List.Forall_cons; [unfold printable, chr; simpl; lia|].
      apply Forall_app_2; [apply hex4_printable|].
      apply List.Forall_cons; [unfold printable, BACKSLASH; lia|].
      apply List.Forall_cons; [unfold printable, chr; simpl; lia|]. apply hex4_printable.
    + apply List.Forall_cons; [unfold printable, chr; simpl; lia|]. apply hex4_printable.
Qed.

Lemma encode_basestring_ascii_printable s : Forall printable (encode_basestring_ascii s).
Proof.
  unfold encode_basestring_ascii. apply List.Forall_cons; [unfold printable, QUOTE; lia|].
  apply Forall_app_2; [|printable_literal].
  apply List.Forall_flat_map, List.Forall_forall. intros c _.
  apply escape_char_printable.
Qed.

Section EncoderText.
Context `{FloatConv}.

(** The text of a value is made of printable ASCII and of the text of its
    floats: a property of the printable characters that holds of the text
    of each float holds of the whole text. *)
Lemma dumps_chars (P : N -> Prop) v :
  (forall c, printable c -> P c) ->
  Forall (fun f => Forall P (encode_float f)) (floats v) ->
  Forall P (dumps v).
Proof.
  intros HP.
  assert (Hsep : Forall P (str ", ")).
  { apply (str_literal_printable P); [exact HP|]. printable_literal. }
  induction v as [ | [|] | n | f | s | items IH | items IH]
    using pyvalue_induction; intros Hf; cbn [dumps floats] in Hf |- *.
  - apply (str_literal_printable P); [exact HP|]. printable_literal.
  - apply (str_literal_printable P); [exact HP|]. printable_literal.
  - apply (str_literal_printable P); [exact HP|]. printable_literal.
  - apply (str_literal_printable P); [exact HP | apply int_repr_printable].
  - apply Forall_inv in Hf. exact Hf.
  - apply (str_literal_printable P); [exact HP | apply encode_basestring_ascii_printable].
  - apply (proj1 (List.Forall_flat_map _ _ _)) in Hf.
    constructor; [apply HP; unfold printable, chr; simpl; lia|].
    apply Forall_app_2;
      [|constructor; [apply HP; unfold printable, chr; simpl; lia | constructor]].
    apply join_seq_Forall; [exact Hsep|].
    apply Forall_map. rewrite List.Forall_forall in IH, Hf |- *.
    intros x Hx. apply IH; [exact Hx | apply Hf; exact Hx].
  - apply (proj1 (List.Forall_flat_map _ _ _)) in Hf.
    constructor; [apply HP; unfold printable, chr; simpl; lia|].
    apply Forall_app_2;
      [|constructor; [apply HP; unfold printable, chr; simpl; lia | constructor]].
    apply join_seq_Forall; [exact Hsep|].
    apply Forall_map. rewrite List.Forall_forall in IH, Hf |- *.
    intros kv Hkv. apply Forall_app_2.
    + apply (str_literal_printable P);
        [exact HP | apply encode_basestring_ascii_printable].
    + apply Forall_app_2.
      * apply (str_literal_printable P); [exact HP|]. printable_literal.
      * apply IH; [exact Hkv | apply Hf; exact Hkv].
Qed.

Lemma encode_float_below f : below 256 (encode_float f).
Proof.
  destruct f as [s|[|]| |s m e]; cbn [encode_float];
    try apply str_below; apply (below_weaken 128); try lia; repeat constructor.
Qed.

Lemma dumps_below_256 v : below 256 (dumps v).
Proof.
  apply dumps_chars.
  - unfold printable. intros c Hc. lia.
  - apply Forall_forall. intros f _. apply encode_float_below.
Qed.

Lemma json_data_below b events :
  128 <= b -> Forall (fun v => below b (dumps v)) events -> below b (json_data events).
Proof.
  intros Hb Hev. unfold json_data. apply join_seq_Forall.
  - constructor; [lia | constructor].
  - apply Forall_map. exact Hev.
Qed.

End EncoderText.

(** Text below U+0800 has a UTF-8 encoding. *)
Lemma encode_is_Some s : below 0x800 s -> is_Some (encode s).
Proof.
  induction 1 as [|c r Hc Hr IH]; simpl; [eauto|].
  destruct IH as [bs ->]. unfold encode_char.
  destruct (c <? 0x80) eqn:H80; [eauto|].
  apply N.ltb_lt in Hc. rewrite Hc. eauto.
Qed.

(** ** Startup *)

Section Startup.
Context `{FloatConv}.

Lemma main_startup_raised w env messages e st :
  startup w env initial = Raised e st -> main w env messages = Raised e st.
Proof. intros Hs. unfold main, bind. rewrite Hs. reflexivity. Qed.

Lemma configure_pure env st : final (configure env st) = st.
Proof.
  unfold configure, bind, read_batch_size.
  destruct (getenv env "BATCH_SIZE") as [s|]; simpl.
  - destruct (py_int s); simpl; [|reflexivity].
    destruct (missing_vars _); reflexivity.
  - destruct (missing_vars _); reflexivity.
Qed.

Lemma filter_keys {A} (g : string -> option A) (names : list string) :
  map fst (List.filter (fun kv => is_None (snd kv)) (map (fun k => (k, g k)) names))
  = List.filter (fun k => is_None (g k)) names.
Proof.
  induction names as [|k names IH]; [reflexivity|].
  cbn [map List.filter snd]. destruct (g k); cbn [is_None map fst]; rewrite IH; reflexivity.
Qed.

Lemma missing_vars_filter env n :
  missing_vars
    {| MINIO_BUCKET := getenv env "MINIO_BUCKET";
       MINIO_ENDPOINT := getenv env "MINIO_ENDPOINT";
       MINIO_ACCESS_KEY := getenv env "MINIO_ACCESS_KEY";
       MINIO_SECRET_KEY := getenv env "MINIO_SECRET_KEY";
       KAFKA_TOPIC := getenv env "KAFKA_TOPIC";
       KAFKA_BOOTSTRAP_SERVER := getenv env "KAFKA_BOOTSTRAP_SERVER";
       KAFKA_GROUP_ID := getenv env "KAFKA_GROUP_ID";
       BATCH_SIZE := n |}
  = List.filter (fun k => is_None (getenv env k)) required_names.
Proof.
  unfold missing_vars.
  change (required_vars _) with (map (fun k => (k, getenv env k)) required_names).
  apply filter_keys.
Qed.

(** *** C9 *)

(** C9. When [BATCH_SIZE] is set to text that [int] rejects, the script
    stops with the error of [int] on that text, whatever else the
    environment holds: no call has been made, and the error is not the
    report of missing settings. The empty text and a non-numeric text are
    rejected. *)
Theorem C9_invalid_batch_size_fails_first w env messages s :
  getenv env "BATCH_SIZE" = Some s ->
  py_int s = None ->
  main w env messages = Raised (InvalidLiteral s) initial
  /\ (forall msg st, main w env messages <> Raised (ValueError msg) st)
  /\ py_int "" = None /\ py_int "ten" = None.
Proof.
  intros Hs Hint.
  assert (Hm : main w env messages = Raised (InvalidLiteral s) initial).
  { apply main_startup_raised.
    unfold startup, configure, bind, read_batch_size. rewrite Hs, Hint. reflexivity. }
  split; [exact Hm|]. split; [|split; reflexivity].
  intros msg st. rewrite Hm. discriminate.
Qed.

(** *** C5 *)

Lemma filter_nonempty {A} (p : A -> bool) (l : list A) (x : A) :
  In x l -> p x = true -> List.filter p l <> [].
Proof.
  intros Hin Hp Hnil.
  assert (Hx : In x (List.filter p l)) by (apply List.filter_In; auto).
  rewrite Hnil in Hx. destruct Hx.
Qed.

(** C5, as the code has it. Provided [BATCH_SIZE] is unset or is text that
    [int] accepts: if one of the seven required settings is absent, the
    script stops before any client is created (no call has been made),
    with one [ValueError] whose message lists the absent settings, all of
    them and only them, in the order of [required_vars]; with all seven
    absent the message names all seven. *)
Theorem C5_missing_settings_reported_together w env messages :
  (forall s, getenv env "BATCH_SIZE" = Some s -> is_Some (py_int s)) ->
  (exists k, In k required_names /\ getenv env k = None) ->
  let missing := List.filter (fun k => is_None (getenv env k)) required_names in
  main w env messages
  = Raised (ValueError ("Missing required environment variables: " +:+ join ", " missing))
           initial
  /\ (forall k, In k required_names -> (getenv env k = None <-> In k missing))
  /\ ((forall k, In k required_names -> getenv env k = None) ->
      main w env messages
      = Raised (ValueError "Missing required environment variables: MINIO_BUCKET, MINIO_ENDPOINT, MINIO_ACCESS_KEY, MINIO_SECRET_KEY, KAFKA_TOPIC, KAFKA_BOOTSTRAP_SERVER, KAFKA_GROUP_ID")
               initial).
Proof.
  intros Hsize [k [Hk Hnone]] missing.
  assert (Hne : missing <> []).
  { apply (filter_nonempty _ _ k Hk). rewrite Hnone. reflexivity. }
  assert (Hm : main w env messages
               = Raised (ValueError ("Missing required environment variables: "
                                     +:+ join ", " missing)) initial).
  { apply main_startup_raised.
    unfold startup, configure, bind, read_batch_size.
    destruct (getenv env "BATCH_SIZE") as [s|] eqn:Hs.
    - destruct (Hsize s eq_refl) as [n Hn]. rewrite Hn. unfold ret.
      rewrite missing_vars_filter. fold missing.
      destruct missing; [congruence | reflexivity].
    - unfold ret. rewrite missing_vars_filter. fold missing.
      destruct missing; [congruence | reflexivity]. }
  split; [exact Hm|]. split.
  - intros k' Hk'. unfold missing. rewrite List.filter_In. split.
    + intros Hn. split; [exact Hk'|]. rewrite Hn. reflexivity.
    + intros [_ Hn]. destruct (getenv env k'); [discriminate | reflexivity].
  - intros Hall. rewrite Hm. unfold missing, required_names.
    simpl List.filter.
    rewrite !Hall by (unfold required_names; simpl; tauto).
    reflexivity.
Qed.

(** *** C6 *)




End Startup.

(** C5 as stated fails: with [BATCH_SIZE=ten] and the seven required
    settings absent, the error is the one of [int], which names no missing
    setting. *)
Lemma C5_counterexample :
  List.filter (fun k => is_None (getenv (<["BATCH_SIZE" := "ten"]> ∅) k)) required_names
  = required_names
  /\ main (H := sample_floats) quiet_world (<["BATCH_SIZE" := "ten"]> ∅) [payload "1"]
     = Raised (InvalidLiteral "ten") initial.
Proof. split; reflexivity. Qed.

Lemma C5_witness :
  let env := delete "KAFKA_TOPIC"%string (delete "MINIO_BUCKET"%string (full_env "2")) in
  (forall s, getenv env "BATCH_SIZE" = Some s -> is_Some (py_int s))
  /\ (exists k, In k required_names /\ getenv env k = None)
  /\ main (H := sample_floats) quiet_world env [payload "1"]
     = Raised (ValueError "Missing required environment variables: MINIO_BUCKET, KAFKA_TOPIC")
              initial.
Proof.
  intros env.
  assert (Hsize : forall s, getenv env "BATCH_SIZE" = Some s -> is_Some (py_int s)).
  { intros s Hs. vm_compute in Hs. injection Hs as <-. vm_compute. eauto. }
  assert (Hex : exists k, In k required_names /\ getenv env k = None).
  { exists "KAFKA_TOPIC"%string. split; [simpl; tauto | reflexivity]. }
  split; [exact Hsize|]. split; [exact Hex|].
  exact (proj1 (C5_missing_settings_reported_together (H := sample_floats)
                  quiet_world env [payload "1"] Hsize Hex)).
Defined.

(** ** The loop *)

Section LoopFacts.
Context `{FloatConv}.

Lemma encode_json_data b : encode (json_data b) = Some (body_of b).
Proof.
  unfold body_of.
  destruct (encode_is_Some (json_data b)) as [body ->]; [|reflexivity].
  apply (below_weaken 256); [lia|]. apply json_data_below; [lia|].
  apply Forall_forall. intros v _. apply dumps_below_256.
Qed.

Lemma count_app p tr1 tr2 : count p (tr1 ++ tr2) = (count p tr1 + count p tr2)%nat.
Proof. unfold count. rewrite List.filter_app, length_app. reflexivity. Qed.

(** One iteration, case by case. *)
Lemma on_message_cases w c message st :
  on_message w c message st =
  match value_deserializer message with
  | inl e => Raised e st
  | inr event =>
      let b := batch st ++ [event] in
      if (BATCH_SIZE c <=? Z.of_nat (length b))%Z then
        let now := clock w (count is_utcnow (trace st)) in
        let calls := [utcnow now; put_object (MINIO_BUCKET c) (file_path now) (body_of b)] in
        match put_object_raises w (count is_put (trace st)) with
        | None => Returned tt {| batch := []; trace := trace st ++ calls |}
        | Some e => Raised e {| batch := b; trace := trace st ++ calls |}
        end
      else Returned tt {| batch := b; trace := trace st |}
  end.
Proof.
  unfold on_message, bind, lift.
  destruct (value_deserializer message) as [e|event]; [reflexivity|].
  cbn [ret raise get_batch set_batch batch trace].
  destruct (BATCH_SIZE c <=? _)%Z; [|reflexivity].
  unfold flush, bind, datetime_utcnow, get_batch. cbn [batch trace].
  rewrite encode_json_data. unfold invoke, set_batch. cbn [batch trace].
  rewrite count_app. cbn [count List.filter is_put length]. rewrite Nat.add_0_r.
  rewrite <- app_assoc. cbn [app].
  destruct (put_object_raises w _); reflexivity.
Qed.

(** One flush: the clock is read, then the body of the batch is written
    under the key of that reading; the batch is emptied when the write
    returns. *)
Lemma flush_cases w c st :
  flush w c st =
  let now := clock w (count is_utcnow (trace st)) in
  let calls := [utcnow now;
                put_object (MINIO_BUCKET c) (file_path now) (body_of (batch st))] in
  match put_object_raises w (count is_put (trace st)) with
  | None => Returned tt {| batch := []; trace := trace st ++ calls |}
  | Some e => Raised e {| batch := batch st; trace := trace st ++ calls |}
  end.
Proof.
  unfold flush, bind, datetime_utcnow, get_batch. cbn [batch trace].
  rewrite encode_json_data. unfold invoke, set_batch. cbn [batch trace].
  rewrite count_app. cbn [count List.filter is_put length]. rewrite Nat.add_0_r.
  rewrite <- app_assoc. cbn [app].
  destruct (put_object_raises w _); reflexivity.
Qed.

Lemma flush_trace w c st :
  let now := clock w (count is_utcnow (trace st)) in
  trace (final (flush w c st))
  = trace st ++ [utcnow now;
                 put_object (MINIO_BUCKET c) (file_path now) (body_of (batch st))].
Proof.
  rewrite flush_cases. cbv zeta. destruct (put_object_raises w _); reflexivity.
Qed.

(** The iteration that brings the batch to the threshold flushes it, the
    new event included. *)
Lemma on_message_flush_trace w c m st event :
  value_deserializer m = inr event ->
  (BATCH_SIZE c <= Z.of_nat (length (batch st ++ [event])))%Z ->
  let now := clock w (count is_utcnow (trace st)) in
  trace (final (on_message w c m st))
  = trace st ++ [utcnow now;
                 put_object (MINIO_BUCKET c) (file_path now)
                   (body_of (batch st ++ [event]))].
Proof.
  intros Hm Hsize. rewrite on_message_cases, Hm. cbv zeta.
  rewrite (proj2 (Z.leb_le _ _) Hsize).
  destruct (put_object_raises w _); reflexivity.
Qed.

Lemma consume_app w c pre post st :
  consume w c (pre ++ post) st =
  match consume w c pre st with
  | Returned _ st' => consume w c post st'
  | Raised e st' => Raised e st'
  end.
Proof.
  revert st. induction pre as [|m pre IH]; intros st; [reflexivity|].
  cbn [app consume]. unfold bind.
  destruct (on_message w c m st) as [[] st1|e st1]; [apply IH | reflexivity].
Qed.

(** What a run that returns has done: the events read so far are the
    groups written, in order, followed by the batch. *)
Lemma consume_returned w c messages st0 st :
  consume w c messages st0 = Returned tt st ->
  exists events groups,
    Forall2 (fun m e => value_deserializer m = inr e) messages events
    /\ batch st0 ++ events = concat groups ++ batch st
    /\ trace st = trace st0 ++ flush_calls w c (count is_utcnow (trace st0)) groups
    /\ (forall i, (i < length groups)%nat ->
          put_object_raises w (count is_put (trace st0) + i) = None)
    /\ ((Z.of_nat (length (batch st0)) < BATCH_SIZE c)%Z ->
        Forall (fun g => Z.of_nat (length g) = BATCH_SIZE c) groups
        /\ (Z.of_nat (length (batch st)) < BATCH_SIZE c)%Z)
    /\ ((BATCH_SIZE c <= 1)%Z -> batch st0 = [] ->
        Forall (fun g => length g = 1%nat) groups /\ batch st = []).
Proof.
  revert st0. induction messages as [|m rest IH]; intros st0 Hrun.
  - cbn in Hrun. injection Hrun as <-. exists [], [].
    cbn [concat flush_calls length app]. rewrite !app_nil_r.
    repeat split; auto; try constructor. intros i Hi. inversion Hi.
  - cbn [consume] in Hrun. unfold bind in Hrun. rewrite on_message_cases in Hrun.
    destruct (value_deserializer m) as [e|event] eqn:Hd; [discriminate|].
    cbv zeta in Hrun.
    destruct (BATCH_SIZE c <=? _)%Z eqn:Hsize.
    + destruct (put_object_raises w _) eqn:Hput; [discriminate|].
      apply IH in Hrun as (events & groups & Hev & Hcons & Htr & Hputs & Hexact & Hone).
      cbn [batch trace app] in Hcons, Htr, Hputs, Hexact, Hone.
      rewrite !count_app in Htr, Hputs.
      cbn [count List.filter is_utcnow is_put length] in Htr, Hputs.
      apply Z.leb_le in Hsize. rewrite length_app in Hsize. cbn [length] in Hsize.
      exists (event :: events), ((batch st0 ++ [event]) :: groups).
      split; [constructor; assumption|]. split.
      { cbn [concat]. rewrite <- !app_assoc. cbn [app]. rewrite <- Hcons. reflexivity. }
      split.
      { rewrite Htr, <- app_assoc. cbn [flush_calls app].
        replace (count is_utcnow (trace st0) + 1)%nat with (S (count is_utcnow (trace st0)))
          by lia.
        reflexivity. }
      split.
      { intros [|i] Hi.
        - rewrite Nat.add_0_r. exact Hput.
        - cbn [length] in Hi.
          replace (count is_put (trace st0) + S i)%nat
            with (count is_put (trace st0) + 1 + i)%nat by lia.
          apply Hputs. lia. }
      split.
      { intros Hlt. destruct Hexact as [Hg Hb]; [cbn [length]; lia|].
        split; [|exact Hb]. constructor; [|exact Hg].
        rewrite length_app. cbn [length]. lia. }
      { intros Hle Hnil. destruct (Hone Hle eq_refl) as [Hg Hb].
        split; [|exact Hb]. constructor; [|exact Hg].
        rewrite Hnil. reflexivity. }
    + apply IH in Hrun as (events & groups & Hev & Hcons & Htr & Hputs & Hexact & Hone).
      cbn [batch trace] in Hcons, Htr, Hputs, Hexact, Hone.
      apply Z.leb_gt in Hsize. rewrite length_app in Hsize. cbn [length] in Hsize.
      exists (event :: events), groups.
      split; [constructor; assumption|]. split.
      { rewrite <- Hcons, <- app_assoc. reflexivity. }
      split; [exact Htr|]. split; [exact Hputs|]. split.
      { intros Hlt. apply Hexact. rewrite length_app. cbn [length]. lia. }
      { intros Hle Hnil. rewrite Hnil in Hsize. cbn [length] in Hsize. lia. }
Qed.

(** A run that raises has returned from the iterations before the one
    that raised. *)
Lemma consume_raised w c messages st0 e st :
  consume w c messages st0 = Raised e st ->
  exists pre m post st1,
    messages = pre ++ m :: post
    /\ consume w c pre st0 = Returned tt st1
    /\ on_message w c m st1 = Raised e st.
Proof.
  revert st0. induction messages as [|m rest IH]; intros st0 Hrun; [discriminate|].
  cbn [consume] in Hrun. unfold bind in Hrun.
  destruct (on_message w c m st0) as [[] st1|e1 st1] eqn:Hm.
  - apply IH in Hrun as (pre & m' & post & st2 & -> & Hpre & Hfail).
    exists (m :: pre), m', post, st2. split; [reflexivity|]. split; [|exact Hfail].
    cbn [consume]. unfold bind. rewrite Hm. exact Hpre.
  - injection Hrun as -> ->. exists [], m, rest, st0. auto.
Qed.

(** A run returns when every record can be read and every write returns. *)
Lemma consume_returns w c messages st0 :
  Forall (fun m => exists e, value_deserializer m = inr e) messages ->
  (forall n, put_object_raises w n = None) ->
  exists st, consume w c messages st0 = Returned tt st.
Proof.
  intros Hmsgs Hputs. revert st0.
  induction Hmsgs as [|m rest [e He] _ IH]; intros st0; [eexists; reflexivity|].
  cbn [consume]. unfold bind. rewrite on_message_cases, He. cbv zeta.
  rewrite Hputs. destruct (BATCH_SIZE c <=? _)%Z; apply IH.
Qed.

Lemma deserialized_unique (messages : list (option (list byte))) events events' :
  Forall2 (fun m e => value_deserializer m = inr e) messages events ->
  Forall2 (fun m e => value_deserializer m = inr e) messages events' ->
  events = events'.
Proof.
  intros H1. revert events'.
  induction H1 as [|m e ms es Hm _ IH]; intros events' H2; inversion H2; subst.
  - reflexivity.
  - f_equal; [congruence | apply IH; assumption].
Qed.

Lemma concat_length_uniform {A} (size : nat) (groups : list (list A)) :
  Forall (fun g => length g = size) groups ->
  length (concat groups) = (size * length groups)%nat.
Proof.
  induction 1 as [|g rest Hg _ IH]; cbn [concat length]; [lia|].
  rewrite length_app, IH, Hg. lia.
Qed.

Lemma flush_calls_puts w c n groups :
  count is_put (flush_calls w c n groups) = length groups.
Proof.
  revert n. induction groups as [|g rest IH]; intros n; [reflexivity|].
  cbn [flush_calls]. change (count is_put (utcnow ?a :: put_object ?b ?k ?d :: ?tr))
    with (S (count is_put tr)). rewrite IH. reflexivity.
Qed.

(** *** C1 *)


(** *** The calls of any run *)

Lemma flush_calls_app w c n groups groups' :
  flush_calls w c n (groups ++ groups')
  = flush_calls w c n groups ++ flush_calls w c (n + length groups) groups'.
Proof.
  revert n. induction groups as [|g rest IH]; intros n; cbn [flush_calls app length].
  - rewrite Nat.add_0_r. reflexivity.
  - rewrite IH. replace (S n + length rest)%nat with (n + S (length rest))%nat by lia.
    reflexivity.
Qed.

(** Whether it returns or raises, a run adds to the trace the calls of
    flushes of non-empty groups, and nothing else. *)
Lemma consume_trace w c messages st0 :
  exists groups,
    trace (final (consume w c messages st0))
    = trace st0 ++ flush_calls w c (count is_utcnow (trace st0)) groups
    /\ Forall (fun g => g <> []) groups.
Proof.
  revert st0. induction messages as [|m rest IH]; intros st0.
  - exists []. cbn. rewrite app_nil_r. split; [reflexivity | constructor].
  - cbn [consume]. unfold bind. rewrite on_message_cases.
    destruct (value_deserializer m) as [e|event].
    { exists []. cbn. rewrite app_nil_r. split; [reflexivity | constructor]. }
    cbv zeta. destruct (BATCH_SIZE c <=? _)%Z.
    + destruct (put_object_raises w _).
      * exists [batch st0 ++ [event]]. cbn [final trace flush_calls].
        split; [reflexivity|]. constructor; [|constructor].
        destruct (batch st0); discriminate.
      * destruct (IH {| batch := [];
                        trace := trace st0 ++
                          [utcnow (clock w (count is_utcnow (trace st0)));
                           put_object (MINIO_BUCKET c)
                             (file_path (clock w (count is_utcnow (trace st0))))
                             (body_of (batch st0 ++ [event]))] |})
          as (groups & Htr & Hne).
        exists ((batch st0 ++ [event]) :: groups). split.
        -- rewrite Htr. cbn [trace]. rewrite count_app, <- app_assoc.
           cbn [count List.filter is_utcnow length flush_calls app].
           replace (count is_utcnow (trace st0) + 1)%nat
             with (S (count is_utcnow (trace st0))) by lia.
           reflexivity.
        -- constructor; [|exact Hne]. destruct (batch st0); discriminate.
    + destruct (IH {| batch := batch st0 ++ [event]; trace := trace st0 |})
        as (groups & Htr & Hne).
      exists groups. split; [exact Htr | exact Hne].
Qed.

(** In the calls of flushes, a store write comes right after a clock
    reading and is built from that reading and from its group. *)
Lemma flush_calls_put w c n groups i bucket key body :
  flush_calls w c n groups !! i = Some (put_object bucket key body) ->
  exists j g,
    i = (2 * j + 1)%nat
    /\ groups !! j = Some g
    /\ flush_calls w c n groups !! (2 * j)%nat = Some (utcnow (clock w (n + j)))
    /\ bucket = MINIO_BUCKET c
    /\ key = file_path (clock w (n + j))
    /\ body = body_of g.
Proof.
  revert n i. induction groups as [|g rest IH]; intros n i Hi; [discriminate|].
  cbn [flush_calls] in Hi |- *.
  destruct i as [|[|i]].
  - discriminate.
  - cbn in Hi. injection Hi as <- <- <-. exists 0%nat, g.
    rewrite Nat.add_0_r. repeat split; reflexivity.
  - cbn [lookup list_lookup] in Hi.
    change ((utcnow (clock w n) :: put_object (MINIO_BUCKET c) (file_path (clock w n))
               (body_of g) :: flush_calls w c (S n) rest) !! S (S i))
      with (flush_calls w c (S n) rest !! i) in Hi.
    destruct (IH _ _ Hi) as (j & g' & -> & Hg & Hnow & Hb & Hk & Hbody).
    exists (S j), g'. replace (n + S j)%nat with (S n + j)%nat by lia.
    split; [lia|]. split; [exact Hg|]. split; [|auto].
    replace (2 * S j)%nat with (S (S (2 * j))) by lia. exact Hnow.
Qed.

(** *** C3 *)

Lemma append_cons x (a b : string) : (String x a +:+ b = String x (a +:+ b))%string.
Proof. reflexivity. Qed.

Lemma append_empty (a : string) : (EmptyString +:+ a = a)%string.
Proof. reflexivity. Qed.

Lemma append_assoc (a b c : string) : ((a +:+ b) +:+ c = a +:+ (b +:+ c))%string.
Proof.
  induction a as [|x a IH]; [reflexivity|].
  rewrite !append_cons, IH. reflexivity.
Qed.

Lemma days_in_month_le y m : days_in_month y m <= 31.
Proof.
  unfold days_in_month.
  destruct (m =? 2); [destruct (is_leap y); lia|].
  destruct (_ || _); lia.
Qed.

Lemma valid_datetime_bounds now :
  valid_datetime now = true ->
  year now < 10000 /\ month now < 100 /\ day now < 100
  /\ hour now < 100 /\ minute now < 100 /\ second now < 100.
Proof.
  unfold valid_datetime. intros Hv.
  repeat (apply andb_prop in Hv as [Hv ?]).
  repeat match goal with
         | Hb : (_ <=? _) = true |- _ => apply N.leb_le in Hb
         | Hb : (_ <? _) = true |- _ => apply N.ltb_lt in Hb
         end.
  pose proof (days_in_month_le (year now) (month now)). lia.
Qed.

(** C3. The key built from a reading of the UTC clock is
    [bronze/date=YYYY-MM-DD/hour=HH/spotify_events_YYYY-MM-DDTHH-MM-SS.json]
    (70 characters), every field being the zero-padded decimal value of
    the same field of that reading. Every flush reads the clock once and
    then writes one object, under the key of that reading; so does the
    iteration on which a record brings the batch to the threshold. In any
    run, each store write comes right after a clock reading, the one taken
    for that flush, and its key is the path of that reading. *)
Theorem C3_object_key_from_flush_time w c :
  (forall now, wall_clock_time now = true ->
     file_path now
     = ("bronze/date=" +:+ four_digits (year now) +:+ "-" +:+ two_digits (month now)
        +:+ "-" +:+ two_digits (day now) +:+ "/hour=" +:+ two_digits (hour now)
        +:+ "/spotify_events_" +:+ four_digits (year now) +:+ "-"
        +:+ two_digits (month now) +:+ "-" +:+ two_digits (day now) +:+ "T"
        +:+ two_digits (hour now) +:+ "-" +:+ two_digits (minute now) +:+ "-"
        +:+ two_digits (second now) +:+ ".json")%string
     /\ String.length (file_path now) = 70%nat)
  /\ (forall st,
        let now := clock w (count is_utcnow (trace st)) in
        trace (final (flush w c st))
        = trace st ++ [utcnow now;
                       put_object (MINIO_BUCKET c) (file_path now)
                         (body_of (batch st))])
  /\ (forall m st event,
        value_deserializer m = inr event ->
        (BATCH_SIZE c <= Z.of_nat (length (batch st ++ [event])))%Z ->
        let now := clock w (count is_utcnow (trace st)) in
        trace (final (on_message w c m st))
        = trace st ++ [utcnow now;
                       put_object (MINIO_BUCKET c) (file_path now)
                         (body_of (batch st ++ [event]))])
  /\ (forall messages st0,
        exists calls,
          trace (final (consume w c messages st0)) = trace st0 ++ calls
          /\ forall i bucket key body,
               calls !! i = Some (put_object bucket key body) ->
               exists j,
                 i = (2 * j + 1)%nat
                 /\ calls !! (2 * j)%nat
                    = Some (utcnow (clock w (count is_utcnow (trace st0) + j)))
                 /\ key = file_path (clock w (count is_utcnow (trace st0) + j))).
Proof.
  split; [|split; [exact (flush_trace w c)|split; [exact (on_message_flush_trace w c)|]]].
  - intros now Hw. unfold wall_clock_time in Hw.
    apply andb_prop in Hw as [Hv H1970]. apply N.leb_le in H1970.
    destruct (valid_datetime_bounds now Hv) as (Hy & Hmo & Hd & Hh & Hmi & Hs).
    assert (Hpath : file_path now
              = ("bronze/date=" +:+ four_digits (year now) +:+ "-"
                 +:+ two_digits (month now)
                 +:+ "-" +:+ two_digits (day now) +:+ "/hour=" +:+ two_digits (hour now)
                 +:+ "/spotify_events_" +:+ four_digits (year now) +:+ "-"
                 +:+ two_digits (month now) +:+ "-" +:+ two_digits (day now) +:+ "T"
                 +:+ two_digits (hour now) +:+ "-" +:+ two_digits (minute now) +:+ "-"
                 +:+ two_digits (second now) +:+ ".json")%string).
    { unfold file_path, four_digits, two_digits.
      rewrite <- (digits_4 (year now)) by lia.
      rewrite <- (zero_pad_2 (month now)), <- (zero_pad_2 (day now)),
        <- (zero_pad_2 (hour now)), <- (zero_pad_2 (minute now)),
        <- (zero_pad_2 (second now)) by assumption.
      cbn -[digits zero_pad digits_string String.append].
      repeat first [ rewrite append_assoc | rewrite append_cons | rewrite append_empty ].
      reflexivity. }
    split; [exact Hpath|]. rewrite Hpath. reflexivity.
  - intros messages st0.
    destruct (consume_trace w c messages st0) as (groups & Htr & _).
    eexists. split; [exact Htr|].
    intros i bucket key body Hi.
    destruct (flush_calls_put _ _ _ _ _ _ _ _ Hi) as (j & g & -> & _ & Hnow & _ & Hk & _).
    exists j. auto.
Qed.

(** *** The text of a body *)

Lemma encode_app s t :
  encode (s ++ t)
  = match encode s, encode t with
    | Some a, Some b => Some (a ++ b)
    | _, _ => None
    end.
Proof.
  induction s as [|x s IH]; cbn [app encode].
  - destruct (encode t); reflexivity.
  - rewrite IH. destruct (encode_char x), (encode s), (encode t); try reflexivity.
    rewrite app_assoc. reflexivity.
Qed.

Lemma json_data_single e : json_data [e] = dumps e.
Proof. reflexivity. Qed.

Lemma encode_dumps e : encode (dumps e) = Some (body_of [e]).
Proof. rewrite <- json_data_single. apply encode_json_data. Qed.

Lemma encode_lines (b : list pyvalue) :
  encode (json_data b) = Some (join_seq [x0a] (map (fun e => body_of [e]) b)).
Proof.
  unfold json_data. induction b as [|e rest IH]; [reflexivity|].
  destruct rest as [|e' rest]; [apply encode_dumps|].
  change (encode (dumps e ++ [10] ++ join_seq [10] (map dumps (e' :: rest)))
          = Some (body_of [e] ++ [x0a]
                  ++ join_seq [x0a] (map (fun e => body_of [e]) (e' :: rest)))).
  rewrite !encode_app, IH, encode_dumps. reflexivity.
Qed.


(** *** C7 *)

(** C7. An iteration that returns has either appended the event to the
    batch, or emptied the batch right after a store write that returned
    and that carried the batch with the event appended. An iteration that
    raises leaves the batch as it was, or with the event appended: it
    never empties it. When the store write of an iteration raises, the
    run ends with that exception whatever records follow, its last call
    is that write, and the batch still holds the events consumed since
    the last write that returned (the events consumed are the groups
    written before, in order, followed by the batch). *)
Theorem C7_batch_kept_when_write_fails w c :
  (forall m st,
     match on_message w c m st with
     | Returned _ st' =>
         exists event,
           value_deserializer m = inr event
           /\ (st' = {| batch := batch st ++ [event]; trace := trace st |}
               \/ (batch st' = []
                   /\ put_object_raises w (count is_put (trace st)) = None
                   /\ exists now,
                        trace st'
                        = trace st ++ [utcnow now;
                                       put_object (MINIO_BUCKET c) (file_path now)
                                         (body_of (batch st ++ [event]))]))
     | Raised _ st' =>
         st' = st
         \/ exists event, value_deserializer m = inr event
                          /\ batch st' = batch st ++ [event]
     end)
  /\ (forall pre m post st0 st1 event e,
        consume w c pre st0 = Returned tt st1 ->
        value_deserializer m = inr event ->
        (BATCH_SIZE c <= Z.of_nat (length (batch st1 ++ [event])))%Z ->
        put_object_raises w (count is_put (trace st1)) = Some e ->
        let now := clock w (count is_utcnow (trace st1)) in
        consume w c (pre ++ m :: post) st0
        = Raised e {| batch := batch st1 ++ [event];
                      trace := trace st1
                               ++ [utcnow now;
                                   put_object (MINIO_BUCKET c) (file_path now)
                                     (body_of (batch st1 ++ [event]))] |}
        /\ exists events groups,
             Forall2 (fun m e => value_deserializer m = inr e) pre events
             /\ batch st0 ++ events ++ [event] = concat groups ++ (batch st1 ++ [event])
             /\ trace st1
                = trace st0 ++ flush_calls w c (count is_utcnow (trace st0)) groups
             /\ forall i, (i < length groups)%nat ->
                  put_object_raises w (count is_put (trace st0) + i) = None).
Proof.
  split.
  - intros m st. rewrite on_message_cases.
    destruct (value_deserializer m) as [e|event]; [left; reflexivity|].
    cbv zeta. destruct (BATCH_SIZE c <=? _)%Z.
    + destruct (put_object_raises w _) as [e|].
      * right. exists event. split; reflexivity.
      * exists event. split; [reflexivity|]. right.
        split; [reflexivity|]. split; [reflexivity|]. eexists. reflexivity.
    + exists event. split; [reflexivity|]. left. reflexivity.
  - intros pre m post st0 st1 event e Hpre Hm Hsize Hput now. split.
    + rewrite consume_app, Hpre. cbn [consume]. unfold bind.
      rewrite on_message_cases, Hm. cbv zeta.
      apply Z.leb_le in Hsize. rewrite Hsize, Hput. reflexivity.
    + destruct (consume_returned _ _ _ _ _ Hpre)
        as (events & groups & Hev & Hcons & Htr & Hputs & _).
      exists events, groups. split; [exact Hev|]. split.
      { rewrite !app_assoc, Hcons. reflexivity. }
      split; [exact Htr | exact Hputs].
Qed.

(** *** C8 *)

(** C8. With a threshold of at least one and an empty batch at the start:
    at the start of every iteration the batch holds fewer events than the
    threshold; after the append it holds at most as many, and when it
    holds exactly as many the flush is made in that same iteration; and a
    run that raises stops with at most as many. *)
Theorem C8_batch_below_threshold w c st0 :
  (1 <= BATCH_SIZE c)%Z ->
  batch st0 = [] ->
  (forall messages st,
     consume w c messages st0 = Returned tt st ->
     (Z.of_nat (length (batch st)) < BATCH_SIZE c)%Z)
  /\ (forall messages st m event,
        consume w c messages st0 = Returned tt st ->
        value_deserializer m = inr event ->
        (Z.of_nat (length (batch st ++ [event])) <= BATCH_SIZE c)%Z
        /\ (Z.of_nat (length (batch st ++ [event])) = BATCH_SIZE c ->
            let now := clock w (count is_utcnow (trace st)) in
            trace (final (on_message w c m st))
            = trace st ++ [utcnow now;
                           put_object (MINIO_BUCKET c) (file_path now)
                             (body_of (batch st ++ [event]))]))
  /\ (forall messages e st,
        consume w c messages st0 = Raised e st ->
        (Z.of_nat (length (batch st)) <= BATCH_SIZE c)%Z).
Proof.
  intros Hsize Hnil.
  assert (Hstart : forall messages st,
            consume w c messages st0 = Returned tt st ->
            (Z.of_nat (length (batch st)) < BATCH_SIZE c)%Z).
  { intros messages st Hrun.
    destruct (consume_returned _ _ _ _ _ Hrun)
      as (events & groups & _ & _ & _ & _ & Hexact & _).
    apply Hexact. rewrite Hnil. cbn [length]. lia. }
  split; [exact Hstart|]. split.
  - intros messages st m event Hrun Hm. pose proof (Hstart _ _ Hrun) as Hlt.
    rewrite length_app. cbn [length]. split; [lia|].
    intros Heq. rewrite on_message_cases, Hm. cbv zeta.
    rewrite length_app. cbn [length].
    replace (BATCH_SIZE c <=? Z.of_nat (length (batch st) + 1))%Z with true
      by (symmetry; apply Z.leb_le; lia).
    destruct (put_object_raises w _); reflexivity.
  - intros messages e st Hrun.
    destruct (consume_raised _ _ _ _ _ _ Hrun) as (pre & m & post & st1 & _ & Hpre & Hfail).
    pose proof (Hstart _ _ Hpre) as Hlt.
    rewrite on_message_cases in Hfail.
    destruct (value_deserializer m) as [e'|event].
    { injection Hfail as _ <-. lia. }
    cbv zeta in Hfail. destruct (BATCH_SIZE c <=? _)%Z; [|discriminate].
    destruct (put_object_raises w _); [|discriminate].
    injection Hfail as _ <-. cbn [batch]. rewrite length_app. cbn [length]. lia.
Qed.

(** *** C10 *)

Lemma singletons_concat {A} (groups : list (list A)) :
  Forall (fun g => length g = 1%nat) groups ->
  groups = map (fun e => [e]) (concat groups).
Proof.
  induction 1 as [|g rest Hg _ IH]; [reflexivity|].
  destruct g as [|x [|y g]]; try discriminate.
  cbn [concat app map]. rewrite <- IH. reflexivity.
Qed.

(** C10. With a threshold of at most one (zero and negative values
    included, which [int] accepts from the environment) and an empty batch
    at the start, a run that has consumed its events has flushed each of
    them alone, in order, and its batch is empty; and in every iteration
    the event is written alone, right after its append. *)
Theorem C10_threshold_at_most_one w c messages events st0 st :
  (BATCH_SIZE c <= 1)%Z ->
  batch st0 = [] ->
  Forall2 (fun m e => value_deserializer m = inr e) messages events ->
  consume w c messages st0 = Returned tt st ->
  batch st = []
  /\ trace st
     = trace st0
       ++ flush_calls w c (count is_utcnow (trace st0)) (map (fun e => [e]) events)
  /\ count is_put (trace st) = (count is_put (trace st0) + length events)%nat
  /\ (forall m event,
        value_deserializer m = inr event ->
        let now := clock w (count is_utcnow (trace st)) in
        trace (final (on_message w c m st))
        = trace st ++ [utcnow now;
                       put_object (MINIO_BUCKET c) (file_path now) (body_of [event])])
  /\ py_int "0" = Some 0%Z /\ py_int "-3" = Some (-3)%Z.
Proof.
  intros Hsize Hnil Hev Hrun.
  destruct (consume_returned _ _ _ _ _ Hrun)
    as (events' & groups & Hev' & Hcons & Htr & _ & _ & Hone).
  rewrite (deserialized_unique _ _ _ Hev' Hev) in Hcons. clear Hev' events'.
  destruct (Hone Hsize Hnil) as [Hg Hb].
  rewrite Hnil, Hb, app_nil_r in Hcons. cbn [app] in Hcons.
  assert (Hgroups : groups = map (fun e => [e]) events).
  { rewrite Hcons. apply singletons_concat. exact Hg. }
  split; [exact Hb|]. split; [rewrite Htr, Hgroups; reflexivity|]. split.
  { rewrite Htr, count_app, flush_calls_puts, Hgroups, length_map. reflexivity. }
  split; [|split; reflexivity].
  intros m event Hm now. rewrite on_message_cases, Hm. cbv zeta. rewrite Hb.
  cbn [app length].
  replace (BATCH_SIZE c <=? Z.of_nat 1)%Z with true by (symmetry; apply Z.leb_le; lia).
  destruct (put_object_raises w _); reflexivity.
Qed.

End LoopFacts.

(** ** The round trip through [json.dumps] and [json.loads] *)

(** Linear arithmetic with division and remainder by constants. *)
Ltac euclid := zify; Z.to_euclidean_division_equations; lia.

(** *** Hexadecimal escapes *)

Lemma lor_shiftl_add a b n : b < 2 ^ n -> N.lor (N.shiftl a n) b = a * 2 ^ n + b.
Proof.
  intros Hb.
  rewrite <- (N.lor_ldiff_and (a * 2 ^ n + b) (N.ones n)).
  rewrite N.ldiff_ones_r, N.land_ones, !N.shiftr_div_pow2.
  assert (H2 : 2 ^ n <> 0) by (apply N.pow_nonzero; lia).
  rewrite N.div_add_l by exact H2. rewrite (N.div_small b) by exact Hb.
  rewrite N.add_0_r. rewrite N.add_comm, N.Div0.mod_add, N.mod_small by exact Hb.
  rewrite N.shiftl_mul_pow2. reflexivity.
Qed.

Lemma nibble c k : N.land (N.shiftr c k) 0xF = (c / 2 ^ k) mod 16.
Proof. change 0xF with (N.ones 4). rewrite N.land_ones, N.shiftr_div_pow2. reflexivity. Qed.

Lemma hex_value_digit d : d < 16 -> hex_value (hex_digit d) = Some d.
Proof.
  intros Hd.
  assert (Hcases : d = 0 \/ d = 1 \/ d = 2 \/ d = 3 \/ d = 4 \/ d = 5 \/ d = 6 \/ d = 7
                   \/ d = 8 \/ d = 9 \/ d = 10 \/ d = 11 \/ d = 12 \/ d = 13 \/ d = 14
                   \/ d = 15) by lia.
  repeat (destruct Hcases as [-> | Hcases]; [reflexivity|]). subst d. reflexivity.
Qed.

Lemma unhex4_hex4 c :
  c < 0x10000 ->
  match hex4 c with
  | [h1; h2; h3; h4] => unhex4 h1 h2 h3 h4 = Some c
  | _ => False
  end.
Proof.
  intros Hc. unfold hex4, unhex4.
  rewrite (nibble c 12), (nibble c 8), (nibble c 4).
  replace (N.land c 0xF) with ((c / 2 ^ 0) mod 16)
    by (change 0xF with (N.ones 4); rewrite N.land_ones, N.pow_0_r, N.div_1_r; reflexivity).
  rewrite !hex_value_digit by (apply N.mod_lt; lia).
  cbn [fold_left]. f_equal.
  rewrite N.shiftl_0_l, N.lor_0_l.
  rewrite !lor_shiftl_add by (apply N.mod_lt; lia).
  change (2 ^ 12) with 4096. change (2 ^ 8) with 256. change (2 ^ 4) with 16.
  change (2 ^ 0) with 1. euclid.
Qed.

(** *** Surrogate pairs *)

Lemma surrogates_of_astral c :
  0x10000 <= c -> c < 0x110000 ->
  high_surrogate c < 0x10000 /\ low_surrogate c < 0x10000
  /\ is_high_surrogate (high_surrogate c) = true
  /\ is_low_surrogate (low_surrogate c) = true
  /\ join_surrogates (high_surrogate c) (low_surrogate c) = c.
Proof.
  intros Hlo Hhi. unfold high_surrogate, low_surrogate, join_surrogates,
    is_high_surrogate, is_low_surrogate.
  change 0x3FF with (N.ones 10). rewrite !N.land_ones, !N.shiftr_div_pow2.
  change (2 ^ 10) with 1024.
  assert (H1 : (0xDC00 + c mod 1024) mod 1024 = c mod 1024) by euclid.
  rewrite H1.
  rewrite lor_shiftl_add by (change (2 ^ 10) with 1024; apply N.mod_lt; lia).
  change (2 ^ 10) with 1024.
  repeat split.
  - euclid.
  - euclid.
  - apply andb_true_intro. split; [apply N.leb_le | apply N.leb_le]; euclid.
  - apply andb_true_intro. split; [apply N.leb_le | apply N.leb_le]; euclid.
  - euclid.
Qed.

(** *** Strings *)

Lemma scanstring_unicode_escape u t :
  u < 0x10000 ->
  (is_high_surrogate u = true -> no_low_escape t) ->
  scanstring (BACKSLASH :: chr "u" :: hex4 u ++ t) = then_cons u (scanstring t).
Proof.
  intros Hu Hnext. pose proof (unhex4_hex4 u Hu) as Hhex.
  unfold hex4 in Hhex |- *. cbn [app].
  change (scanstring (BACKSLASH :: chr "u" :: ?h1 :: ?h2 :: ?h3 :: ?h4 :: t))
    with (match unhex4 h1 h2 h3 h4 with
          | None => None
          | Some u =>
              if is_high_surrogate u then
                match t with
                | b :: u' :: g1 :: g2 :: g3 :: g4 :: r3 =>
                    if (b =? BACKSLASH) && (u' =? chr "u") then
                      match unhex4 g1 g2 g3 g4 with
                      | None => None
                      | Some u2 =>
                          if is_low_surrogate u2
                          then then_cons (join_surrogates u u2) (scanstring r3)
                          else then_cons u (scanstring t)
                      end
                    else then_cons u (scanstring t)
                | _ => then_cons u (scanstring t)
                end
              else then_cons u (scanstring t)
          end).
  rewrite Hhex. destruct (is_high_surrogate u); [|reflexivity].
  specialize (Hnext eq_refl). unfold no_low_escape in Hnext.
  destruct t as [|b [|u' [|g1 [|g2 [|g3 [|g4 r3]]]]]]; try reflexivity.
  destruct ((b =? BACKSLASH) && (u' =? chr "u")); [|reflexivity].
  destruct (Hnext eq_refl) as (u2 & -> & ->). reflexivity.
Qed.

Lemma scanstring_astral_escape c t :
  0x10000 <= c -> c < 0x110000 ->
  scanstring (BACKSLASH :: chr "u" :: hex4 (high_surrogate c)
              ++ BACKSLASH :: chr "u" :: hex4 (low_surrogate c) ++ t)
  = then_cons c (scanstring t).
Proof.
  intros Hlo Hhi.
  destruct (surrogates_of_astral c Hlo Hhi) as (Hh & Hl & Hish & Hisl & Hjoin).
  pose proof (unhex4_hex4 _ Hh) as Hhex1. pose proof (unhex4_hex4 _ Hl) as Hhex2.
  unfold hex4 in Hhex1, Hhex2 |- *. cbn [app].
  change (scanstring (BACKSLASH :: chr "u" :: ?h1 :: ?h2 :: ?h3 :: ?h4
                      :: BACKSLASH :: chr "u" :: ?g1 :: ?g2 :: ?g3 :: ?g4 :: t))
    with (match unhex4 h1 h2 h3 h4 with
          | None => None
          | Some u =>
              if is_high_surrogate u then
                match unhex4 g1 g2 g3 g4 with
                | None => None
                | Some u2 =>
                    if is_low_surrogate u2
                    then then_cons (join_surrogates u u2) (scanstring t)
                    else then_cons u
                           (scanstring (BACKSLASH :: chr "u" :: g1 :: g2 :: g3 :: g4 :: t))
                end
              else then_cons u
                     (scanstring (BACKSLASH :: chr "u" :: g1 :: g2 :: g3 :: g4 :: t))
          end).
  rewrite Hhex1, Hish, Hhex2, Hisl, Hjoin. reflexivity.
Qed.

Lemma no_low_escape_head b t : b <> BACKSLASH -> no_low_escape (b :: t).
Proof.
  intros Hb. unfold no_low_escape.
  destruct t as [|u' [|g1 [|g2 [|g3 [|g4 r3]]]]]; try exact I.
  apply N.eqb_neq in Hb. rewrite Hb. discriminate.
Qed.

Lemma no_low_escape_short x t : x <> chr "u" -> no_low_escape (BACKSLASH :: x :: t).
Proof.
  intros Hx. unfold no_low_escape.
  destruct t as [|g1 [|g2 [|g3 [|g4 r3]]]]; try exact I.
  apply N.eqb_neq in Hx. rewrite Hx, andb_false_r. discriminate.
Qed.

Lemma no_low_escape_unicode u t :
  u < 0x10000 -> is_low_surrogate u = false ->
  no_low_escape (BACKSLASH :: chr "u" :: hex4 u ++ t).
Proof.
  intros Hu Hlow. pose proof (unhex4_hex4 u Hu) as Hhex.
  unfold hex4 in Hhex |- *. cbn [app no_low_escape].
  intros _. exists u. split; assumption.
Qed.

(** The escape of one character is read back as that character. *)
Lemma scanstring_escape_char c t :
  c < 0x110000 ->
  (is_high_surrogate c = true -> no_low_escape t) ->
  scanstring (escape_char c ++ t) = then_cons c (scanstring t).
Proof.
  intros Hc Hnext. unfold escape_char.
  destruct (plain_char c) eqn:Hplain.
  { unfold plain_char in Hplain.
    apply andb_prop in Hplain as [Hplain Hq]. apply andb_prop in Hplain as [Hplain Hb].
    apply andb_prop in Hplain as [Hlo _]. apply negb_true_iff in Hq, Hb.
    apply N.leb_le in Hlo. cbn [app scanstring]. rewrite Hq, Hb.
    replace (c <=? 31) with false by (symmetry; apply N.leb_gt; lia). reflexivity. }
  destruct (c =? BACKSLASH) eqn:E1; [apply N.eqb_eq in E1; subst c; reflexivity|].
  destruct (c =? QUOTE) eqn:E2; [apply N.eqb_eq in E2; subst c; reflexivity|].
  destruct (c =? 8) eqn:E3; [apply N.eqb_eq in E3; subst c; reflexivity|].
  destruct (c =? 12) eqn:E4; [apply N.eqb_eq in E4; subst c; reflexivity|].
  destruct (c =? 10) eqn:E5; [apply N.eqb_eq in E5; subst c; reflexivity|].
  destruct (c =? 13) eqn:E6; [apply N.eqb_eq in E6; subst c; reflexivity|].
  destruct (c =? 9) eqn:E7; [apply N.eqb_eq in E7; subst c; reflexivity|].
  destruct (0x10000 <=? c) eqn:E8.
  - apply N.leb_le in E8. cbn [app]. rewrite <- app_assoc. cbn [app].
    apply scanstring_astral_escape; assumption.
  - apply N.leb_gt in E8. cbn [app]. apply scanstring_unicode_escape; assumption.
Qed.

(** What follows a character in the text of a string never reads as the
    second half of a pair, unless the next character is a low surrogate. *)
Lemma no_low_escape_next s rest :
  match s with c :: _ => c < 0x110000 /\ is_low_surrogate c = false | [] => True end ->
  no_low_escape (flat_map escape_char s ++ QUOTE :: rest).
Proof.
  destruct s as [|c s]; intros Hc.
  - apply no_low_escape_head. discriminate.
  - destruct Hc as [Hc Hlow]. cbn [flat_map]. rewrite <- app_assoc.
    unfold escape_char. destruct (plain_char c) eqn:Hplain.
    { apply no_low_escape_head. unfold plain_char in Hplain.
      apply andb_prop in Hplain as [Hplain _]. apply andb_prop in Hplain as [_ Hb].
      apply negb_true_iff, N.eqb_neq in Hb. exact Hb. }
    destruct (c =? BACKSLASH); [apply no_low_escape_short; discriminate|].
    destruct (c =? QUOTE); [apply no_low_escape_short; discriminate|].
    destruct (c =? 8); [apply no_low_escape_short; discriminate|].
    destruct (c =? 12); [apply no_low_escape_short; discriminate|].
    destruct (c =? 10); [apply no_low_escape_short; discriminate|].
    destruct (c =? 13); [apply no_low_escape_short; discriminate|].
    destruct (c =? 9); [apply no_low_escape_short; discriminate|].
    destruct (0x10000 <=? c) eqn:E8.
    + apply N.leb_le in E8.
      destruct (surrogates_of_astral c E8 Hc) as (Hh & _ & Hish & _ & _).
      cbn [app]. rewrite <- app_assoc. apply no_low_escape_unicode; [exact Hh|].
      unfold is_high_surrogate in Hish. unfold is_low_surrogate.
      apply andb_prop in Hish as [_ Hle]. apply N.leb_le in Hle.
      apply andb_false_intro1. apply N.leb_gt. lia.
    + apply N.leb_gt in E8. cbn [app]. apply no_low_escape_unicode; assumption.
Qed.

Lemma scanstring_escaped s rest :
  well_formed_str s = true ->
  scanstring (flat_map escape_char s ++ QUOTE :: rest) = Some (s, rest).
Proof.
  induction s as [|c s IH]; intros Hwf; [reflexivity|].
  cbn [well_formed_str] in Hwf.
  apply andb_prop in Hwf as [Hwf Hs]. apply andb_prop in Hwf as [Hc Hpair].
  apply N.ltb_lt in Hc. apply negb_true_iff in Hpair.
  cbn [flat_map]. rewrite <- app_assoc.
  rewrite scanstring_escape_char, (IH Hs); [reflexivity | exact Hc |].
  intros Hhigh. rewrite Hhigh in Hpair. cbn [andb] in Hpair.
  apply no_low_escape_next. destruct s as [|c' s']; [exact I|].
  cbn [well_formed_str] in Hs.
  apply andb_prop in Hs as [Hs _]. apply andb_prop in Hs as [Hc' _].
  apply N.ltb_lt in Hc'. split; assumption.
Qed.

Lemma scan_once_str fuel s rest :
  well_formed_str s = true ->
  forall `{FloatConv},
  scan_once (S fuel) (encode_basestring_ascii s ++ rest) = Some (PyStr s, rest).
Proof.
  intros Hwf Hconv. unfold encode_basestring_ascii. cbn [app scan_once].
  change (QUOTE =? QUOTE) with true. cbv iota.
  rewrite <- app_assoc. cbn [app]. rewrite scanstring_escaped by exact Hwf. reflexivity.
Qed.

(** *** Numbers *)

Lemma span_digits_app l rest :
  ends_number rest ->
  span_digits (l ++ rest) = (fst (span_digits l), snd (span_digits l) ++ rest).
Proof.
  intros Hrest. induction l as [|c l IH]; cbn [app span_digits].
  - destruct rest as [|c r]; [reflexivity|]. destruct Hrest as [Hd _].
    cbn [span_digits]. rewrite Hd. reflexivity.
  - destruct (is_digit c); [|reflexivity].
    rewrite IH. destruct (span_digits l). reflexivity.
Qed.

Lemma scan_sign_app l rest :
  ends_number rest ->
  scan_sign (l ++ rest) = (fst (scan_sign l), snd (scan_sign l) ++ rest).
Proof.
  intros Hrest. destruct l as [|c l]; cbn [app scan_sign].
  - destruct rest as [|c r]; [reflexivity|].
    destruct Hrest as (_ & _ & _ & _ & _ & Hm). apply N.eqb_neq in Hm.
    cbn [scan_sign]. rewrite Hm. reflexivity.
  - destruct (c =? chr "-"); reflexivity.
Qed.

Lemma scan_int_part_app l rest :
  ends_number rest ->
  scan_int_part (l ++ rest)
  = match scan_int_part l with
    | Some (ip, r) => Some (ip, r ++ rest)
    | None => None
    end.
Proof.
  intros Hrest. destruct l as [|c l]; cbn [app scan_int_part].
  - destruct rest as [|c r]; [reflexivity|]. destruct Hrest as (Hd & _).
    unfold is_digit in Hd. cbn [scan_int_part].
    destruct ((49 <=? c) && (c <=? 57)) eqn:E1.
    { apply andb_prop in E1 as [E1 E2]. apply N.leb_le in E1, E2.
      apply andb_false_iff in Hd as [Hd|Hd]; apply N.leb_gt in Hd; lia. }
    destruct (c =? 48) eqn:E2; [|reflexivity].
    apply N.eqb_eq in E2. subst c. discriminate Hd.
  - destruct ((49 <=? c) && (c <=? 57)).
    + rewrite span_digits_app by exact Hrest. destruct (span_digits l). reflexivity.
    + destruct (c =? 48); reflexivity.
Qed.

Lemma scan_frac_app l rest :
  ends_number rest ->
  scan_frac (l ++ rest) = (fst (scan_frac l), snd (scan_frac l) ++ rest).
Proof.
  intros Hrest. destruct l as [|dot [|d l]]; cbn [app scan_frac].
  - destruct rest as [|c [|d r]]; try reflexivity.
    destruct Hrest as (_ & Hdot & _). apply N.eqb_neq in Hdot.
    cbn [scan_frac]. rewrite Hdot. reflexivity.
  - destruct rest as [|d r]; [reflexivity|]. destruct Hrest as (Hd & _).
    cbn [scan_frac]. rewrite Hd, andb_false_r. reflexivity.
  - destruct ((dot =? chr ".") && is_digit d); [|reflexivity].
    rewrite span_digits_app by exact Hrest. destruct (span_digits l). reflexivity.
Qed.

Lemma scan_exp_app l rest :
  ends_number rest ->
  scan_exp (l ++ rest) = (fst (scan_exp l), snd (scan_exp l) ++ rest).
Proof.
  intros Hrest.
  assert (Hspan : span_digits rest = ([], rest)).
  { destruct rest as [|c r]; [reflexivity|]. destruct Hrest as (Hd & _).
    cbn [span_digits]. rewrite Hd. reflexivity. }
  destruct l as [|e l]; cbn [app scan_exp].
  - destruct rest as [|c r]; [reflexivity|].
    destruct Hrest as (_ & _ & He & HE & _). apply N.eqb_neq in He, HE.
    cbn [scan_exp]. rewrite He, HE. reflexivity.
  - destruct ((e =? chr "e") || (e =? chr "E")); [|reflexivity].
    destruct l as [|c l]; cbn [app].
    + cbn [span_digits app].
      destruct rest as [|c r]; [reflexivity|].
      destruct Hrest as (Hd & _ & _ & _ & Hp & Hm). apply N.eqb_neq in Hp, Hm.
      rewrite Hp, Hm. cbn [orb span_digits]. rewrite Hd. reflexivity.
    + destruct ((c =? chr "-") || (c =? chr "+")).
      * rewrite span_digits_app by exact Hrest.
        destruct (span_digits l) as [[|d ds] r']; reflexivity.
      * change (c :: l ++ rest) with ((c :: l) ++ rest).
        rewrite (span_digits_app (c :: l)) by exact Hrest.
        destruct (span_digits (c :: l)) as [[|d ds] r']; reflexivity.
Qed.

(** Scanning a number looks no further than the character that ends it. *)
Lemma scan_number_app l rest :
  ends_number rest ->
  scan_number (l ++ rest)
  = match scan_number l with
    | Some (lit, is_float, r) => Some (lit, is_float, r ++ rest)
    | None => None
    end.
Proof.
  intros Hrest. unfold scan_number.
  rewrite scan_sign_app by exact Hrest. destruct (scan_sign l) as [sign s1].
  cbn [fst snd]. rewrite scan_int_part_app by exact Hrest.
  destruct (scan_int_part s1) as [[ip r1]|]; [|reflexivity].
  rewrite scan_frac_app by exact Hrest. destruct (scan_frac r1) as [frac r2].
  cbn [fst snd]. rewrite scan_exp_app by exact Hrest.
  destruct (scan_exp r2) as [exp r3]. reflexivity.
Qed.

Lemma scan_int_part_head s ip r :
  scan_int_part s = Some (ip, r) ->
  match s with d :: _ => is_digit d = true | [] => False end.
Proof.
  destruct s as [|c s]; cbn [scan_int_part]; [discriminate|].
  unfold is_digit. destruct ((49 <=? c) && (c <=? 57)) eqn:E1.
  - intros _. apply andb_prop in E1 as [E1 E2]. apply N.leb_le in E1, E2.
    apply andb_true_intro. split; apply N.leb_le; lia.
  - destruct (c =? 48) eqn:E2; [|discriminate]. apply N.eqb_eq in E2. subst c.
    reflexivity.
Qed.

Lemma scan_number_starts s res : scan_number s = Some res -> starts_number s.
Proof.
  unfold scan_number, scan_sign. destruct s as [|c s]; [discriminate|].
  destruct (c =? chr "-") eqn:Hc.
  - apply N.eqb_eq in Hc. subst c.
    destruct (scan_int_part s) as [[ip r1]|] eqn:Hip; [|discriminate].
    intros _. right. split; [reflexivity|]. exact (scan_int_part_head _ _ _ Hip).
  - destruct (scan_int_part (c :: s)) as [[ip r1]|] eqn:Hip; [|discriminate].
    intros _. left. exact (scan_int_part_head _ _ _ Hip).
Qed.

Section NumberTerms.
Context `{FloatConv}.

(** At the head of a number, [scan_once] reads a number. *)
Lemma scan_once_number fuel s :
  starts_number s -> scan_once (S fuel) s = scan_number_value s.
Proof.
  destruct s as [|c s]; [intros []|]. cbn [starts_number scan_once].
  unfold is_digit. intros [Hd | [-> Hd]].
  - apply andb_prop in Hd as [Hlo Hhi]. apply N.leb_le in Hlo, Hhi.
    assert (Hq : (c =? QUOTE) = false) by (apply N.eqb_neq; unfold QUOTE; lia).
    assert (Hb : (c =? chr "{") = false) by (apply N.eqb_neq; unfold chr; simpl; lia).
    assert (Hk : (c =? chr "[") = false) by (apply N.eqb_neq; unfold chr; simpl; lia).
    rewrite Hq, Hb, Hk. unfold scan_constant.
    cbn [strip_prefix str list_ascii_of_string map].
    assert (Hne : forall a, (a <? 48) || (57 <? a) = true -> (a =? c) = false).
    { intros a Ha. apply N.eqb_neq. apply orb_prop in Ha as [Ha|Ha];
        apply N.ltb_lt in Ha; lia. }
    rewrite !Hne by reflexivity. reflexivity.
  - destruct s as [|d s]; [destruct Hd|].
    apply andb_prop in Hd as [Hlo Hhi]. apply N.leb_le in Hlo, Hhi.
    change (chr "-" =? QUOTE) with false. change (chr "-" =? chr "{") with false.
    change (chr "-" =? chr "[") with false. cbv iota.
    unfold scan_constant. cbn [strip_prefix str list_ascii_of_string map].
    change (N_of_ascii "n" =? chr "-") with false.
    change (N_of_ascii "t" =? chr "-") with false.
    change (N_of_ascii "f" =? chr "-") with false.
    change (N_of_ascii "N" =? chr "-") with false.
    change (N_of_ascii "I" =? chr "-") with false.
    change (N_of_ascii "-" =? chr "-") with true. cbv iota.
    replace (N_of_ascii "I" =? d) with false
      by (symmetry; apply N.eqb_neq; simpl; lia).
    reflexivity.
Qed.

End NumberTerms.

(** *** Integers *)

Lemma digits_zero : digits 0 = [0].
Proof. reflexivity. Qed.

Lemma digits_head n :
  0 < n -> exists d ds, digits n = d :: ds /\ 1 <= d.
Proof.
  induction n as [n IH] using (well_founded_induction N.lt_wf_0). intros Hn.
  rewrite digits_step. destruct (n / 10 =? 0) eqn:Hq.
  - apply N.eqb_eq in Hq. exists (n mod 10), []. split; [reflexivity|]. euclid.
  - apply N.eqb_neq in Hq.
    destruct (IH (n / 10)) as (d & ds & Hds & Hd);
      [euclid | apply N.neq_0_lt_0; exact Hq |].
    rewrite Hds. exists d, (ds ++ [n mod 10]). split; [reflexivity | exact Hd].
Qed.

Lemma span_digits_all ds :
  Forall (fun d => d < 10) ds ->
  span_digits (map (N.add 48) ds) = (map (N.add 48) ds, []).
Proof.
  induction 1 as [|d ds Hd _ IH]; [reflexivity|].
  cbn [map span_digits]. unfold is_digit.
  replace ((48 <=? 48 + d) && (48 + d <=? 57)) with true
    by (symmetry; apply andb_true_intro; split; apply N.leb_le; lia).
  rewrite IH. reflexivity.
Qed.

Lemma scan_int_part_digits n :
  scan_int_part (map (N.add 48) (digits n)) = Some (map (N.add 48) (digits n), []).
Proof.
  destruct (N.eq_dec n 0) as [->|Hn]; [reflexivity|].
  destruct (digits_head n) as (d & ds & Hds & Hd); [lia|].
  pose proof (digits_lt n) as Hlt. rewrite Hds in Hlt |- *.
  inversion Hlt as [|? ? Hd10 Hds10]; subst.
  cbn [map scan_int_part].
  replace ((49 <=? 48 + d) && (48 + d <=? 57)) with true
    by (symmetry; apply andb_true_intro; split; apply N.leb_le; lia).
  rewrite span_digits_all by exact Hds10. reflexivity.
Qed.

Lemma scan_number_int_repr n : scan_number (int_repr n) = Some (int_repr n, false, []).
Proof.
  unfold int_repr, scan_number. destruct (n <? 0)%Z.
  - cbn [app scan_sign]. change (chr "-" =? chr "-") with true. cbv iota.
    rewrite scan_int_part_digits. cbn. rewrite app_nil_r. reflexivity.
  - cbn [app].
    assert (Hsign : scan_sign (map (N.add 48) (digits (Z.abs_N n)))
                    = ([], map (N.add 48) (digits (Z.abs_N n)))).
    { pose proof (digits_lt (Z.abs_N n)) as Hlt.
      destruct (digits (Z.abs_N n)) as [|d ds]; [reflexivity|].
      inversion Hlt; subst. cbn [map scan_sign].
      replace (48 + d =? chr "-") with false
        by (symmetry; apply N.eqb_neq; unfold chr; simpl; lia).
      reflexivity. }
    rewrite Hsign, scan_int_part_digits. cbn. rewrite app_nil_r. reflexivity.
Qed.

Lemma unshift_digits ds : map (fun d => d - 48) (map (N.add 48) ds) = ds.
Proof.
  rewrite map_map. induction ds as [|d ds IH]; [reflexivity|].
  cbn [map]. rewrite IH. f_equal. lia.
Qed.

Lemma int_of_literal_repr n : int_of_literal (int_repr n) = n.
Proof.
  unfold int_repr, int_of_literal. destruct (n <? 0)%Z eqn:Hneg.
  - cbn [app]. change (chr "-" =? chr "-") with true. cbv iota.
    rewrite unshift_digits, number_digits. apply Z.ltb_lt in Hneg. lia.
  - cbn [app]. apply Z.ltb_ge in Hneg.
    pose proof (digits_lt (Z.abs_N n)) as Hlt.
    pose proof (unshift_digits (digits (Z.abs_N n))) as Hun.
    pose proof (number_digits (Z.abs_N n)) as Hnum.
    destruct (digits (Z.abs_N n)) as [|d ds] eqn:Hds.
    + cbn in Hnum. cbn. lia.
    + inversion Hlt; subst. cbn [map].
      replace (48 + d =? chr "-") with false
        by (symmetry; apply N.eqb_neq; unfold chr; simpl; lia).
      cbn [map] in Hun. rewrite Hun, Hnum. lia.
Qed.

(** *** Dictionaries *)

Lemma str_eqb_eq a b : str_eqb a b = true <-> a = b.
Proof.
  revert b. induction a as [|x a IH]; intros [|y b]; cbn [str_eqb];
    try (split; [discriminate | discriminate]); [split; reflexivity|].
  rewrite andb_true_iff, N.eqb_eq, IH. split; [intros [-> ->]; reflexivity|].
  intros [= -> ->]. split; reflexivity.
Qed.

Lemma str_eqb_refl a : str_eqb a a = true.
Proof. apply str_eqb_eq. reflexivity. Qed.

Lemma existsb_key_false k (items : list (pystr * pyvalue)) :
  existsb (fun kv' => str_eqb k (fst kv')) items = false <-> ~ In k (map fst items).
Proof.
  induction items as [|kv r IH]; cbn [existsb map In]; [tauto|].
  rewrite orb_false_iff, IH. split.
  - intros [Hk Hr] [Heq | Hin]; [|exact (Hr Hin)].
    subst k. rewrite str_eqb_refl in Hk. discriminate.
  - intros Hn. split; [|tauto].
    destruct (str_eqb k (fst kv)) eqn:E; [|reflexivity].
    apply str_eqb_eq in E. subst k. tauto.
Qed.

Lemma distinct_keys_NoDup items : distinct_keys items = true <-> List.NoDup (map fst items).
Proof.
  induction items as [|kv r IH]; cbn [distinct_keys map].
  - split; [constructor | reflexivity].
  - rewrite andb_true_iff, negb_true_iff, existsb_key_false, IH. split.
    + intros [Hk Hr]. constructor; assumption.
    + intros Hnd. inversion Hnd; subst. split; assumption.
Qed.

Lemma dict_set_fresh k v d :
  ~ In k (map fst d) -> dict_set k v d = d ++ [(k, v)].
Proof.
  induction d as [|[k' v'] r IH]; cbn [dict_set map In fst app]; [reflexivity|].
  intros Hn. destruct (str_eqb k k') eqn:E.
  - apply str_eqb_eq in E. subst k'. tauto.
  - rewrite IH by tauto. reflexivity.
Qed.

Lemma dict_of_pairs items acc :
  List.NoDup (map fst (acc ++ items)) ->
  fold_left (fun d kv => dict_set (fst kv) (snd kv) d) items acc = acc ++ items.
Proof.
  revert acc. induction items as [|[k v] r IH]; intros acc Hnd; cbn [fold_left].
  - rewrite app_nil_r. reflexivity.
  - cbn [fst snd]. rewrite dict_set_fresh.
    + rewrite IH; rewrite <- app_assoc; [reflexivity | exact Hnd].
    + rewrite map_app in Hnd. cbn [map fst] in Hnd.
      apply List.NoDup_remove_2 in Hnd. intros Hin. apply Hnd.
      apply in_or_app. left. exact Hin.
Qed.

Lemma dict_get_member items k v :
  List.NoDup (map fst items) -> In (k, v) items -> dict_get k items = Some v.
Proof.
  induction items as [|[k' v'] r IH]; cbn [map fst In dict_get]; [tauto|].
  intros Hnd [Heq | Hin].
  - injection Heq as -> ->. rewrite str_eqb_refl. reflexivity.
  - inversion Hnd as [|? ? Hk Hr]; subst.
    destruct (str_eqb k k') eqn:E; [|apply IH; assumption].
    apply str_eqb_eq in E. subst k'. exfalso. apply Hk.
    change k with (fst (k, v)). apply in_map. exact Hin.
Qed.

(** *** Terms *)

Lemma ends_value_number rest : ends_value rest -> ends_number rest.
Proof.
  destruct rest as [|c r]; [trivial|]. cbn [ends_value ends_number].
  intros [-> | [-> | ->]]; repeat split; discriminate.
Qed.

Lemma starts_number_term s : starts_number s -> starts_term s.
Proof.
  destruct s as [|c s]; [trivial|]. cbn [starts_number starts_term].
  unfold is_digit, is_ws. intros [Hd | [-> _]].
  - apply andb_prop in Hd as [Hlo Hhi]. apply N.leb_le in Hlo, Hhi.
    repeat split; try (unfold chr; simpl; lia).
    repeat (apply orb_false_intro); apply N.eqb_neq; lia.
  - repeat split; discriminate.
Qed.

Lemma starts_term_app s rest : starts_term s -> starts_term (s ++ rest).
Proof. destruct s; [intros []|]. trivial. Qed.

Lemma skip_ws_term s : starts_term s -> skip_ws s = s.
Proof.
  destruct s as [|c s]; [intros []|]. intros [Hws _]. cbn [skip_ws]. rewrite Hws.
  reflexivity.
Qed.

Lemma skip_ws_space t : skip_ws (32 :: t) = skip_ws t.
Proof. reflexivity. Qed.

Lemma skip_ws_comma t : skip_ws (chr "," :: t) = chr "," :: t.
Proof. reflexivity. Qed.

Lemma skip_ws_colon t : skip_ws (chr ":" :: t) = chr ":" :: t.
Proof. reflexivity. Qed.

Section Terms.
Context `{FloatConv}.

Lemma scan_number_encode_float f :
  float_round_trips f ->
  match f with
  | S754_nan | S754_infinity _ => True
  | _ => scan_number (encode_float f) = Some (encode_float f, true, [])
  end.
Proof. destruct f; cbn [float_round_trips encode_float]; tauto. Qed.

Lemma dumps_starts_term v :
  Forall float_round_trips (floats v) -> starts_term (dumps v).
Proof.
  intros Hf. destruct v as [ | [|] | n | f | s | items | items];
    try (cbn; repeat split; discriminate).
  - apply starts_number_term. cbn [dumps].
    exact (scan_number_starts _ _ (scan_number_int_repr n)).
  - cbn [floats] in Hf. apply Forall_inv in Hf.
    pose proof (scan_number_encode_float f Hf) as Hscan.
    destruct f as [s|[|]| |s m e]; try (cbn; repeat split; discriminate);
      apply starts_number_term; exact (scan_number_starts _ _ Hscan).
Qed.

Lemma dumps_nonempty v :
  Forall float_round_trips (floats v) -> (1 <= length (dumps v))%nat.
Proof.
  intros Hf. pose proof (dumps_starts_term v Hf) as Hs.
  destruct (dumps v); [destruct Hs | cbn [length]; lia].
Qed.

Lemma join_seq_length_ge {A} (sep : list A) parts :
  Forall (fun p => (1 <= length p)%nat) parts ->
  (length parts <= length (join_seq sep parts))%nat.
Proof.
  induction 1 as [|p rest Hp _ IH]; [reflexivity|].
  destruct rest as [|q rest]; [cbn; lia|].
  change (join_seq sep (p :: q :: rest)) with (p ++ sep ++ join_seq sep (q :: rest)).
  rewrite !length_app. cbn [length] in *. lia.
Qed.

(** The loop of an array reads back the terms of the text of a list. *)
Lemma array_items_dumps scan items rest n :
  items <> [] ->
  (length items <= n)%nat ->
  Forall (fun x => Forall float_round_trips (floats x)) items ->
  Forall (fun x => forall rest', ends_value rest' ->
                     scan (dumps x ++ rest') = Some (x, rest')) items ->
  array_items scan n (join_seq (str ", ") (map dumps items) ++ chr "]" :: rest)
  = Some (items, rest).
Proof.
  intros Hne Hn Hf Hscan. revert n Hn.
  induction items as [|x items IH]; intros n Hn; [congruence|].
  destruct n as [|n]; [cbn [length] in Hn; lia|].
  inversion Hf as [|? ? Hfx Hfr]; subst. inversion Hscan as [|? ? Hx Hr]; subst.
  destruct items as [|y items].
  - cbn [map join_seq array_items].
    rewrite Hx by (right; left; reflexivity). reflexivity.
  - change (join_seq (str ", ") (map dumps (x :: y :: items)))
      with (dumps x ++ str ", " ++ join_seq (str ", ") (map dumps (y :: items))).
    rewrite <- !app_assoc. cbn [array_items].
    rewrite Hx by (left; reflexivity).
    change (str ", " ++ ?t) with (chr "," :: 32 :: t).
    rewrite skip_ws_comma.
    change (chr "," =? chr "]") with false. change (chr "," =? chr ",") with true.
    cbv iota. rewrite skip_ws_space.
    assert (Hstart : starts_term
              (join_seq (str ", ") (map dumps (y :: items)) ++ chr "]" :: rest)).
    { inversion Hfr; subst.
      destruct items as [|z items]; cbn [map join_seq].
      - apply starts_term_app, dumps_starts_term. assumption.
      - rewrite <- app_assoc. apply starts_term_app, dumps_starts_term. assumption. }
    rewrite (skip_ws_term _ Hstart).
    rewrite IH; [reflexivity | discriminate | assumption | assumption |].
    cbn [length] in Hn |- *. lia.
Qed.

(** The loop of an object reads back the pairs of the text of a dict. *)
Lemma object_items_dumps scan (items : list (pystr * pyvalue)) rest n :
  items <> [] ->
  (length items <= n)%nat ->
  Forall (fun kv => well_formed_str (fst kv) = true) items ->
  Forall (fun kv => Forall float_round_trips (floats (snd kv))) items ->
  Forall (fun kv => forall rest', ends_value rest' ->
                      scan (dumps (snd kv) ++ rest') = Some (snd kv, rest')) items ->
  object_items scan n
    (join_seq (str ", ")
       (map (fun kv => encode_basestring_ascii (fst kv) ++ str ": " ++ dumps (snd kv))
            items)
     ++ chr "}" :: rest)
  = Some (items, rest).
Proof.
  intros Hne Hn Hk Hf Hscan. revert n Hn.
  induction items as [|[k v] items IH]; intros n Hn; [congruence|].
  destruct n as [|n]; [cbn [length] in Hn; lia|].
  inversion Hk as [|? ? Hkx Hkr]; subst. inversion Hf as [|? ? Hfx Hfr]; subst.
  inversion Hscan as [|? ? Hx Hr]; subst. cbn [fst snd] in Hkx, Hfx, Hx.
  assert (Hpair : forall tail,
            ends_value tail ->
            object_items scan (S n)
              ((encode_basestring_ascii k ++ str ": " ++ dumps v) ++ tail)
            = match skip_ws tail with
              | c :: r4 =>
                  if c =? chr "}" then Some ([(k, v)], r4)
                  else if c =? chr "," then
                    match object_items scan n (skip_ws r4) with
                    | Some (kvs, r5) => Some ((k, v) :: kvs, r5)
                    | None => None
                    end
                  else None
              | [] => None
              end).
  { intros tail Htail. unfold encode_basestring_ascii.
    rewrite <- !app_assoc. cbn [app object_items].
    change (QUOTE =? QUOTE) with true. cbv iota.
    rewrite <- app_assoc. cbn [app]. rewrite scanstring_escaped by exact Hkx.
    change (str ": " ++ ?t) with (chr ":" :: 32 :: t).
    rewrite skip_ws_colon.
    change (chr ":" =? chr ":") with true. cbv iota. rewrite skip_ws_space.
    rewrite (skip_ws_term (dumps v ++ tail))
      by (apply starts_term_app, dumps_starts_term; exact Hfx).
    rewrite Hx by exact Htail. reflexivity. }
  destruct items as [|[k' v'] items].
  - cbn [map join_seq fst snd]. rewrite Hpair by (right; right; reflexivity).
    reflexivity.
  - change (join_seq (str ", ")
              (map (fun kv => encode_basestring_ascii (fst kv) ++ str ": " ++ dumps (snd kv))
                 ((k, v) :: (k', v') :: items)))
      with ((encode_basestring_ascii k ++ str ": " ++ dumps v) ++ str ", "
            ++ join_seq (str ", ")
                 (map (fun kv => encode_basestring_ascii (fst kv) ++ str ": "
                                 ++ dumps (snd kv))
                    ((k', v') :: items))).
    rewrite <- (app_assoc (encode_basestring_ascii k ++ str ": " ++ dumps v)).
    rewrite Hpair.
    2:{ rewrite <- app_assoc. left. reflexivity. }
    rewrite <- app_assoc.
    change (str ", " ++ ?t) with (chr "," :: 32 :: t).
    rewrite skip_ws_comma.
    change (chr "," =? chr "}") with false. change (chr "," =? chr ",") with true.
    cbv iota. rewrite skip_ws_space.
    assert (Hstart : starts_term
              (join_seq (str ", ")
                 (map (fun kv => encode_basestring_ascii (fst kv) ++ str ": "
                                 ++ dumps (snd kv))
                    ((k', v') :: items))
               ++ chr "}" :: rest)).
    { destruct items as [|z items]; cbn [map join_seq fst]; unfold encode_basestring_ascii;
        cbn; repeat split; discriminate. }
    rewrite (skip_ws_term _ Hstart).
    rewrite IH; [reflexivity | discriminate | assumption | assumption | assumption |].
    cbn [length] in Hn |- *. lia.
Qed.

End Terms.

Section RoundTrip.
Context `{FloatConv}.

Lemma to_string_str s : to_string (str s) = s.
Proof.
  unfold to_string, str. rewrite map_map.
  rewrite <- (string_of_list_ascii_of_string s) at 2. f_equal.
  induction (list_ascii_of_string s) as [|a l IH]; [reflexivity|].
  cbn [map]. rewrite ascii_N_embedding, IH. reflexivity.
Qed.

Lemma well_formed_list items :
  well_formed (PyList items) = true -> Forall (fun x => well_formed x = true) items.
Proof.
  cbn [well_formed]. intros Hwf. apply List.Forall_forall.
  apply (proj1 (List.forallb_forall _ _)). exact Hwf.
Qed.

Lemma list_max_bound (l : list nat) n x : (list_max l <= n)%nat -> In x l -> (x <= n)%nat.
Proof.
  intros Hmax Hin. apply list_max_le in Hmax.
  rewrite List.Forall_forall in Hmax. apply Hmax. exact Hin.
Qed.

(** One term: the scanner reads back a well-formed value from its text,
    given fuel for its depth. *)
Lemma scan_once_dumps v :
  well_formed v = true ->
  Forall float_round_trips (floats v) ->
  forall fuel rest,
    (depth v <= fuel)%nat -> ends_value rest ->
    scan_once fuel (dumps v ++ rest) = Some (v, rest).
Proof.
  induction v as [ | [|] | n | f | s | items IH | items IH] using pyvalue_induction;
    intros Hwf Hf fuel rest Hfuel Hrest;
    (destruct fuel as [|fuel]; [cbn [depth] in Hfuel; lia|]).
  - reflexivity.
  - reflexivity.
  - reflexivity.
  - cbn [dumps].
    pose proof (scan_number_app (int_repr n) rest (ends_value_number _ Hrest)) as Happ.
    rewrite scan_number_int_repr in Happ.
    rewrite scan_once_number by exact (scan_number_starts _ _ Happ).
    unfold scan_number_value. rewrite Happ, int_of_literal_repr. reflexivity.
  - cbn [floats] in Hf. apply Forall_inv in Hf.
    pose proof (scan_number_encode_float f Hf) as Hscan.
    assert (Hfinite : forall g,
              scan_number (encode_float g) = Some (encode_float g, true, []) ->
              encode_float g = str (float_repr g) ->
              float_of_literal (float_repr g) = g ->
              scan_once (S fuel) (dumps (PyFloat g) ++ rest) = Some (PyFloat g, rest)).
    { intros g Hg Hrepr Hback. cbn [dumps].
      pose proof (scan_number_app (encode_float g) rest (ends_value_number _ Hrest))
        as Happ.
      rewrite Hg in Happ.
      rewrite scan_once_number by exact (scan_number_starts _ _ Happ).
      unfold scan_number_value. rewrite Happ, Hrepr, to_string_str, Hback.
      reflexivity. }
    destruct f as [s|[|]| |s m e]; try reflexivity;
      apply Hfinite; try reflexivity; try exact Hscan; apply Hf.
  - apply scan_once_str. exact Hwf.
  - destruct items as [|x items]; [reflexivity|].
    pose proof (well_formed_list _ Hwf) as Hwfs.
    cbn [floats] in Hf. apply (proj1 (List.Forall_flat_map _ _ _)) in Hf.
    cbn [depth] in Hfuel. apply le_S_n in Hfuel.
    cbn [dumps app]. rewrite <- app_assoc. cbn [app scan_once].
    change (chr "[" =? QUOTE) with false. change (chr "[" =? chr "{") with false.
    change (chr "[" =? chr "[") with true. cbv iota.
    assert (Hstart : starts_term
              (join_seq (str ", ") (map dumps (x :: items)) ++ chr "]" :: rest)).
    { apply Forall_inv in Hf as Hfx.
      destruct items as [|y items]; cbn [map join_seq].
      - apply starts_term_app, dumps_starts_term. exact Hfx.
      - rewrite <- app_assoc. apply starts_term_app, dumps_starts_term. exact Hfx. }
    rewrite (skip_ws_term _ Hstart).
    destruct (join_seq (str ", ") (map dumps (x :: items)) ++ chr "]" :: rest)
      as [|c r] eqn:Htext; [destruct Hstart|].
    destruct Hstart as (_ & Hc & _). apply N.eqb_neq in Hc. rewrite Hc.
    rewrite <- Htext. rewrite array_items_dumps; [reflexivity | discriminate | | exact Hf |].
    + rewrite length_app. 
      pose proof (join_seq_length_ge (str ", ") (map dumps (x :: items))) as Hlen.
      rewrite length_map in Hlen. cbn [length] in Hlen |- *.
      assert (Hparts : Forall (fun p => (1 <= length p)%nat) (map dumps (x :: items))).
      { apply Forall_map. eapply Forall_impl; [exact Hf|]. cbv beta.
        intros y Hy. apply dumps_nonempty. exact Hy. }
      specialize (Hlen Hparts). cbn [length] in Hlen. lia.
    + rewrite List.Forall_forall in IH, Hwfs, Hf |- *.
      intros y Hy rest' Hrest'. apply IH; auto.
      apply (list_max_bound (map depth (x :: items))); [exact Hfuel|].
      apply in_map. exact Hy.
  - destruct items as [|kv items]; [reflexivity|].
    cbn [well_formed] in Hwf. apply andb_prop in Hwf as [Hwfs Hkeys].
    rewrite List.forallb_forall in Hwfs.
    cbn [floats] in Hf. apply (proj1 (List.Forall_flat_map _ _ _)) in Hf.
    cbn [depth] in Hfuel. apply le_S_n in Hfuel.
    cbn [dumps app]. rewrite <- app_assoc. cbn [app scan_once].
    change (chr "{" =? QUOTE) with false. change (chr "{" =? chr "{") with true.
    cbv iota.
    set (text := join_seq (str ", ")
                   (map (fun kv0 => encode_basestring_ascii (fst kv0) ++ str ": "
                                    ++ dumps (snd kv0)) (kv :: items))
                 ++ chr "}" :: rest).
    assert (Hstart : starts_term text).
    { unfold text. destruct items as [|z items]; cbn [map join_seq fst];
        unfold encode_basestring_ascii; cbn; repeat split; discriminate. }
    rewrite (skip_ws_term _ Hstart).
    destruct text as [|c r] eqn:Htext; [destruct Hstart|].
    destruct Hstart as (_ & _ & Hc & _). apply N.eqb_neq in Hc. rewrite Hc.
    rewrite <- Htext. unfold text.
    rewrite object_items_dumps.
    + rewrite dict_of_pairs; [reflexivity|].
      apply distinct_keys_NoDup. exact Hkeys.
    + discriminate.
    + fold text. rewrite Htext.
      assert (Hlen : (length (kv :: items) <= length text)%nat).
      { unfold text. rewrite length_app.
        pose proof (join_seq_length_ge (str ", ")
                      (map (fun kv0 => encode_basestring_ascii (fst kv0) ++ str ": "
                                       ++ dumps (snd kv0)) (kv :: items))) as Hlen.
        rewrite length_map in Hlen.
        assert (Hparts : Forall (fun p => (1 <= length p)%nat)
                  (map (fun kv0 => encode_basestring_ascii (fst kv0) ++ str ": "
                                   ++ dumps (snd kv0)) (kv :: items))).
        { apply Forall_map, Forall_forall. intros kv0 _.
          unfold encode_basestring_ascii. cbn [app length]. lia. }
        specialize (Hlen Hparts). cbn [length] in Hlen |- *. lia. }
      rewrite Htext in Hlen. cbn [length] in Hlen |- *. lia.
    + apply List.Forall_forall. intros kv0 Hin.
      specialize (Hwfs kv0 Hin). apply andb_prop in Hwfs as [Hk _]. exact Hk.
    + exact Hf.
    + rewrite List.Forall_forall in IH, Hf |- *.
      intros kv0 Hin rest' Hrest'. specialize (Hwfs kv0 Hin).
      apply andb_prop in Hwfs as [_ Hv]. apply IH; auto.
      apply (list_max_bound (map (fun kv1 => depth (snd kv1)) (kv :: items)));
        [exact Hfuel|].
      apply (in_map (fun kv1 => depth (snd kv1))). exact Hin.
Qed.

(** The depth of a value is at most the length of its text. *)
Lemma depth_le_length v :
  Forall float_round_trips (floats v) -> (depth v <= length (dumps v))%nat.
Proof.
  induction v as [ | [|] | n | f | s | items IH | items IH] using pyvalue_induction;
    intros Hf; try (pose proof (dumps_nonempty _ Hf) as Hlen; cbn [depth]; exact Hlen).
  - cbn [floats] in Hf. apply (proj1 (List.Forall_flat_map _ _ _)) in Hf.
    cbn [depth dumps length]. apply le_n_S. rewrite length_app.
    apply list_max_le. apply List.Forall_forall. intros d Hd.
    apply in_map_iff in Hd as (x & <- & Hx).
    rewrite List.Forall_forall in IH, Hf. specialize (IH x Hx (Hf x Hx)).
    assert (Hpart : (length (dumps x)
                     <= length (join_seq (str ", ") (map dumps items)))%nat).
    { clear -Hx. induction items as [|y items IHi]; [destruct Hx|].
      destruct items as [|z items].
      - destruct Hx as [-> | []]. reflexivity.
      - change (join_seq (str ", ") (map dumps (y :: z :: items)))
          with (dumps y ++ str ", " ++ join_seq (str ", ") (map dumps (z :: items))).
        rewrite !length_app. destruct Hx as [-> | Hx]; [lia|].
        specialize (IHi Hx). lia. }
    lia.
  - cbn [floats] in Hf. apply (proj1 (List.Forall_flat_map _ _ _)) in Hf.
    cbn [depth dumps length]. apply le_n_S. rewrite length_app.
    apply list_max_le. apply List.Forall_forall. intros d Hd.
    apply in_map_iff in Hd as (kv & <- & Hkv).
    rewrite List.Forall_forall in IH, Hf. specialize (IH kv Hkv (Hf kv Hkv)).
    assert (Hpart : (length (dumps (snd kv))
                     <= length (join_seq (str ", ")
                                  (map (fun kv0 => encode_basestring_ascii (fst kv0)
                                                   ++ str ": " ++ dumps (snd kv0))
                                     items)))%nat).
    { clear -Hkv. induction items as [|y items IHi]; [destruct Hkv|].
      destruct items as [|z items].
      - destruct Hkv as [-> | []]. cbn [map join_seq]. rewrite !length_app. lia.
      - change (join_seq (str ", ")
                  (map (fun kv0 => encode_basestring_ascii (fst kv0) ++ str ": "
                                   ++ dumps (snd kv0)) (y :: z :: items)))
          with ((encode_basestring_ascii (fst y) ++ str ": " ++ dumps (snd y))
                ++ str ", "
                ++ join_seq (str ", ")
                     (map (fun kv0 => encode_basestring_ascii (fst kv0) ++ str ": "
                                      ++ dumps (snd kv0)) (z :: items))).
        rewrite !length_app. destruct Hkv as [-> | Hkv]; [lia|].
        specialize (IHi Hkv). lia. }
    lia.
Qed.

(** [json.loads(json.dumps(v))] is [v]. *)
Theorem loads_dumps v :
  well_formed v = true ->
  Forall float_round_trips (floats v) ->
  loads (dumps v) = Some v.
Proof.
  intros Hwf Hf. unfold loads.
  pose proof (dumps_starts_term v Hf) as Hstart.
  rewrite (skip_ws_term _ Hstart).
  assert (Hbom : strip_prefix [0xFEFF] (dumps v) = None).
  { destruct (dumps v) as [|c r]; [destruct Hstart|].
    destruct Hstart as (_ & _ & _ & Hc). cbn [strip_prefix].
    replace (0xFEFF =? c) with false; [reflexivity|].
    symmetry. apply N.eqb_neq. congruence. }
  rewrite Hbom.
  pose proof (scan_once_dumps v Hwf Hf (S (length (dumps v))) []) as Hscan.
  rewrite app_nil_r in Hscan. rewrite Hscan; [reflexivity | | exact I].
  pose proof (depth_le_length v Hf). lia.
Qed.

End RoundTrip.

(** *** ASCII text and UTF-8 *)

Lemma byte_of_to_N c : c < 256 -> Byte.to_N (byte_of c) = c.
Proof.
  intros Hc. unfold byte_of. destruct (Byte.of_N c) as [b|] eqn:Hb.
  - apply Byte.to_of_N. exact Hb.
  - apply Byte.of_N_None_iff in Hb. lia.
Qed.

Lemma encode_ascii s : below 128 s -> encode s = Some (map byte_of s).
Proof.
  induction 1 as [|c r Hc _ IH]; [reflexivity|].
  cbn [encode map]. rewrite IH. unfold encode_char.
  apply N.ltb_lt in Hc. rewrite Hc. reflexivity.
Qed.

Lemma decode_ascii s : below 128 s -> decode (map byte_of s) = Some s.
Proof.
  induction 1 as [|c r Hc _ IH]; [reflexivity|].
  cbn [map decode]. rewrite byte_of_to_N by lia.
  apply N.ltb_lt in Hc. rewrite Hc, IH. reflexivity.
Qed.

(** *** Lines of a body *)

Lemma split_lines_nonempty bs : split_lines bs <> [].
Proof.
  induction bs as [|b r IH]; cbn [split_lines]; [discriminate|].
  destruct (Byte.eqb b x0a); [discriminate|].
  destruct (split_lines r); [congruence | discriminate].
Qed.

Lemma split_lines_line l t :
  ~ In x0a l -> split_lines (l ++ x0a :: t) = l :: split_lines t.
Proof.
  induction l as [|b l IH]; intros Hn; cbn [app split_lines].
  - reflexivity.
  - destruct (Byte.eqb b x0a) eqn:Hb.
    + apply Byte.byte_dec_bl in Hb. subst b. exfalso. apply Hn. left. reflexivity.
    + rewrite IH; [reflexivity|]. intros Hin. apply Hn. right. exact Hin.
Qed.

Lemma split_lines_last l : ~ In x0a l -> split_lines l = [l].
Proof.
  induction l as [|b l IH]; intros Hn; cbn [split_lines]; [reflexivity|].
  destruct (Byte.eqb b x0a) eqn:Hb.
  - apply Byte.byte_dec_bl in Hb. subst b. exfalso. apply Hn. left. reflexivity.
  - rewrite IH; [reflexivity|]. intros Hin. apply Hn. right. exact Hin.
Qed.

Lemma split_lines_join lines :
  lines <> [] ->
  Forall (fun l => ~ In x0a l) lines ->
  split_lines (join_seq [x0a] lines) = lines.
Proof.
  intros Hne Hl. induction Hl as [|l rest Hn _ IH]; [congruence|].
  destruct rest as [|l' rest].
  - apply split_lines_last. exact Hn.
  - change (join_seq [x0a] (l :: l' :: rest))
      with (l ++ x0a :: join_seq [x0a] (l' :: rest)).
    rewrite split_lines_line by exact Hn. rewrite IH by discriminate. reflexivity.
Qed.

(** *** Equality *)

Lemma SFeqb_refl f : is_nan f = false -> SFeqb f f = true.
Proof.
  unfold SFeqb, SFcompare. destruct f as [s|[|]| |[|] m e]; try reflexivity;
    try discriminate; intros _; rewrite Z.compare_refl, Pos.compare_cont_refl;
    reflexivity.
Qed.

Lemma no_nan_list items :
  no_nan (PyList items) = true -> Forall (fun x => no_nan x = true) items.
Proof.
  unfold no_nan. cbn [floats]. intros Hn. apply List.Forall_forall. intros x Hx.
  apply List.forallb_forall. intros f Hf.
  rewrite List.forallb_forall in Hn. apply Hn. apply in_flat_map. eauto.
Qed.

Lemma no_nan_dict (items : list (pystr * pyvalue)) :
  no_nan (PyDict items) = true -> Forall (fun kv => no_nan (snd kv) = true) items.
Proof.
  unfold no_nan. cbn [floats]. intros Hn. apply List.Forall_forall. intros x Hx.
  apply List.forallb_forall. intros f Hf.
  rewrite List.forallb_forall in Hn. apply Hn. apply in_flat_map. eauto.
Qed.

(** A well-formed value without NaN is equal to itself. *)
Lemma py_eq_refl v : well_formed v = true -> no_nan v = true -> py_eq v v = true.
Proof.
  induction v as [ | b | n | f | s | items IH | items IH] using pyvalue_induction;
    intros Hwf Hn; cbn [py_eq].
  - reflexivity.
  - destruct b; reflexivity.
  - apply Z.eqb_refl.
  - apply SFeqb_refl. unfold no_nan in Hn. cbn in Hn.
    destruct (is_nan f); [discriminate | reflexivity].
  - apply str_eqb_refl.
  - pose proof (well_formed_list _ Hwf) as Hwfs. pose proof (no_nan_list _ Hn) as Hns.
    clear Hwf Hn. induction items as [|x items IHi]; [reflexivity|].
    inversion IH; subst. inversion Hwfs; subst. inversion Hns; subst.
    rewrite H1 by assumption. cbn [andb]. apply IHi; assumption.
  - cbn [well_formed] in Hwf. apply andb_prop in Hwf as [Hwfs Hkeys].
    apply distinct_keys_NoDup in Hkeys. pose proof (no_nan_dict _ Hn) as Hns.
    rewrite Nat.eqb_refl. cbn [andb]. apply List.forallb_forall. intros kv Hkv.
    rewrite (dict_get_member items (fst kv) (snd kv) Hkeys)
      by (destruct kv; exact Hkv).
    rewrite List.forallb_forall in Hwfs. specialize (Hwfs kv Hkv).
    apply andb_prop in Hwfs as [_ Hwfv].
    rewrite List.Forall_forall in IH, Hns. apply IH; auto.
Qed.

(** ** What the deserializer builds *)

Lemma land_low a k : N.land a (N.ones k) = a mod 2 ^ k.
Proof. apply N.land_ones. Qed.

Lemma continuation_low6 c : continuation c = true -> low6 c = c - 0x80.
Proof.
  unfold continuation, low6. intros Hc. apply andb_prop in Hc as [H1 H2].
  apply N.leb_le in H1, H2. change 0x3F with (N.ones 6). rewrite N.land_ones.
  change (2 ^ 6) with 64. euclid.
Qed.

Lemma is_surrogate_false c : c < 0xD800 \/ 0xDFFF < c -> is_surrogate c = false.
Proof.
  unfold is_surrogate. intros [Hc|Hc].
  - apply andb_false_intro1. apply N.leb_gt. lia.
  - apply andb_false_intro2. apply N.leb_gt. lia.
Qed.

Lemma decode2_scalar c0 c1 :
  0xC2 <= c0 -> c0 <= 0xDF -> continuation c1 = true ->
  scalar (N.lor (N.shiftl (N.land c0 0x1F) 6) (low6 c1)).
Proof.
  intros H0 H0' H1. rewrite (continuation_low6 c1 H1).
  unfold continuation in H1. apply andb_prop in H1 as [H1 H1'].
  apply N.leb_le in H1, H1'.
  change 0x1F with (N.ones 5). rewrite N.land_ones. change (2 ^ 5) with 32.
  rewrite lor_shiftl_add by (change (2 ^ 6) with 64; lia). change (2 ^ 6) with 64.
  assert (Hv : c0 mod 32 * 64 + (c1 - 128) < 0x800) by euclid.
  split; [lia | apply is_surrogate_false; lia].
Qed.

Lemma decode3_scalar c0 c1 c2 :
  0xE0 <= c0 -> c0 <= 0xEF -> continuation c1 = true -> continuation c2 = true ->
  (c0 = 0xED -> c1 <= 0x9F) ->
  scalar (N.lor (N.shiftl (N.land c0 0x0F) 12)
            (N.lor (N.shiftl (low6 c1) 6) (low6 c2))).
Proof.
  intros H0 H0' H1 H2 Hed.
  rewrite (continuation_low6 c1 H1), (continuation_low6 c2 H2).
  unfold continuation in H1, H2.
  apply andb_prop in H1 as [H1 H1']. apply andb_prop in H2 as [H2 H2'].
  apply N.leb_le in H1, H1', H2, H2'.
  change 0x0F with (N.ones 4). rewrite N.land_ones. change (2 ^ 4) with 16.
  rewrite (lor_shiftl_add (c1 - 128)) by (change (2 ^ 6) with 64; lia).
  change (2 ^ 6) with 64.
  rewrite lor_shiftl_add by (change (2 ^ 12) with 4096; lia).
  change (2 ^ 12) with 4096.
  assert (Hm : c0 mod 16 = c0 - 224) by euclid. rewrite Hm.
  split; [lia|]. apply is_surrogate_false.
  destruct (N.eq_dec c0 0xED) as [->|Hne]; [specialize (Hed eq_refl); lia|lia].
Qed.

Lemma decode4_scalar c0 c1 c2 c3 :
  0xF0 <= c0 -> c0 <= 0xF4 ->
  continuation c1 = true -> continuation c2 = true -> continuation c3 = true ->
  (c0 = 0xF0 -> 0x90 <= c1) -> (c0 = 0xF4 -> c1 <= 0x8F) ->
  scalar (N.lor (N.shiftl (N.land c0 0x07) 18)
            (N.lor (N.shiftl (low6 c1) 12)
               (N.lor (N.shiftl (low6 c2) 6) (low6 c3)))).
Proof.
  intros H0 H0' H1 H2 H3 Hf0 Hf4.
  rewrite (continuation_low6 c1 H1), (continuation_low6 c2 H2),
    (continuation_low6 c3 H3).
  unfold continuation in H1, H2, H3.
  apply andb_prop in H1 as [H1 H1']. apply andb_prop in H2 as [H2 H2'].
  apply andb_prop in H3 as [H3 H3'].
  apply N.leb_le in H1, H1', H2, H2', H3, H3'.
  change 0x07 with (N.ones 3). rewrite N.land_ones. change (2 ^ 3) with 8.
  rewrite (lor_shiftl_add (c2 - 128)) by (change (2 ^ 6) with 64; lia).
  change (2 ^ 6) with 64.
  rewrite (lor_shiftl_add (c1 - 128)) by (change (2 ^ 12) with 4096; lia).
  change (2 ^ 12) with 4096.
  rewrite lor_shiftl_add by (change (2 ^ 18) with 262144; lia).
  change (2 ^ 18) with 262144.
  assert (Hm : c0 mod 8 = c0 - 240) by euclid. rewrite Hm.
  destruct (N.eq_dec c0 0xF0) as [->|Hne0]; [specialize (Hf0 eq_refl)|].
  { split; [lia | apply is_surrogate_false; lia]. }
  destruct (N.eq_dec c0 0xF4) as [->|Hne4]; [specialize (Hf4 eq_refl)|].
  { split; [lia | apply is_surrogate_false; lia]. }
  split; [lia | apply is_surrogate_false; lia].
Qed.

Lemma fmap_cons_Some (c : N) (o : option pystr) s :
  cons c <$> o = Some s -> exists t, o = Some t /\ s = c :: t.
Proof. destruct o as [t|]; [|discriminate]. intros [= <-]. eauto. Qed.

Lemma implb_true (a b : bool) : negb a || b = true -> a = true -> b = true.
Proof. destruct a, b; auto. Qed.

(** Decoded text holds scalar values only. *)
Lemma decode_scalars bs s : decode bs = Some s -> Forall scalar s.
Proof.
  remember (length bs) as n eqn:Hn. revert bs s Hn.
  induction n as [n IH] using lt_wf_ind. intros bs s Hn Hdec.
  destruct bs as [|b0 r0]; [injection Hdec as <-; constructor|].
  cbn [decode] in Hdec. cbv zeta in Hdec. cbn [length] in Hn.
  destruct (Byte.to_N b0 <? 0x80) eqn:E1.
  { apply fmap_cons_Some in Hdec as (t & Ht & ->). apply N.ltb_lt in E1.
    constructor; [split; [lia | apply is_surrogate_false; lia]|].
    eapply IH; [| reflexivity | exact Ht]; cbn [length] in Hn |- *; lia. }
  destruct ((0xC2 <=? Byte.to_N b0) && (Byte.to_N b0 <=? 0xDF)) eqn:E2.
  { destruct r0 as [|b1 r1]; [discriminate|].
    destruct (continuation (Byte.to_N b1)) eqn:C1; [|discriminate].
    apply fmap_cons_Some in Hdec as (t & Ht & ->).
    apply andb_prop in E2 as [Ha Hb]. apply N.leb_le in Ha, Hb.
    constructor; [apply decode2_scalar; assumption|].
    eapply IH; [| reflexivity | exact Ht]; cbn [length] in Hn |- *; lia. }
  destruct ((0xE0 <=? Byte.to_N b0) && (Byte.to_N b0 <=? 0xEF)) eqn:E3.
  { destruct r0 as [|b1 [|b2 r2]]; try discriminate.
    destruct (continuation (Byte.to_N b1) && continuation (Byte.to_N b2)
              && (negb (Byte.to_N b0 =? 0xE0) || (0xA0 <=? Byte.to_N b1))
              && (negb (Byte.to_N b0 =? 0xED) || (Byte.to_N b1 <=? 0x9F))) eqn:C;
      [|discriminate].
    apply fmap_cons_Some in Hdec as (t & Ht & ->).
    apply andb_prop in C as [C Ced]. apply andb_prop in C as [C _].
    apply andb_prop in C as [C1 C2].
    apply andb_prop in E3 as [Ha Hb]. apply N.leb_le in Ha, Hb.
    constructor.
    - apply decode3_scalar; try assumption. intros Heq.
      apply N.leb_le. apply (implb_true _ _ Ced). apply N.eqb_eq. exact Heq.
    - eapply IH; [| reflexivity | exact Ht]; cbn [length] in Hn |- *; lia. }
  destruct ((0xF0 <=? Byte.to_N b0) && (Byte.to_N b0 <=? 0xF4)) eqn:E4; [|discriminate].
  destruct r0 as [|b1 [|b2 [|b3 r3]]]; try discriminate.
  destruct (continuation (Byte.to_N b1) && continuation (Byte.to_N b2)
            && continuation (Byte.to_N b3)
            && (negb (Byte.to_N b0 =? 0xF0) || (0x90 <=? Byte.to_N b1))
            && (negb (Byte.to_N b0 =? 0xF4) || (Byte.to_N b1 <=? 0x8F))) eqn:C;
    [|discriminate].
  apply fmap_cons_Some in Hdec as (t & Ht & ->).
  apply andb_prop in C as [C Cf4]. apply andb_prop in C as [C Cf0].
  apply andb_prop in C as [C C3]. apply andb_prop in C as [C1 C2].
  apply andb_prop in E4 as [Ha Hb]. apply N.leb_le in Ha, Hb.
  constructor.
  - apply decode4_scalar; try assumption.
    + intros Heq. apply N.leb_le. apply (implb_true _ _ Cf0). apply N.eqb_eq. exact Heq.
    + intros Heq. apply N.leb_le. apply (implb_true _ _ Cf4). apply N.eqb_eq. exact Heq.
  - eapply IH; [| reflexivity | exact Ht]; cbn [length] in Hn |- *; lia.
Qed.

(** *** Strings read by the scanner *)

Lemma hex_value_lt c d : hex_value c = Some d -> d < 16.
Proof.
  unfold hex_value, is_digit.
  destruct ((48 <=? c) && (c <=? 57)) eqn:E1.
  { intros [= <-]. apply andb_prop in E1 as [H1 H2]. apply N.leb_le in H1, H2. lia. }
  destruct ((97 <=? c) && (c <=? 102)) eqn:E2.
  { intros [= <-]. apply andb_prop in E2 as [H1 H2]. apply N.leb_le in H1, H2. lia. }
  destruct ((65 <=? c) && (c <=? 70)) eqn:E3; [|discriminate].
  intros [= <-]. apply andb_prop in E3 as [H1 H2]. apply N.leb_le in H1, H2. lia.
Qed.

Lemma unhex4_lt h1 h2 h3 h4 u : unhex4 h1 h2 h3 h4 = Some u -> u < 0x10000.
Proof.
  unfold unhex4.
  destruct (hex_value h1) as [d1|] eqn:E1; [|discriminate].
  destruct (hex_value h2) as [d2|] eqn:E2; [|discriminate].
  destruct (hex_value h3) as [d3|] eqn:E3; [|discriminate].
  destruct (hex_value h4) as [d4|] eqn:E4; [|discriminate].
  apply hex_value_lt in E1, E2, E3, E4. intros [= <-]. cbn [fold_left].
  rewrite N.shiftl_0_l, N.lor_0_l.
  rewrite !lor_shiftl_add by (change (2 ^ 4) with 16; assumption).
  change (2 ^ 4) with 16. lia.
Qed.

Lemma join_surrogates_astral hi lo :
  0x10000 <= join_surrogates hi lo /\ join_surrogates hi lo < 0x110000.
Proof.
  unfold join_surrogates. change 0x3FF with (N.ones 10). rewrite !N.land_ones.
  change (2 ^ 10) with 1024.
  rewrite lor_shiftl_add by (change (2 ^ 10) with 1024; apply N.mod_lt; lia).
  change (2 ^ 10) with 1024. euclid.
Qed.

Lemma scalar_not_surrogate c :
  scalar c -> is_high_surrogate c = false /\ is_low_surrogate c = false.
Proof.
  unfold scalar, is_surrogate, is_high_surrogate, is_low_surrogate. intros [_ Hs].
  apply andb_false_iff in Hs as [Hs|Hs]; apply N.leb_gt in Hs; split;
    first [ apply andb_false_intro1; apply N.leb_gt; lia
          | apply andb_false_intro2; apply N.leb_gt; lia ].
Qed.

Lemma high_not_low c : is_high_surrogate c = true -> is_low_surrogate c = false.
Proof.
  unfold is_high_surrogate, is_low_surrogate. intros Hc.
  apply andb_prop in Hc as [_ Hc]. apply N.leb_le in Hc.
  apply andb_false_intro1. apply N.leb_gt. lia.
Qed.

Lemma unescape_small e c :
  unescape e = Some c -> c < 128.
Proof.
  unfold unescape.
  destruct ((e =? QUOTE) || (e =? BACKSLASH) || (e =? chr "/")) eqn:E.
  { intros [= <-]. apply orb_prop in E as [E|E]; [apply orb_prop in E as [E|E]|];
      apply N.eqb_eq in E; subst e; reflexivity. }
  repeat match goal with
         | |- context [if ?b then _ else _] => destruct b
         end; intros [= <-]; reflexivity.
Qed.

Lemma then_cons_Some c o x r :
  then_cons c o = Some (x, r) -> exists t, x = c :: t /\ o = Some (t, r).
Proof. destruct o as [[t r']|]; [|discriminate]. intros [= <- <-]. eauto. Qed.

Lemma well_formed_str_cons c t :
  c < 0x110000 -> (is_high_surrogate c = true -> head_low t = false) ->
  well_formed_str t = true -> well_formed_str (c :: t) = true.
Proof.
  intros Hc Hpair Ht. cbn [well_formed_str]. rewrite Ht, andb_true_r.
  apply andb_true_intro. split; [apply N.ltb_lt; exact Hc|].
  apply negb_true_iff. destruct (is_high_surrogate c); [|reflexivity].
  cbn [andb]. apply (Hpair eq_refl).
Qed.

(** In text made of scalar values, [scanstring] builds a well-formed
    string and leaves text made of scalar values; its string starts with a
    low surrogate only if the text starts with the escape of one. *)
Lemma scanstring_well_formed s x r :
  Forall scalar s ->
  scanstring s = Some (x, r) ->
  well_formed_str x = true /\ Forall scalar r
  /\ (head_low x = true -> low_escape_at s).
Proof.
  remember (length s) as n eqn:Hn. revert s x r Hn.
  induction n as [n IH] using lt_wf_ind. intros s x r Hn Hs Hscan.
  assert (Hrec : forall c s' x0 r0,
            (length s' < n)%nat -> Forall scalar s' ->
            c < 0x110000 ->
            (is_high_surrogate c = true -> ~ low_escape_at s') ->
            then_cons c (scanstring s') = Some (x0, r0) ->
            well_formed_str x0 = true /\ Forall scalar r0
            /\ exists t, x0 = c :: t).
  { intros c s' x0 r0 Hlen Hs' Hc Hhigh Hthen.
    apply then_cons_Some in Hthen as (t & -> & Ht).
    destruct (IH (length s') Hlen s' t r0 eq_refl Hs' Ht) as (Hwf & Hr & Hlow).
    split; [|split; [exact Hr | eauto]].
    apply well_formed_str_cons; [exact Hc | | exact Hwf].
    intros Hh. destruct (head_low t) eqn:Hl; [|reflexivity].
    exfalso. exact (Hhigh Hh (Hlow eq_refl)). }
  destruct s as [|c s1]; [discriminate|]. cbn [scanstring] in Hscan.
  inversion Hs as [|? ? Hc Hs1]; subst. cbn [length] in Hrec.
  destruct (c =? QUOTE) eqn:Eq.
  { injection Hscan as <- <-. split; [reflexivity|]. split; [exact Hs1 | discriminate]. }
  destruct (c =? BACKSLASH) eqn:Eb.
  2:{ destruct (c <=? 0x1F); [discriminate|].
      destruct (scalar_not_surrogate c Hc) as [Hnh Hnl].
      destruct (Hrec c s1 x r) as (Hwf & Hr & t & ->);
        [lia | exact Hs1 | apply Hc | rewrite Hnh; intros Hf; discriminate Hf | exact Hscan |].
      split; [exact Hwf|]. split; [exact Hr|]. cbn [head_low]. rewrite Hnl. discriminate. }
  destruct s1 as [|e s2]; [discriminate|].
  inversion Hs1 as [|? ? He Hs2]; subst. cbn [length] in Hrec.
  destruct (e =? chr "u") eqn:Eu.
  2:{ destruct (unescape e) as [c'|] eqn:Hun; [|discriminate].
      pose proof (unescape_small e c' Hun) as Hsmall.
      assert (Hnh : is_high_surrogate c' = false).
      { unfold is_high_surrogate. apply andb_false_intro1. apply N.leb_gt. lia. }
      assert (Hnl : is_low_surrogate c' = false).
      { unfold is_low_surrogate. apply andb_false_intro1. apply N.leb_gt. lia. }
      destruct (Hrec c' s2 x r) as (Hwf & Hr & t & ->);
        [lia | exact Hs2 | lia | rewrite Hnh; intros Hf; discriminate Hf | exact Hscan |].
      split; [exact Hwf|]. split; [exact Hr|]. cbn [head_low]. rewrite Hnl. discriminate. }
  destruct s2 as [|h1 [|h2 [|h3 [|h4 s6]]]]; try discriminate.
  apply N.eqb_eq in Eb, Eu. subst c e.
  assert (Hs6 : Forall scalar s6).
  { do 4 (apply Forall_inv_tail in Hs2). exact Hs2. }
  cbn [length] in Hrec.
  destruct (unhex4 h1 h2 h3 h4) as [u|] eqn:Hu; [|discriminate].
  pose proof (unhex4_lt _ _ _ _ _ Hu) as Hult.
  assert (Hhead : forall t, x = u :: t ->
            head_low x = true ->
            low_escape_at (BACKSLASH :: chr "u" :: h1 :: h2 :: h3 :: h4 :: s6)).
  { intros t -> Hlow. cbn [head_low] in Hlow.
    exists h1, h2, h3, h4, s6, u. auto. }
  destruct (is_high_surrogate u) eqn:Hhigh.
  2:{ destruct (Hrec u s6 x r) as (Hwf & Hr & t & Hx);
        [lia | exact Hs6 | lia | intros Hf; congruence | exact Hscan |].
      split; [exact Hwf|]. split; [exact Hr | exact (Hhead t Hx)]. }
  (* a high surrogate: joined with the escape of a low one, if any *)
  assert (Halone : ~ low_escape_at s6 ->
            then_cons u (scanstring s6) = Some (x, r) ->
            well_formed_str x = true /\ Forall scalar r
            /\ (head_low x = true ->
                low_escape_at (BACKSLASH :: chr "u" :: h1 :: h2 :: h3 :: h4 :: s6))).
  { intros Hno Hthen.
    destruct (Hrec u s6 x r) as (Hwf & Hr & t & Hx);
      [lia | exact Hs6 | lia | intros _; exact Hno | exact Hthen |].
    split; [exact Hwf|]. split; [exact Hr | exact (Hhead t Hx)]. }
  destruct s6 as [|b [|u' [|g1 [|g2 [|g3 [|g4 s12]]]]]];
    try (apply Halone; [intros (? & ? & ? & ? & ? & ? & Heq & _); discriminate Heq
                       | exact Hscan]).
  destruct ((b =? BACKSLASH) && (u' =? chr "u")) eqn:Ebu.
  2:{ apply Halone; [|exact Hscan].
      intros (? & ? & ? & ? & ? & ? & Heq & _). injection Heq as -> -> _ _ _ _ _.
      discriminate Ebu. }
  destruct (unhex4 g1 g2 g3 g4) as [u2|] eqn:Hu2; [|discriminate].
  destruct (is_low_surrogate u2) eqn:Hlow2.
  2:{ apply Halone; [|exact Hscan].
      intros (? & ? & ? & ? & ? & u3 & Heq & Hu3 & Hl3).
      injection Heq as _ _ <- <- <- <- _. rewrite Hu2 in Hu3.
      injection Hu3 as <-. rewrite Hlow2 in Hl3. discriminate. }
  pose proof (join_surrogates_astral u u2) as [Hj1 Hj2].
  assert (Hs12 : Forall scalar s12).
  { do 6 (apply Forall_inv_tail in Hs6). exact Hs6. }
  destruct (Hrec (join_surrogates u u2) s12 x r) as (Hwf & Hr & t & ->);
    [cbn [length]; lia | exact Hs12 | lia | | exact Hscan |].
  { intros Hh. unfold is_high_surrogate in Hh. apply andb_prop in Hh as [_ Hh].
    apply N.leb_le in Hh. lia. }
  split; [exact Hwf|]. split; [exact Hr|]. cbn [head_low].
  unfold is_low_surrogate. intros Hl. apply andb_prop in Hl as [_ Hl].
  apply N.leb_le in Hl. lia.
Qed.

(** *** Values read by the scanner *)

Section Remainders.
Variable Q : N -> Prop.

Lemma skip_ws_Forall s : Forall Q s -> Forall Q (skip_ws s).
Proof.
  induction 1 as [|c s Hc Hs IH]; cbn [skip_ws]; [constructor|].
  destruct (is_ws c); [exact IH | constructor; assumption].
Qed.

Lemma strip_prefix_Forall p s r :
  strip_prefix p s = Some r -> Forall Q s -> Forall Q r.
Proof.
  revert s. induction p as [|a p IH]; intros s Hp Hs; cbn [strip_prefix] in Hp.
  - injection Hp as <-. exact Hs.
  - destruct s as [|b s]; [discriminate|]. destruct (a =? b); [|discriminate].
    apply (IH s Hp). apply Forall_inv_tail in Hs. exact Hs.
Qed.

Lemma span_digits_Forall s : Forall Q s -> Forall Q (snd (span_digits s)).
Proof.
  induction 1 as [|c s Hc Hs IH]; cbn [span_digits]; [constructor|].
  destruct (is_digit c); [|constructor; assumption].
  destruct (span_digits s). exact IH.
Qed.

Lemma scan_sign_Forall s : Forall Q s -> Forall Q (snd (scan_sign s)).
Proof.
  intros Hs. destruct s as [|c s]; cbn [scan_sign]; [exact Hs|].
  destruct (c =? chr "-"); [apply Forall_inv_tail in Hs|]; exact Hs.
Qed.

Lemma scan_int_part_Forall s ip r :
  scan_int_part s = Some (ip, r) -> Forall Q s -> Forall Q r.
Proof.
  destruct s as [|c s]; cbn [scan_int_part]; [discriminate|].
  intros Hscan Hs. apply Forall_inv_tail in Hs.
  destruct ((49 <=? c) && (c <=? 57)).
  - pose proof (span_digits_Forall s Hs) as Hr. destruct (span_digits s).
    injection Hscan as _ <-. exact Hr.
  - destruct (c =? 48); [|discriminate]. injection Hscan as _ <-. exact Hs.
Qed.

Lemma scan_frac_Forall s : Forall Q s -> Forall Q (snd (scan_frac s)).
Proof.
  intros Hs. destruct s as [|dot [|d s]]; cbn [scan_frac]; try exact Hs.
  destruct ((dot =? chr ".") && is_digit d); [|exact Hs].
  do 2 (apply Forall_inv_tail in Hs).
  pose proof (span_digits_Forall s Hs) as Hr. destruct (span_digits s). exact Hr.
Qed.

Lemma scan_exp_Forall s : Forall Q s -> Forall Q (snd (scan_exp s)).
Proof.
  intros Hs. destruct s as [|e s]; cbn [scan_exp]; [exact Hs|].
  destruct ((e =? chr "e") || (e =? chr "E")); [|exact Hs].
  pose proof (Forall_inv_tail Hs) as Hs'.
  destruct s as [|c u].
  - cbn [span_digits]. exact Hs.
  - destruct ((c =? chr "-") || (c =? chr "+")).
    + pose proof (span_digits_Forall u (Forall_inv_tail Hs')) as Hr.
      destruct (span_digits u) as [[|d ds] r]; [exact Hs | exact Hr].
    + pose proof (span_digits_Forall (c :: u) Hs') as Hr.
      destruct (span_digits (c :: u)) as [[|d ds] r]; [exact Hs | exact Hr].
Qed.

Lemma scan_number_Forall s lit is_float r :
  scan_number s = Some (lit, is_float, r) -> Forall Q s -> Forall Q r.
Proof.
  unfold scan_number. intros Hscan Hs.
  pose proof (scan_sign_Forall s Hs) as H1. destruct (scan_sign s) as [sign s1].
  cbn [snd] in H1.
  destruct (scan_int_part s1) as [[ip r1]|] eqn:Hip; [|discriminate].
  pose proof (scan_int_part_Forall _ _ _ Hip H1) as H2.
  pose proof (scan_frac_Forall r1 H2) as H3. destruct (scan_frac r1) as [frac r2].
  cbn [snd] in H3.
  pose proof (scan_exp_Forall r2 H3) as H4. destruct (scan_exp r2) as [exp r3].
  cbn [snd] in H4. injection Hscan as _ _ <-. exact H4.
Qed.

End Remainders.

Lemma dict_set_keys k v d x :
  In x (map fst (dict_set k v d)) -> x = k \/ In x (map fst d).
Proof.
  induction d as [|[k' v'] r IH]; cbn [dict_set map fst In].
  - intros [<- | []]. left. reflexivity.
  - destruct (str_eqb k k'); cbn [map fst In]; [tauto|].
    intros [<- | Hin]; [tauto|]. destruct (IH Hin); tauto.
Qed.

Lemma dict_set_ok k v d :
  well_formed_str k = true -> well_formed v = true -> dict_ok d ->
  dict_ok (dict_set k v d).
Proof.
  intros Hk Hv. unfold dict_ok. induction d as [|[k' v'] r IH]; intros [Hd Hnd].
  - cbn [dict_set map fst]. split.
    + constructor; [split; assumption | constructor].
    + constructor; [intros [] | constructor].
  - inversion Hd as [|? ? [Hk' Hv'] Hr]; subst.
    cbn [map fst] in Hnd. inversion Hnd as [|? ? Hfresh Hnd']; subst.
    cbn [dict_set]. destruct (str_eqb k k') eqn:E.
    + split; [constructor; [split; assumption | exact Hr] | exact Hnd].
    + destruct (IH (conj Hr Hnd')) as [IH1 IH2]. split.
      * constructor; [split; assumption | exact IH1].
      * cbn [map fst]. constructor; [|exact IH2].
        intros Hin. apply dict_set_keys in Hin as [-> | Hin]; [|exact (Hfresh Hin)].
        rewrite str_eqb_refl in E. discriminate.
Qed.

Lemma dict_of_pairs_ok items acc :
  Forall (fun kv => well_formed_str (fst kv) = true /\ well_formed (snd kv) = true) items ->
  dict_ok acc ->
  dict_ok (fold_left (fun d kv => dict_set (fst kv) (snd kv) d) items acc).
Proof.
  intros Hitems. revert acc.
  induction Hitems as [|kv items [Hk Hv] _ IH]; intros acc Hacc; cbn [fold_left];
    [exact Hacc|].
  apply IH. apply dict_set_ok; assumption.
Qed.

Lemma dict_ok_well_formed d : dict_ok d -> well_formed (PyDict d) = true.
Proof.
  intros [Hd Hnd]. cbn [well_formed]. apply andb_true_intro. split.
  - apply List.forallb_forall. rewrite List.Forall_forall in Hd.
    intros kv Hkv. destruct (Hd kv Hkv) as [Hk Hv]. rewrite Hk, Hv. reflexivity.
  - apply distinct_keys_NoDup. exact Hnd.
Qed.

Section ScannerOutput.
Context `{FloatConv}.

Lemma array_items_well scan n :
  scans_well scan ->
  forall s vs r,
    Forall scalar s -> array_items scan n s = Some (vs, r) ->
    Forall (fun v => well_formed v = true) vs /\ Forall scalar r.
Proof.
  intros Hscan. induction n as [|n IH]; intros s vs r Hs Hitems; [discriminate|].
  cbn [array_items] in Hitems.
  destruct (scan s) as [[v r1]|] eqn:Hv; [|discriminate].
  destruct (Hscan _ _ _ Hs Hv) as [Hwf Hr1].
  pose proof (skip_ws_Forall scalar r1 Hr1) as Hr1'.
  destruct (skip_ws r1) as [|c r2]; [discriminate|].
  pose proof (Forall_inv_tail Hr1') as Hr2.
  destruct (c =? chr "]").
  - injection Hitems as <- <-. split; [constructor; [exact Hwf | constructor] | exact Hr2].
  - destruct (c =? chr ","); [|discriminate].
    destruct (array_items scan n (skip_ws r2)) as [[vs' r3]|] eqn:Hrest; [|discriminate].
    injection Hitems as <- <-.
    destruct (IH _ _ _ (skip_ws_Forall scalar r2 Hr2) Hrest) as [Hvs Hr3].
    split; [constructor; assumption | exact Hr3].
Qed.

Lemma object_items_well scan n :
  scans_well scan ->
  forall s kvs r,
    Forall scalar s -> object_items scan n s = Some (kvs, r) ->
    Forall (fun kv => well_formed_str (fst kv) = true /\ well_formed (snd kv) = true) kvs
    /\ Forall scalar r.
Proof.
  intros Hscan. induction n as [|n IH]; intros s kvs r Hs Hitems; [discriminate|].
  cbn [object_items] in Hitems.
  destruct s as [|q s1]; [discriminate|]. destruct (q =? QUOTE); [|discriminate].
  pose proof (Forall_inv_tail Hs) as Hs1.
  destruct (scanstring s1) as [[k r1]|] eqn:Hk; [|discriminate].
  destruct (scanstring_well_formed _ _ _ Hs1 Hk) as (Hwfk & Hr1 & _).
  pose proof (skip_ws_Forall scalar r1 Hr1) as Hr1'.
  destruct (skip_ws r1) as [|colon r2]; [discriminate|].
  pose proof (Forall_inv_tail Hr1') as Hr2.
  destruct (colon =? chr ":"); [|discriminate].
  destruct (scan (skip_ws r2)) as [[v r3]|] eqn:Hv; [|discriminate].
  destruct (Hscan _ _ _ (skip_ws_Forall scalar r2 Hr2) Hv) as [Hwfv Hr3].
  pose proof (skip_ws_Forall scalar r3 Hr3) as Hr3'.
  destruct (skip_ws r3) as [|c r4]; [discriminate|].
  pose proof (Forall_inv_tail Hr3') as Hr4.
  destruct (c =? chr "}").
  - injection Hitems as <- <-.
    split; [constructor; [split; assumption | constructor] | exact Hr4].
  - destruct (c =? chr ","); [|discriminate].
    destruct (object_items scan n (skip_ws r4)) as [[kvs' r5]|] eqn:Hrest; [|discriminate].
    injection Hitems as <- <-.
    destruct (IH _ _ _ (skip_ws_Forall scalar r4 Hr4) Hrest) as [Hkvs Hr5].
    split; [constructor; [split; assumption | exact Hkvs] | exact Hr5].
Qed.

Lemma scan_constant_well : scans_well scan_constant.
Proof.
  intros s v r Hs. unfold scan_constant.
  repeat match goal with
         | |- context [strip_prefix ?p s] =>
             let E := fresh "E" in
             destruct (strip_prefix p s) as [r'|] eqn:E;
             [intros [= <- <-]; split;
              [reflexivity | exact (strip_prefix_Forall scalar _ _ _ E Hs)]|]
         end.
  discriminate.
Qed.

Lemma scan_number_value_well : scans_well scan_number_value.
Proof.
  intros s v r Hs. unfold scan_number_value.
  destruct (scan_number s) as [[[lit [|]] r']|] eqn:Hscan; [| |discriminate];
    intros [= <- <-]; (split; [reflexivity|]);
    exact (scan_number_Forall scalar _ _ _ _ Hscan Hs).
Qed.

(** On text made of scalar values, [scan_once] builds well-formed
    values. *)
Lemma scan_once_well fuel : scans_well (scan_once fuel).
Proof.
  induction fuel as [|fuel IH]; intros s v r Hs Hscan; [discriminate|].
  cbn [scan_once] in Hscan. destruct s as [|c s1]; [discriminate|].
  pose proof (Forall_inv_tail Hs) as Hs1.
  destruct (c =? QUOTE).
  { destruct (scanstring s1) as [[x r']|] eqn:Hx; [|discriminate].
    injection Hscan as <- <-.
    destruct (scanstring_well_formed _ _ _ Hs1 Hx) as (Hwf & Hr & _).
    split; [exact Hwf | exact Hr]. }
  destruct (c =? chr "{").
  { pose proof (skip_ws_Forall scalar s1 Hs1) as Hs1'.
    destruct (skip_ws s1) as [|c' r'] eqn:Hskip; [discriminate|].
    destruct (c' =? chr "}").
    - injection Hscan as <- <-. split; [reflexivity | exact (Forall_inv_tail Hs1')].
    - destruct (object_items (scan_once fuel) (length s1) (c' :: r'))
        as [[kvs r'']|] eqn:Hitems; [|discriminate].
      injection Hscan as <- <-.
      destruct (object_items_well _ _ IH _ _ _ Hs1' Hitems) as [Hkvs Hr].
      split; [|exact Hr]. apply dict_ok_well_formed.
      apply dict_of_pairs_ok; [exact Hkvs|].
      split; [constructor | constructor]. }
  destruct (c =? chr "[").
  { pose proof (skip_ws_Forall scalar s1 Hs1) as Hs1'.
    destruct (skip_ws s1) as [|c' r'] eqn:Hskip; [discriminate|].
    destruct (c' =? chr "]").
    - injection Hscan as <- <-. split; [reflexivity | exact (Forall_inv_tail Hs1')].
    - destruct (array_items (scan_once fuel) (length s1) (c' :: r'))
        as [[vs r'']|] eqn:Hitems; [|discriminate].
      injection Hscan as <- <-.
      destruct (array_items_well _ _ IH _ _ _ Hs1' Hitems) as [Hvs Hr].
      split; [|exact Hr]. cbn [well_formed]. apply List.forallb_forall.
      rewrite List.Forall_forall in Hvs. exact Hvs. }
  destruct (scan_constant (c :: s1)) as [res|] eqn:Hconst.
  - injection Hscan as ->. exact (scan_constant_well _ _ _ Hs Hconst).
  - exact (scan_number_value_well _ _ _ Hs Hscan).
Qed.

(** Every event that the deserializer yields is well formed. *)
Theorem deserialized_well_formed message event :
  value_deserializer message = inr event -> well_formed event = true.
Proof.
  unfold value_deserializer. destruct message as [bytes|]; [|discriminate].
  destruct (decode bytes) as [text|] eqn:Hdec; [|discriminate].
  destruct (loads text) as [v|] eqn:Hloads; [|discriminate].
  intros [= <-]. pose proof (decode_scalars _ _ Hdec) as Htext.
  unfold loads in Hloads. destruct (strip_prefix [65279] text); [discriminate|].
  destruct (scan_once (S (length (skip_ws text))) (skip_ws text)) as [[v' r]|] eqn:Hscan;
    [|discriminate].
  destruct (skip_ws r); [|discriminate]. injection Hloads as ->.
  exact (proj1 (scan_once_well _ _ _ _ (skip_ws_Forall scalar _ Htext) Hscan)).
Qed.

End ScannerOutput.

(** *** C2 *)

Section EventsReadBack.
Context `{FloatConv}.

Lemma scan_number_chars s lit is_float r :
  scan_number s = Some (lit, is_float, r) -> Forall printable lit.
Proof.
  assert (Hdigit : forall c, is_digit c = true -> printable c).
  { unfold is_digit, printable. intros c Hc. apply andb_prop in Hc as [H1 H2].
    apply N.leb_le in H1, H2. lia. }
  assert (Hspan : forall t, Forall printable (fst (span_digits t))).
  { induction t as [|c t IH]; cbn [span_digits]; [constructor|].
    destruct (is_digit c) eqn:Hc; [|constructor].
    destruct (span_digits t). cbn [fst] in *. constructor; [apply Hdigit; exact Hc | exact IH]. }
  unfold scan_number.
  destruct (scan_sign s) as [sign s1] eqn:Hsign.
  destruct (scan_int_part s1) as [[ip r1]|] eqn:Hip; [|discriminate].
  destruct (scan_frac r1) as [frac r2] eqn:Hfrac.
  destruct (scan_exp r2) as [exp r3] eqn:Hexp.
  intros [= <- _ _].
  repeat apply Forall_app_2.
  - unfold scan_sign in Hsign. destruct s as [|c s]; [injection Hsign as <- _; constructor|].
    destruct (c =? chr "-") eqn:Hc; injection Hsign as <- _; [|constructor].
    apply N.eqb_eq in Hc. subst c. printable_literal.
  - unfold scan_int_part in Hip. destruct s1 as [|c t]; [discriminate|].
    destruct ((49 <=? c) && (c <=? 57)) eqn:Hc.
    + pose proof (Hspan t) as Ht. destruct (span_digits t). injection Hip as <- _.
      constructor; [|exact Ht]. apply andb_prop in Hc as [H1 H2].
      apply N.leb_le in H1, H2. unfold printable. lia.
    + destruct (c =? 48) eqn:Hz; [|discriminate]. injection Hip as <- _.
      apply N.eqb_eq in Hz. subst c. printable_literal.
  - unfold scan_frac in Hfrac. destruct r1 as [|dot [|d t]];
      try (injection Hfrac as <- _; constructor).
    destruct ((dot =? chr ".") && is_digit d) eqn:Hc;
      [|injection Hfrac as <- _; constructor].
    pose proof (Hspan t) as Ht. destruct (span_digits t). injection Hfrac as <- _.
    apply andb_prop in Hc as [Hdot Hd]. apply N.eqb_eq in Hdot. subst dot.
    constructor; [unfold printable, chr; simpl; lia|].
    constructor; [apply Hdigit; exact Hd | exact Ht].
  - unfold scan_exp in Hexp. destruct r2 as [|e t]; [injection Hexp as <- _; constructor|].
    destruct ((e =? chr "e") || (e =? chr "E")) eqn:He;
      [|injection Hexp as <- _; constructor].
    assert (Hpe : printable e).
    { apply orb_prop in He as [He|He]; apply N.eqb_eq in He; subst e;
        unfold printable, chr; simpl; lia. }
    destruct t as [|c u].
    + cbn [span_digits] in Hexp. injection Hexp as <- _. constructor.
    + destruct ((c =? chr "-") || (c =? chr "+")) eqn:Hc.
      * pose proof (Hspan u) as Hu. destruct (span_digits u) as [[|d ds] r'];
          injection Hexp as <- _; [constructor|].
        constructor; [exact Hpe|]. constructor; [|exact Hu].
        apply orb_prop in Hc as [Hc|Hc]; apply N.eqb_eq in Hc; subst c;
          unfold printable, chr; simpl; lia.
      * pose proof (Hspan (c :: u)) as Hu.
        destruct (span_digits (c :: u)) as [[|d ds] r'];
          injection Hexp as <- _; [constructor|].
        constructor; [exact Hpe | exact Hu].
Qed.

Lemma encode_float_printable f : float_round_trips f -> Forall printable (encode_float f).
Proof.
  intros Hf. pose proof (scan_number_encode_float f Hf) as Hscan.
  destruct f as [s|[|]| |s m e]; try (cbn; printable_literal);
    exact (scan_number_chars _ _ _ _ Hscan).
Qed.

(** The text of a value whose floats round-trip is printable ASCII. *)
Lemma dumps_printable v :
  Forall float_round_trips (floats v) -> Forall printable (dumps v).
Proof.
  intros Hf. apply dumps_chars; [trivial|].
  eapply Forall_impl; [exact Hf|]. apply encode_float_printable.
Qed.

Lemma body_of_single e :
  Forall float_round_trips (floats e) -> body_of [e] = map byte_of (dumps e).
Proof.
  intros Hf. pose proof (encode_dumps e) as He.
  rewrite encode_ascii in He.
  - injection He as He. symmetry. exact He.
  - eapply Forall_impl; [apply dumps_printable; exact Hf|].
    unfold printable. cbv beta. intros c Hc. lia.
Qed.

Lemma body_of_single_no_newline e :
  Forall float_round_trips (floats e) -> ~ In x0a (body_of [e]).
Proof.
  intros Hf. rewrite body_of_single by exact Hf. intros Hin.
  apply in_map_iff in Hin as (c & Hc & Hin).
  pose proof (dumps_printable e Hf) as Hp. rewrite List.Forall_forall in Hp.
  specialize (Hp c Hin). unfold printable in Hp.
  pose proof (byte_of_to_N c ltac:(lia)) as Hb. rewrite Hc in Hb. cbn in Hb. lia.
Qed.

(** The deserializer reads an event back from its line. *)
Lemma deserialize_line e :
  well_formed e = true ->
  Forall float_round_trips (floats e) ->
  value_deserializer (Some (body_of [e])) = inr e.
Proof.
  intros Hwf Hf. unfold value_deserializer.
  rewrite body_of_single by exact Hf. rewrite decode_ascii.
  - rewrite loads_dumps by assumption. reflexivity.
  - eapply Forall_impl; [apply dumps_printable; exact Hf|].
    unfold printable. cbv beta. intros c Hc. lia.
Qed.

Lemma line_printable e :
  Forall (fun f => Forall printable (encode_float f)) (floats e) ->
  body_of [e] = map byte_of (dumps e) /\ Forall printable_byte (body_of [e]).
Proof.
  intros Hf.
  assert (Hp : Forall printable (dumps e)) by (apply dumps_chars; trivial).
  assert (Hline : body_of [e] = map byte_of (dumps e)).
  { pose proof (encode_dumps e) as He. rewrite encode_ascii in He.
    - injection He as He. symmetry. exact He.
    - eapply Forall_impl; [exact Hp|]. unfold printable. cbv beta. intros c Hc. lia. }
  split; [exact Hline|]. rewrite Hline. apply Forall_map.
  eapply Forall_impl; [exact Hp|]. unfold printable, printable_byte. cbv beta.
  intros c Hc. rewrite byte_of_to_N by lia. exact Hc.
Qed.


(** When the floats are written in printable ASCII, the lines of a body
    are the lines of its events. *)
Lemma body_lines (b : list pyvalue) :
  b <> [] ->
  Forall (fun e => Forall (fun f => Forall printable (encode_float f)) (floats e)) b ->
  split_lines (body_of b) = map (fun e => body_of [e]) b.
Proof.
  intros Hne Hb. pose proof (encode_json_data b) as Hbody. rewrite encode_lines in Hbody.
  injection Hbody as <-. apply split_lines_join.
  - destruct b; [congruence | discriminate].
  - apply Forall_map. eapply Forall_impl; [exact Hb|]. cbv beta. intros e He Hin.
    pose proof (proj2 (line_printable e He)) as Hp. rewrite List.Forall_forall in Hp.
    specialize (Hp _ Hin). unfold printable_byte in Hp. cbn in Hp. lia.
Qed.

(** C2, as the code has it. A flushed batch [b] holds the events that the
    deserializer built from the records consumed, and the runtime writes
    floats in printable ASCII. Then the lines of the body written are, in
    order, the lines of the events; and for each event on whose finite
    floats the float conversions of the runtime agree, the deserializer
    reads from its line the event itself, which is equal to itself under
    [==] when it holds no NaN, whatever the other events of the batch
    hold. The body is the one that is uploaded: the iteration on which a
    record brings the batch to the threshold writes the body of the
    batch, the new event included. *)
Theorem C2_events_read_back w c :
  (forall (messages : list (option (list byte))) (b : list pyvalue),
     b <> [] ->
     Forall2 (fun m e => value_deserializer m = inr e) messages b ->
     Forall (fun e => Forall (fun f => Forall printable (encode_float f)) (floats e)) b ->
     Forall2 (fun e line =>
                line = body_of [e]
                /\ (Forall float_round_trips (floats e) ->
                    value_deserializer (Some line) = inr e
                    /\ (no_nan e = true -> py_eq e e = true)))
       b (split_lines (body_of b)))
  /\ (forall m st event,
        value_deserializer m = inr event ->
        (BATCH_SIZE c <= Z.of_nat (length (batch st ++ [event])))%Z ->
        let now := clock w (count is_utcnow (trace st)) in
        trace (final (on_message w c m st))
        = trace st ++ [utcnow now;
                       put_object (MINIO_BUCKET c) (file_path now)
                         (body_of (batch st ++ [event]))]).
Proof.
  split; [|exact (on_message_flush_trace w c)].
  intros messages b Hne Hread Hp. rewrite (body_lines b Hne Hp). clear Hne.
  induction Hread as [|m e ms es Hm _ IH]; [constructor|].
  inversion Hp as [|? ? _ Hrest]; subst.
  cbn [map]. constructor; [|exact (IH Hrest)].
  split; [reflexivity|]. intros Hf.
  pose proof (deserialized_well_formed m e Hm) as Hwf.
  split; [apply deserialize_line; assumption|].
  intros Hn. apply py_eq_refl; assumption.
Qed.


End EventsReadBack.

(** ** The theorems at concrete inputs *)


Lemma C3_witness :
  let c := sample_config 2 in
  let st := {| batch := [id_event 1; id_event 2]; trace := [] |} in
  let now := clock quiet_world 0 in
  wall_clock_time now = true
  /\ trace (final (flush (H := sample_floats) quiet_world c st))
     = [utcnow now;
        put_object (Some "lake")
          "bronze/date=2024-03-07/hour=09/spotify_events_2024-03-07T09-05-00.json"
          (body_of (H := sample_floats) [id_event 1; id_event 2])]
  /\ String.length (file_path now) = 70%nat.
Proof.
  intros c st now.
  assert (Hw : wall_clock_time now = true) by reflexivity.
  destruct (C3_object_key_from_flush_time (H := sample_floats) quiet_world c)
    as (Hformat & Hflush & _ & _).
  destruct (Hformat now Hw) as [Hpath Hlen].
  split; [exact Hw|]. split; [|exact Hlen].
  rewrite (Hflush st). cbn [trace st app].
  change (clock quiet_world (count is_utcnow [])) with now.
  rewrite Hpath. vm_compute. reflexivity.
Defined.


Lemma C7_witness :
  let c := sample_config 2 in
  let st1 := {| batch := [id_event 1]; trace := [] |} in
  let now := clock refusing_store 0 in
  consume (H := sample_floats) refusing_store c [id_record 1] initial = Returned tt st1
  /\ value_deserializer (H := sample_floats) (id_record 2) = inr (id_event 2)
  /\ (BATCH_SIZE c <= Z.of_nat (length (batch st1 ++ [id_event 2])))%Z
  /\ put_object_raises refusing_store (count is_put (trace st1))
     = Some (ClientError "AccessDenied")
  /\ consume (H := sample_floats) refusing_store c
       ([id_record 1] ++ id_record 2 :: [id_record 3]) initial
     = Raised (ClientError "AccessDenied")
         {| batch := [id_event 1; id_event 2];
            trace := [utcnow now;
                      put_object (MINIO_BUCKET c) (file_path now)
                        (body_of (H := sample_floats) [id_event 1; id_event 2])] |}.
Proof.
  intros c st1 now.
  assert (Hpre : consume (H := sample_floats) refusing_store c [id_record 1] initial
                 = Returned tt st1) by (vm_compute; reflexivity).
  assert (Hm : value_deserializer (H := sample_floats) (id_record 2) = inr (id_event 2))
    by (vm_compute; reflexivity).
  assert (Hsize : (BATCH_SIZE c <= Z.of_nat (length (batch st1 ++ [id_event 2])))%Z)
    by (vm_compute; discriminate).
  assert (Hput : put_object_raises refusing_store (count is_put (trace st1))
                 = Some (ClientError "AccessDenied")) by reflexivity.
  split; [exact Hpre|]. split; [exact Hm|]. split; [exact Hsize|]. split; [exact Hput|].
  exact (proj1 (proj2 (C7_batch_kept_when_write_fails (H := sample_floats)
                         refusing_store c)
                  [id_record 1] (id_record 2) [id_record 3] initial st1
                  (id_event 2) (ClientError "AccessDenied") Hpre Hm Hsize Hput)).
Defined.



Lemma C8_witness :
  let c := sample_config 2 in
  let messages := [id_record 1; id_record 2; id_record 3] in
  let st := final (consume (H := sample_floats) quiet_world c messages initial) in
  (1 <= BATCH_SIZE c)%Z
  /\ consume (H := sample_floats) quiet_world c messages initial = Returned tt st
  /\ (Z.of_nat (length (batch st)) < BATCH_SIZE c)%Z.
Proof.
  intros c messages st.
  assert (Hsize : (1 <= BATCH_SIZE c)%Z) by (vm_compute; discriminate).
  assert (Hrun : consume (H := sample_floats) quiet_world c messages initial
                 = Returned tt st) by (vm_compute; reflexivity).
  split; [exact Hsize|]. split; [exact Hrun|].
  exact (proj1 (C8_batch_below_threshold (H := sample_floats) quiet_world c initial
                  Hsize eq_refl) messages st Hrun).
Defined.

Lemma C10_witness :
  let c := sample_config (-3) in
  let messages := [id_record 1; id_record 2] in
  let events := [id_event 1; id_event 2] in
  let st := final (consume (H := sample_floats) quiet_world c messages initial) in
  configure (full_env "-3") initial = Returned c initial
  /\ (BATCH_SIZE c <= 1)%Z
  /\ Forall2 (fun m e => value_deserializer (H := sample_floats) m = inr e) messages events
  /\ consume (H := sample_floats) quiet_world c messages initial = Returned tt st
  /\ batch st = []
  /\ count is_put (trace st) = 2%nat.
Proof.
  intros c messages events st.
  assert (Hsize : (BATCH_SIZE c <= 1)%Z) by (vm_compute; discriminate).
  assert (Hev : Forall2 (fun m e => value_deserializer (H := sample_floats) m = inr e)
                  messages events)
    by (repeat constructor; vm_compute; reflexivity).
  assert (Hrun : consume (H := sample_floats) quiet_world c messages initial
                 = Returned tt st) by (vm_compute; reflexivity).
  destruct (C10_threshold_at_most_one (H := sample_floats)
              quiet_world c messages events initial st Hsize eq_refl Hev Hrun)
    as (Hb & _ & Hputs & _).
  split; [vm_compute; reflexivity|]. split; [exact Hsize|]. split; [exact Hev|].
  split; [exact Hrun|]. split; [exact Hb | exact Hputs].
Defined.

Lemma C9_witness :
  getenv (full_env "ten") "BATCH_SIZE" = Some "ten"%string
  /\ py_int "ten" = None
  /\ main (H := sample_floats) quiet_world (full_env "ten") [id_record 1]
     = Raised (InvalidLiteral "ten") initial.
Proof.
  split; [reflexivity|]. split; [reflexivity|].
  apply (C9_invalid_batch_size_fails_first (H := sample_floats)
           quiet_world (full_env "ten") [id_record 1] "ten");
    reflexivity.
Defined.

(** C2 as stated fails on NaN: the record [NaN] is deserialized to the
    float NaN, which is written back as the line [NaN]; the deserializer
    reads NaN from that line, and NaN is not equal to NaN. *)
Lemma C2_counterexample :
  value_deserializer (H := sample_floats) (payload "NaN") = inr (PyFloat S754_nan)
  /\ split_lines (body_of (H := sample_floats) [PyFloat S754_nan])
     = [body_of (H := sample_floats) [PyFloat S754_nan]]
  /\ Some (body_of (H := sample_floats) [PyFloat S754_nan]) = payload "NaN"
  /\ value_deserializer (H := sample_floats)
       (Some (body_of (H := sample_floats) [PyFloat S754_nan]))
     = inr (PyFloat S754_nan)
  /\ py_eq (PyFloat S754_nan) (PyFloat S754_nan) = false.
Proof. repeat split; vm_compute; reflexivity. Qed.

Lemma C2_witness :
  let b := [PyFloat S754_nan; id_event 1;
            PyList [PyFloat (S754_finite false 4503599627370496 (-53));
                    PyStr [233; 0x1F600; 10]; PyNone; PyBool true]] in
  let messages := map (fun e => Some (body_of (H := sample_floats) [e])) b in
  Forall2 (fun m e => value_deserializer (H := sample_floats) m = inr e) messages b
  /\ Forall (fun e => Forall (fun f => Forall printable
                                         (encode_float (H := sample_floats) f))
                        (floats e)) b
  /\ Forall2 (fun e line =>
                line = body_of (H := sample_floats) [e]
                /\ (Forall (float_round_trips (H := sample_floats)) (floats e) ->
                    value_deserializer (H := sample_floats) (Some line) = inr e
                    /\ (no_nan e = true -> py_eq e e = true)))
       b (split_lines (body_of (H := sample_floats) b))
  /\ no_nan (id_event 1) = true
  /\ Forall (float_round_trips (H := sample_floats)) (floats (id_event 1)).
Proof.
  intros b messages.
  assert (Hread : Forall2 (fun m e => value_deserializer (H := sample_floats) m = inr e)
                    messages b).
  { repeat constructor. }
  assert (Hp : Forall (fun e => Forall (fun f => Forall printable
                                                   (encode_float (H := sample_floats) f))
                                  (floats e)) b).
  { repeat constructor; vm_compute; discriminate. }
  split; [exact Hread|]. split; [exact Hp|]. split; [|split; [reflexivity|constructor]].
  apply (proj1 (C2_events_read_back (H := sample_floats) quiet_world (sample_config 2))
           messages b); [discriminate | exact Hread | exact Hp].
Defined.

(** * Further properties of the script *)

(** ** Configuration *)

(** *** [int] on numerals *)










(** *** [int] on other text *)

Lemma int_char_space c : is_int_space c = true -> int_char c = true.
Proof. unfold int_char. intros ->. reflexivity. Qed.

Lemma skip_int_space_text s :
  int_text (skip_int_space s) -> int_text s.
Proof.
  unfold int_text. induction s as [|c s IH]; cbn [skip_int_space]; [trivial|].
  destruct (is_int_space c) eqn:Hc; [|trivial].
  intros Hs. cbn [list_ascii_of_string]. constructor; [apply int_char_space; exact Hc|].
  exact (IH Hs).
Qed.

Lemma skip_int_space_digit s : has_digit (skip_int_space s) -> has_digit s.
Proof.
  unfold has_digit. induction s as [|c s IH]; cbn [skip_int_space]; [trivial|].
  destruct (is_int_space c); [|trivial].
  intros Hs. cbn [list_ascii_of_string]. apply Exists_cons_tl. exact (IH Hs).
Qed.

Lemma skip_int_space_empty s : skip_int_space s = EmptyString -> int_text s.
Proof.
  intros Hs. apply skip_int_space_text. rewrite Hs. constructor.
Qed.

Lemma scan_int_digits_text s b acc n rest :
  scan_int_digits s b acc = Some (n, rest) ->
  (int_text rest -> int_text s) /\ (b = false -> has_digit s).
Proof.
  revert b acc. induction s as [|c s IH]; intros b acc; cbn [scan_int_digits].
  - destruct b; [|discriminate]. intros [= <- <-]. split; [trivial | discriminate].
  - destruct (digit_value c) as [d|] eqn:Hd.
    + intros Hscan. destruct (IH _ _ Hscan) as [IH1 _]. split.
      * intros Hrest. unfold int_text in *. cbn [list_ascii_of_string].
        constructor; [|exact (IH1 Hrest)]. unfold int_char. rewrite Hd.
        rewrite orb_true_r. reflexivity.
      * intros _. unfold has_digit. cbn [list_ascii_of_string].
        apply Exists_cons_hd. rewrite Hd. discriminate.
    + destruct (Ascii.eqb c "_") eqn:Hu.
      * destruct b; [|discriminate]. intros Hscan.
        destruct (IH _ _ Hscan) as [IH1 _]. split; [|discriminate].
        intros Hrest. unfold int_text in *. cbn [list_ascii_of_string].
        constructor; [|exact (IH1 Hrest)]. unfold int_char. rewrite Hu.
        rewrite !orb_true_r. reflexivity.
      * destruct b; [|discriminate]. intros [= <- <-]. split; [trivial | discriminate].
Qed.

Lemma py_int_text s z : py_int s = Some z -> int_text s /\ has_digit s.
Proof.
  unfold py_int.
  destruct (match skip_int_space s with
            | String c rest =>
                if Ascii.eqb c "-" then (true, rest)
                else if Ascii.eqb c "+" then (false, rest) else (false, skip_int_space s)
            | EmptyString => (false, skip_int_space s)
            end) as [negative s2] eqn:Hsign.
  destruct (scan_int_digits s2 false 0) as [[n rest]|] eqn:Hscan; [|discriminate].
  destruct (Nat.ltb int_max_str_digits (run_digits s2)); [discriminate|].
  destruct (skip_int_space rest) eqn:Hrest; [|discriminate]. intros _.
  destruct (scan_int_digits_text _ _ _ _ _ Hscan) as [Htext Hdigit].
  specialize (Htext (skip_int_space_empty _ Hrest)). specialize (Hdigit eq_refl).
  assert (Hs1 : int_text (skip_int_space s) /\ has_digit (skip_int_space s)).
  { destruct (skip_int_space s) as [|c r]; [injection Hsign as _ <-; auto|].
    destruct (Ascii.eqb c "-") eqn:Hm; [|destruct (Ascii.eqb c "+") eqn:Hp].
    - injection Hsign as _ <-. split.
      + unfold int_text. cbn [list_ascii_of_string]. constructor; [|exact Htext].
        unfold int_char. rewrite Hm. rewrite !orb_true_r. reflexivity.
      + unfold has_digit. cbn [list_ascii_of_string]. apply Exists_cons_tl. exact Hdigit.
    - injection Hsign as _ <-. split.
      + unfold int_text. cbn [list_ascii_of_string]. constructor; [|exact Htext].
        unfold int_char. rewrite Hp. rewrite !orb_true_r. reflexivity.
      + unfold has_digit. cbn [list_ascii_of_string]. apply Exists_cons_tl. exact Hdigit.
    - injection Hsign as _ <-. auto. }
  destruct Hs1 as [H1 H2]. split; [apply skip_int_space_text | apply skip_int_space_digit];
    assumption.
Qed.

Section ConfigurationExtras.
Context `{FloatConv}.

(** X1. The configuration is accepted exactly when the seven required
    settings are set (to any text, the empty text included) and
    [BATCH_SIZE] is unset or is text that [int] accepts. It then holds the
    settings of the environment as they are, none of them [None], and the
    threshold read, 10 when [BATCH_SIZE] is unset; nothing else changes. *)
Theorem X1_configuration_accepted env st c st' :
  configure env st = Returned c st' <->
  st' = st
  /\ Forall (fun k => is_Some (getenv env k)) required_names
  /\ match getenv env "BATCH_SIZE" with
     | None => BATCH_SIZE c = 10%Z
     | Some s => py_int s = Some (BATCH_SIZE c)
     end
  /\ MINIO_BUCKET c = getenv env "MINIO_BUCKET"
  /\ MINIO_ENDPOINT c = getenv env "MINIO_ENDPOINT"
  /\ MINIO_ACCESS_KEY c = getenv env "MINIO_ACCESS_KEY"
  /\ MINIO_SECRET_KEY c = getenv env "MINIO_SECRET_KEY"
  /\ KAFKA_TOPIC c = getenv env "KAFKA_TOPIC"
  /\ KAFKA_BOOTSTRAP_SERVER c = getenv env "KAFKA_BOOTSTRAP_SERVER"
  /\ KAFKA_GROUP_ID c = getenv env "KAFKA_GROUP_ID".
Proof.
  assert (Hmissing : forall n,
            missing_vars
              {| MINIO_BUCKET := getenv env "MINIO_BUCKET";
                 MINIO_ENDPOINT := getenv env "MINIO_ENDPOINT";
                 MINIO_ACCESS_KEY := getenv env "MINIO_ACCESS_KEY";
                 MINIO_SECRET_KEY := getenv env "MINIO_SECRET_KEY";
                 KAFKA_TOPIC := getenv env "KAFKA_TOPIC";
                 KAFKA_BOOTSTRAP_SERVER := getenv env "KAFKA_BOOTSTRAP_SERVER";
                 KAFKA_GROUP_ID := getenv env "KAFKA_GROUP_ID";
                 BATCH_SIZE := n |} = []
            <-> Forall (fun k => is_Some (getenv env k)) required_names).
  { intros n. rewrite missing_vars_filter.
    induction required_names as [|k names IH]; cbn [List.filter].
    - split; [constructor | reflexivity].
    - destruct (getenv env k) as [v|] eqn:Hk; cbn [is_None].
      + rewrite IH. split; [constructor; [rewrite Hk; eexists; reflexivity | assumption]|].
        intros Hall. inversion Hall; assumption.
      + split; [discriminate|]. intros Hall. inversion Hall as [|? ? [v Hv] _].
        congruence. }
  unfold configure, bind, read_batch_size. split.
  - destruct (getenv env "BATCH_SIZE") as [s|].
    + destruct (py_int s) as [n|]; [|discriminate]. unfold ret.
      destruct (missing_vars _) eqn:Hm; [|discriminate]. intros [= <- <-].
      apply Hmissing in Hm. cbn. repeat split; try reflexivity. exact Hm.
    + unfold ret. destruct (missing_vars _) eqn:Hm; [|discriminate]. intros [= <- <-].
      apply Hmissing in Hm. cbn. repeat split; try reflexivity. exact Hm.
  - intros (-> & Hall & Hsize & H1 & H2 & H3 & H4 & H5 & H6 & H7).
    destruct c as [c1 c2 c3 c4 c5 c6 c7 n]. cbn in Hsize, H1, H2, H3, H4, H5, H6, H7.
    subst c1 c2 c3 c4 c5 c6 c7.
    destruct (getenv env "BATCH_SIZE") as [s|].
    + rewrite Hsize. unfold ret. rewrite (proj2 (Hmissing n) Hall). reflexivity.
    + subst n. unfold ret. rewrite (proj2 (Hmissing 10%Z) Hall). reflexivity.
Qed.


(** X3. Text in [BATCH_SIZE] that holds no decimal digit (the empty text,
    white space), or that holds a character other than a digit, an
    underscore, a sign or white space (a decimal point, a letter), is
    rejected by [int]: the script stops with the error of [int], before
    any call. *)
Theorem X3_batch_size_rejected w env messages s :
  getenv env "BATCH_SIZE" = Some s ->
  Forall (fun c => digit_value c = None) (list_ascii_of_string s)
  \/ Exists (fun c => int_char c = false) (list_ascii_of_string s) ->
  main w env messages = Raised (InvalidLiteral s) initial.
Proof.
  intros Hs Hbad.
  assert (Hint : py_int s = None).
  { destruct (py_int s) as [z|] eqn:E; [|reflexivity]. exfalso.
    destruct (py_int_text s z E) as [Htext Hdigit]. destruct Hbad as [Hnone | Hother].
    - unfold has_digit in Hdigit. apply List.Exists_exists in Hdigit as (c & Hin & Hc).
      rewrite List.Forall_forall in Hnone. exact (Hc (Hnone c Hin)).
    - apply List.Exists_exists in Hother as (c & Hin & Hc).
      unfold int_text in Htext. rewrite List.Forall_forall in Htext.
      rewrite (Htext c Hin) in Hc. discriminate. }
  apply main_startup_raised.
  unfold startup, configure, bind, read_batch_size. rewrite Hs, Hint. reflexivity.
Qed.

End ConfigurationExtras.

(** ** Startup *)

Section StartupExtras.
Context `{FloatConv}.

Lemma configure_returned env st c st' :
  configure env st = Returned c st' ->
  st' = st
  /\ MINIO_BUCKET c = getenv env "MINIO_BUCKET"
  /\ MINIO_ENDPOINT c = getenv env "MINIO_ENDPOINT"
  /\ MINIO_ACCESS_KEY c = getenv env "MINIO_ACCESS_KEY"
  /\ MINIO_SECRET_KEY c = getenv env "MINIO_SECRET_KEY"
  /\ KAFKA_TOPIC c = getenv env "KAFKA_TOPIC"
  /\ KAFKA_BOOTSTRAP_SERVER c = getenv env "KAFKA_BOOTSTRAP_SERVER"
  /\ KAFKA_GROUP_ID c = getenv env "KAFKA_GROUP_ID"
  /\ is_Some (getenv env "MINIO_BUCKET").
Proof.
  unfold configure, bind, read_batch_size.
  destruct (match getenv env "BATCH_SIZE" with
            | Some s => match py_int s with
                        | Some n => ret n
                        | None => raise (InvalidLiteral s)
                        end
            | None => ret 10%Z
            end st) as [n st1|e st1] eqn:Hn; [|discriminate].
  assert (Hst : st1 = st).
  { destruct (getenv env "BATCH_SIZE") as [s|]; [destruct (py_int s)|];
      cbv in Hn; congruence. }
  subst st1. rewrite missing_vars_filter.
  destruct (List.filter _ required_names) eqn:Hm; [|discriminate].
  intros [= <- <-]. cbn. repeat split; try reflexivity.
  destruct (getenv env "MINIO_BUCKET") eqn:Hb; [eexists; reflexivity|].
  exfalso. unfold required_names in Hm. cbn [List.filter] in Hm.
  rewrite Hb in Hm. discriminate.
Qed.

(** The run of the startup, case by case. *)
Lemma startup_runs w env st0 :
  match startup w env st0 with
  | Returned c st =>
      configure env st0 = Returned c st0
      /\ batch st = batch st0
      /\ trace st = trace st0 ++ boto_call env :: bucket_calls w env ++ [kafka_call env]
  | Raised e st =>
      batch st = batch st0
      /\ exists calls,
           trace st = trace st0 ++ calls
           /\ (calls `prefix_of` boto_call env :: bucket_calls w env ++ [kafka_call env])
  end.
Proof.
  unfold startup. unfold bind at 1.
  destruct (configure env st0) as [c st1|e st1] eqn:Hc.
  - destruct (configure_returned _ _ _ _ Hc) as (-> & Hb & He & Ha & Hs & Ht & Hk & Hg & _).
    unfold ensure_bucket. rewrite Hb, He, Ha, Hs, Ht, Hk, Hg.
    fold (boto_call env). fold (kafka_call env). unfold bucket_calls.
    unfold bind, try_except, invoke, ret. cbn [batch trace].
    destruct (boto3_client_raises w).
    { split; [reflexivity|]. exists [boto_call env]. split; [reflexivity|].
      eexists. reflexivity. }
    destruct (head_bucket_raises w); cbn [batch trace].
    + destruct (create_bucket_raises w); cbn [batch trace].
      { split; [reflexivity|]. eexists [_; _; _]. rewrite <- !app_assoc.
        split; [reflexivity|]. eexists. reflexivity. }
      destruct (KafkaConsumer_raises w); cbn [batch trace]; rewrite <- !app_assoc.
      * split; [reflexivity|]. eexists. split; [reflexivity|]. exists []. reflexivity.
      * split; [reflexivity|]. split; reflexivity.
    + destruct (KafkaConsumer_raises w); cbn [batch trace]; rewrite <- !app_assoc.
      * split; [reflexivity|]. eexists. split; [reflexivity|]. exists []. reflexivity.
      * split; [reflexivity|]. split; reflexivity.
  - pose proof (configure_pure env st0) as Hp. rewrite Hc in Hp. cbn in Hp. subst st1.
    split; [reflexivity|]. exists []. rewrite app_nil_r. split; [reflexivity|].
    eexists. reflexivity.
Qed.

(** X4. Whatever the environment and whatever the clients answer, the
    calls of the startup are made in one order, each at most once and with
    the settings of the environment: the store client, the existence
    check, the creation when the check raised, the topic consumer. A run
    that stops early has made a prefix of them; a startup that returns
    has made all of them. *)
Theorem X4_startup_call_order w env :
  let all := boto_call env :: bucket_calls w env ++ [kafka_call env] in
  trace (final (startup w env initial)) `prefix_of` all
  /\ forall c st, startup w env initial = Returned c st -> trace st = all.
Proof.
  intros all. pose proof (startup_runs w env initial) as Hrun.
  destruct (startup w env initial) as [c st|e st]; cbn [final].
  - destruct Hrun as (_ & _ & Htr). cbn [trace initial app] in Htr. split.
    + rewrite Htr. exists []. rewrite app_nil_r. reflexivity.
    + intros c' st' [= <- <-]. exact Htr.
  - destruct Hrun as (_ & calls & Htr & Hpre). cbn [trace initial app] in Htr.
    split; [rewrite Htr; exact Hpre | discriminate].
Qed.

Lemma startup_call_not_put w env cl :
  In cl (boto_call env :: bucket_calls w env ++ [kafka_call env]) -> is_put cl = false.
Proof.
  unfold bucket_calls. destruct (head_bucket_raises w); cbn [app In];
    intros Hin; repeat (destruct Hin as [<- | Hin]; [reflexivity|]); destruct Hin.
Qed.

(** X5. An object is written only after the startup has returned, and
    into the bucket that [MINIO_BUCKET] names in the environment, which is
    set: every [put_object] of a run of the script comes after the calls
    of a startup that returned. *)
Theorem X5_writes_follow_startup w env messages i bucket key body :
  trace (final (main w env messages)) !! i = Some (put_object bucket key body) ->
  exists c st,
    startup w env initial = Returned c st
    /\ trace st `prefix_of` trace (final (main w env messages))
    /\ (length (trace st) <= i)%nat
    /\ bucket = getenv env "MINIO_BUCKET"
    /\ is_Some bucket.
Proof.
  pose proof (startup_runs w env initial) as Hrun.
  assert (Hmain : main w env messages
                  = match startup w env initial with
                    | Returned c st => consume w c messages {| batch := []; trace := trace st |}
                    | Raised e st => Raised e st
                    end) by reflexivity.
  rewrite Hmain. clear Hmain.
  destruct (startup w env initial) as [c st|e st].
  - destruct Hrun as (Hc & Hb & Htr). cbn [batch trace initial app] in Hb, Htr.
    destruct (configure_returned _ _ _ _ Hc) as (_ & Hbucket & _ & _ & _ & _ & _ & _ & Hset).
    set (st1 := {| batch := []; trace := trace st |}).
    destruct (consume_trace w c messages st1) as (groups & Hcalls & _).
    cbn [trace st1] in Hcalls. rewrite Hcalls. intros Hi.
    exists c, st. split; [reflexivity|]. split; [eexists; reflexivity|].
    destruct (Nat.lt_ge_cases i (length (trace st))) as [Hlt | Hge].
    + exfalso. rewrite lookup_app_l in Hi by exact Hlt.
      assert (Hin : In (put_object bucket key body) (trace st)).
      { apply list_elem_of_In. eapply list_elem_of_lookup_2. exact Hi. }
      rewrite Htr in Hin. apply startup_call_not_put in Hin. discriminate.
    + split; [exact Hge|]. rewrite lookup_app_r in Hi by exact Hge.
      destruct (flush_calls_put _ _ _ _ _ _ _ _ Hi) as (j & g & _ & _ & _ & -> & _).
      rewrite Hbucket. split; [reflexivity | exact Hset].
  - cbn [final]. destruct Hrun as (_ & calls & Htr & Hpre). cbn [trace initial app] in Htr.
    intros Hi. exfalso.
    assert (Hin : In (put_object bucket key body) calls).
    { rewrite <- Htr. apply list_elem_of_In. eapply list_elem_of_lookup_2. exact Hi. }
    destruct Hpre as [k Hk].
    assert (Hin' : In (put_object bucket key body)
                     (boto_call env :: bucket_calls w env ++ [kafka_call env])).
    { rewrite Hk. apply in_or_app. left. exact Hin. }
    apply startup_call_not_put in Hin'. discriminate.
Qed.

End StartupExtras.

(** ** The loop *)

Section LoopExtras.
Context `{FloatConv}.



Lemma file_path_shape now :
  exists stem, file_path now = ("bronze/date=" +:+ stem +:+ ".json")%string.
Proof.
  exists (strftime now "%Y-%m-%d/hour=%H/spotify_events_%Y-%m-%dT%H-%M-%S").
  unfold file_path.
  cbn -[digits zero_pad digits_string String.append].
  repeat first [ rewrite append_assoc | rewrite append_cons | rewrite append_empty ].
  reflexivity.
Qed.

Lemma flush_calls_loop_call w c n groups :
  Forall (loop_call c) (flush_calls w c n groups)
  /\ count is_utcnow (flush_calls w c n groups) = length groups.
Proof.
  revert n. induction groups as [|g groups IH]; intros n; cbn [flush_calls].
  - split; [constructor | reflexivity].
  - destruct (IH (S n)) as [IH1 IH2]. split.
    + constructor; [exact I|]. constructor; [|exact IH1].
      split; [reflexivity | apply file_path_shape].
    + unfold count in *. cbn [List.filter is_utcnow length]. rewrite IH2. reflexivity.
Qed.

(** X7. Whatever the records and whether the run returns or raises, the
    loop calls nothing but the clock and [put_object]: every write goes to
    the bucket of the configuration, under a key that starts with
    [bronze/date=] and ends with [.json], and the clock is read exactly
    once per write. *)
Theorem X7_loop_calls w c messages st0 :
  exists calls,
    trace (final (consume w c messages st0)) = trace st0 ++ calls
    /\ Forall (loop_call c) calls
    /\ count is_utcnow calls = count is_put calls.
Proof.
  destruct (consume_trace w c messages st0) as (groups & Htr & _).
  eexists. split; [exact Htr|].
  destruct (flush_calls_loop_call w c (count is_utcnow (trace st0)) groups) as [Hall Hclock].
  split; [exact Hall|]. rewrite Hclock, flush_calls_puts. reflexivity.
Qed.

End LoopExtras.

(** ** Object keys *)

Section KeyExtras.
Context `{FloatConv}.

Lemma file_path_format now :
  wall_clock_time now = true ->
  file_path now
  = ("bronze/date=" +:+ four_digits (year now) +:+ "-" +:+ two_digits (month now)
     +:+ "-" +:+ two_digits (day now) +:+ "/hour=" +:+ two_digits (hour now)
     +:+ "/spotify_events_" +:+ four_digits (year now) +:+ "-"
     +:+ two_digits (month now) +:+ "-" +:+ two_digits (day now) +:+ "T"
     +:+ two_digits (hour now) +:+ "-" +:+ two_digits (minute now) +:+ "-"
     +:+ two_digits (second now) +:+ ".json")%string.
Proof.
  intros Hw. unfold wall_clock_time in Hw.
  apply andb_prop in Hw as [Hv H1970]. apply N.leb_le in H1970.
  destruct (valid_datetime_bounds now Hv) as (Hy & Hmo & Hd & Hh & Hmi & Hs).
  unfold file_path, four_digits, two_digits.
  rewrite <- (digits_4 (year now)) by lia.
  rewrite <- (zero_pad_2 (month now)), <- (zero_pad_2 (day now)),
    <- (zero_pad_2 (hour now)), <- (zero_pad_2 (minute now)),
    <- (zero_pad_2 (second now)) by assumption.
  cbn -[digits zero_pad digits_string String.append].
  repeat first [ rewrite append_assoc | rewrite append_cons | rewrite append_empty ].
  reflexivity.
Qed.

Lemma digit_char_inj a b : a < 10 -> b < 10 -> digit_char a = digit_char b -> a = b.
Proof.
  unfold digit_char. intros Ha Hb Hab.
  apply (f_equal N_of_ascii) in Hab.
  rewrite !N_ascii_embedding in Hab by lia. lia.
Qed.

Lemma two_digits_inj a b : a < 100 -> b < 100 -> two_digits a = two_digits b -> a = b.
Proof.
  intros Ha Hb. unfold two_digits, digits_string. cbn [map string_of_list_ascii].
  intros [= H1 H2].
  apply digit_char_inj in H1; [|euclid|euclid].
  apply digit_char_inj in H2; [|euclid|euclid]. euclid.
Qed.

Lemma four_digits_inj a b :
  a < 10000 -> b < 10000 -> four_digits a = four_digits b -> a = b.
Proof.
  intros Ha Hb. unfold four_digits, digits_string. cbn [map string_of_list_ascii].
  intros [= H1 H2 H3 H4].
  apply digit_char_inj in H1; [|euclid|euclid].
  apply digit_char_inj in H2; [|euclid|euclid].
  apply digit_char_inj in H3; [|euclid|euclid].
  apply digit_char_inj in H4; [|euclid|euclid]. euclid.
Qed.

Lemma two_digits_split a s b t :
  (two_digits a +:+ s = two_digits b +:+ t)%string -> two_digits a = two_digits b /\ s = t.
Proof.
  unfold two_digits, digits_string. cbn [map string_of_list_ascii].
  rewrite !append_cons, !append_empty. intros [= -> -> ->]. split; reflexivity.
Qed.

Lemma four_digits_split a s b t :
  (four_digits a +:+ s = four_digits b +:+ t)%string
  -> four_digits a = four_digits b /\ s = t.
Proof.
  unfold four_digits, digits_string. cbn [map string_of_list_ascii].
  rewrite !append_cons, !append_empty. intros [= -> -> -> -> ->]. split; reflexivity.
Qed.

Lemma literal_split (l s t : string) : (l +:+ s = l +:+ t)%string -> s = t.
Proof.
  induction l as [|c l IH]; [rewrite !append_empty; trivial|].
  rewrite !append_cons. intros [= Heq]. exact (IH Heq).
Qed.

(** X8. The key of an object tells the second of its flush and nothing
    finer: two readings of the clock give the same key exactly when they
    agree on the year, month, day, hour, minute and second. Two flushes
    within one second write to the same key, whatever the microseconds. *)
Theorem X8_key_per_second t1 t2 :
  wall_clock_time t1 = true -> wall_clock_time t2 = true ->
  file_path t1 = file_path t2
  <-> year t1 = year t2 /\ month t1 = month t2 /\ day t1 = day t2
      /\ hour t1 = hour t2 /\ minute t1 = minute t2 /\ second t1 = second t2.
Proof.
  intros H1 H2. rewrite (file_path_format t1 H1), (file_path_format t2 H2).
  unfold wall_clock_time in H1, H2.
  apply andb_prop in H1 as [H1 _]. apply andb_prop in H2 as [H2 _].
  destruct (valid_datetime_bounds t1 H1) as (Hy1 & Hmo1 & Hd1 & Hh1 & Hmi1 & Hs1).
  destruct (valid_datetime_bounds t2 H2) as (Hy2 & Hmo2 & Hd2 & Hh2 & Hmi2 & Hs2).
  split.
  - intros Heq.
    apply literal_split in Heq. apply four_digits_split in Heq as [Hy Heq].
    apply literal_split in Heq. apply two_digits_split in Heq as [Hmo Heq].
    apply literal_split in Heq. apply two_digits_split in Heq as [Hd Heq].
    apply literal_split in Heq. apply two_digits_split in Heq as [Hh Heq].
    apply literal_split in Heq. apply four_digits_split in Heq as [_ Heq].
    apply literal_split in Heq. apply two_digits_split in Heq as [_ Heq].
    apply literal_split in Heq. apply two_digits_split in Heq as [_ Heq].
    apply literal_split in Heq. apply two_digits_split in Heq as [_ Heq].
    apply literal_split in Heq. apply two_digits_split in Heq as [Hmi Heq].
    apply literal_split in Heq. apply two_digits_split in Heq as [Hs _].
    repeat split;
      first [ apply four_digits_inj; assumption | apply two_digits_inj; assumption ].
  - intros (-> & -> & -> & -> & -> & ->). reflexivity.
Qed.

End KeyExtras.

(** ** Records *)

(** *** Text after a document *)

Lemma ws_ends_number t : ws_text t -> ends_number t.
Proof.
  intros Ht. destruct t as [|c t]; [exact I|]. apply Forall_inv in Ht.
  cbn [ends_number]. unfold is_ws in Ht. unfold is_digit.
  repeat (apply orb_prop in Ht as [Ht|Ht]); apply N.eqb_eq in Ht; subst c;
    repeat split; discriminate.
Qed.

Lemma skip_ws_blank s : ws_text s -> skip_ws s = [].
Proof.
  induction 1 as [|c s Hc _ IH]; [reflexivity|]. cbn [skip_ws]. rewrite Hc. exact IH.
Qed.

Lemma skip_ws_app s t : skip_ws s <> [] -> skip_ws (s ++ t) = skip_ws s ++ t.
Proof.
  induction s as [|c s IH]; cbn [skip_ws app]; [congruence|].
  destruct (is_ws c); [exact IH | reflexivity].
Qed.

Lemma skip_ws_ws l s : ws_text l -> skip_ws (l ++ s) = skip_ws s.
Proof.
  induction 1 as [|c l Hc _ IH]; [reflexivity|]. cbn [app skip_ws]. rewrite Hc. exact IH.
Qed.

Lemma skip_ws_nil_ws s : skip_ws s = [] -> ws_text s.
Proof.
  induction s as [|c s IH]; cbn [skip_ws]; [constructor|].
  destruct (is_ws c) eqn:Hc; [|discriminate]. intros Hs.
  constructor; [exact Hc | exact (IH Hs)].
Qed.

Lemma strip_prefix_app p s r t :
  strip_prefix p s = Some r -> strip_prefix p (s ++ t) = Some (r ++ t).
Proof.
  revert s. induction p as [|a p IH]; intros s; cbn [strip_prefix].
  - intros [= <-]. reflexivity.
  - destruct s as [|b s]; [discriminate|]. cbn [app strip_prefix].
    destruct (a =? b); [apply IH | discriminate].
Qed.

Lemma strip_prefix_cons a p c s :
  strip_prefix (a :: p) (c :: s) = if a =? c then strip_prefix p s else None.
Proof. reflexivity. Qed.

Lemma then_cons_app c o x r t (o' : option (pystr * pystr)) :
  (forall y r', o = Some (y, r') -> o' = Some (y, r' ++ t)) ->
  then_cons c o = Some (x, r) -> then_cons c o' = Some (x, r ++ t).
Proof.
  intros Ho. destruct o as [[y r']|]; [|discriminate]. intros [= <- <-].
  rewrite (Ho y r' eq_refl). reflexivity.
Qed.

(** A string literal reads the same whatever follows its closing quote. *)
Lemma scanstring_app t : forall s x r,
  scanstring s = Some (x, r) -> scanstring (s ++ t) = Some (x, r ++ t).
Proof.
  intros s. induction s as [s IH] using (induction_ltof1 _ (@length N)).
  unfold ltof in IH. intros x r.
  destruct s as [|c s1]; [discriminate|]. cbn [scanstring app].
  destruct (c =? QUOTE); [intros [= <- <-]; reflexivity|].
  destruct (c =? BACKSLASH).
  2:{ destruct (c <=? 0x1F); [discriminate|].
      apply then_cons_app. intros y r'. apply IH. cbn [length]. lia. }
  destruct s1 as [|e r1]; [discriminate|]. cbn [app].
  destruct (e =? chr "u").
  2:{ destruct (unescape e); [|discriminate].
      apply then_cons_app. intros y r'. apply IH. cbn [length]. lia. }
  destruct r1 as [|h1 [|h2 [|h3 [|h4 r2]]]]; try discriminate. cbn [app].
  destruct (unhex4 h1 h2 h3 h4) as [u|]; [|discriminate].
  assert (Hplain : forall x r, then_cons u (scanstring r2) = Some (x, r) ->
                     then_cons u (scanstring (r2 ++ t)) = Some (x, r ++ t)).
  { intros x' r'. apply then_cons_app. intros y r''. apply IH. cbn [length]. lia. }
  destruct (is_high_surrogate u); [|apply Hplain].
  destruct r2 as [|b [|u' [|g1 [|g2 [|g3 [|g4 r3]]]]]].
  - discriminate.
  - (* one character is left: the closing quote *)
    cbn [scanstring then_cons]. destruct (b =? QUOTE) eqn:Hq.
    + intros [= <- <-]. apply N.eqb_eq in Hq. subst b. cbn [app].
      destruct t as [|t1 [|t2 [|t3 [|t4 [|t5 t']]]]]; reflexivity.
    + destruct (b =? BACKSLASH); [discriminate|].
      destruct (b <=? 0x1F); discriminate.
  - intros Hs. pose proof (Hplain _ _ Hs) as Hs'. cbn [app] in Hs' |- *.
    destruct ((b =? BACKSLASH) && (u' =? chr "u")) eqn:Hbu.
    + exfalso. apply andb_prop in Hbu as [Hb Hu]. cbn [scanstring] in Hs.
      apply N.eqb_eq in Hb. subst b. change (BACKSLASH =? QUOTE) with false in Hs.
      rewrite N.eqb_refl, Hu in Hs. discriminate.
    + destruct t as [|t1 [|t2 [|t3 [|t4 t']]]]; cbn [app]; exact Hs'.
  - intros Hs. pose proof (Hplain _ _ Hs) as Hs'. cbn [app] in Hs' |- *.
    destruct ((b =? BACKSLASH) && (u' =? chr "u")) eqn:Hbu.
    + exfalso. apply andb_prop in Hbu as [Hb Hu]. cbn [scanstring] in Hs.
      apply N.eqb_eq in Hb. subst b. change (BACKSLASH =? QUOTE) with false in Hs.
      rewrite N.eqb_refl, Hu in Hs. discriminate.
    + destruct t as [|t1 [|t2 [|t3 t']]]; cbn [app]; exact Hs'.
  - intros Hs. pose proof (Hplain _ _ Hs) as Hs'. cbn [app] in Hs' |- *.
    destruct ((b =? BACKSLASH) && (u' =? chr "u")) eqn:Hbu.
    + exfalso. apply andb_prop in Hbu as [Hb Hu]. cbn [scanstring] in Hs.
      apply N.eqb_eq in Hb. subst b. change (BACKSLASH =? QUOTE) with false in Hs.
      rewrite N.eqb_refl, Hu in Hs. discriminate.
    + destruct t as [|t1 [|t2 t']]; cbn [app]; exact Hs'.
  - intros Hs. pose proof (Hplain _ _ Hs) as Hs'. cbn [app] in Hs' |- *.
    destruct ((b =? BACKSLASH) && (u' =? chr "u")) eqn:Hbu.
    + exfalso. apply andb_prop in Hbu as [Hb Hu]. cbn [scanstring] in Hs.
      apply N.eqb_eq in Hb. subst b. change (BACKSLASH =? QUOTE) with false in Hs.
      rewrite N.eqb_refl, Hu in Hs. discriminate.
    + destruct t as [|t1 t']; cbn [app]; exact Hs'.
  - cbn [app]. destruct ((b =? BACKSLASH) && (u' =? chr "u")); [|apply Hplain].
    destruct (unhex4 g1 g2 g3 g4) as [u2|]; [|discriminate].
    destruct (is_low_surrogate u2); [|apply Hplain].
    apply then_cons_app. intros y r'. apply IH. cbn [length]. lia.
Qed.

Lemma starts_number_app s t : starts_number s -> starts_number (s ++ t).
Proof.
  destruct s as [|c [|d s]]; cbn [starts_number app]; [intros [] | |]; trivial.
  intros [Hc | [_ []]]. left. exact Hc.
Qed.

Section Suffix.
Context `{FloatConv}.
Variable t : pystr.
Hypothesis Ht : ws_text t.

Lemma scan_constant_app s v r :
  scan_constant s = Some (v, r) -> scan_constant (s ++ t) = Some (v, r ++ t).
Proof.
  destruct s as [|c s]; [discriminate|]. unfold scan_constant. cbn [app].
  change (str "null") with (N_of_ascii "n" :: str "ull").
  change (str "true") with (N_of_ascii "t" :: str "rue").
  change (str "false") with (N_of_ascii "f" :: str "alse").
  change (str "NaN") with (N_of_ascii "N" :: str "aN").
  change (str "Infinity") with (N_of_ascii "I" :: str "nfinity").
  change (str "-Infinity") with (N_of_ascii "-" :: str "Infinity").
  rewrite !strip_prefix_cons.
  repeat match goal with
         | |- context [N_of_ascii ?a =? c] =>
             destruct (N.eqb_spec (N_of_ascii a) c) as [<- | _];
             [cbn -[strip_prefix app str];
              match goal with
              | |- context [strip_prefix ?p s] =>
                  let E := fresh "E" in
                  destruct (strip_prefix p s) as [r'|] eqn:E;
                  [rewrite (strip_prefix_app _ _ _ t E); intros [= <- <-]; reflexivity
                  |discriminate]
              end|]
         end.
  discriminate.
Qed.

Lemma scan_number_value_app s v r :
  scan_number_value s = Some (v, r) -> scan_number_value (s ++ t) = Some (v, r ++ t).
Proof.
  unfold scan_number_value. rewrite (scan_number_app s t (ws_ends_number t Ht)).
  destruct (scan_number s) as [[[lit [|]] r']|]; [| |discriminate];
    intros [= <- <-]; reflexivity.
Qed.

Section ItemsSuffix.
Variables scan scan' : pystr -> option (pyvalue * pystr).
Hypothesis scan_nil : scan [] = None.
Hypothesis scan_app :
  forall s v r, scan s = Some (v, r) -> scan' (s ++ t) = Some (v, r ++ t).

Lemma array_items_app n : forall n' s vs r,
  (n <= n')%nat ->
  array_items scan n s = Some (vs, r) ->
  array_items scan' n' (s ++ t) = Some (vs, r ++ t).
Proof.
  induction n as [|n IH]; intros n' s vs r Hn; [discriminate|].
  destruct n' as [|n']; [lia|]. cbn [array_items].
  destruct (scan s) as [[v r1]|] eqn:Hv; [|discriminate].
  rewrite (scan_app _ _ _ Hv).
  destruct (skip_ws r1) as [|c r2] eqn:Hskip; [discriminate|].
  rewrite skip_ws_app by congruence. rewrite Hskip. cbn [app].
  destruct (c =? chr "]"); [intros [= <- <-]; reflexivity|].
  destruct (c =? chr ","); [|discriminate].
  destruct (array_items scan n (skip_ws r2)) as [[vs' r3]|] eqn:Hrest; [|discriminate].
  intros [= <- <-].
  assert (Hne : skip_ws r2 <> []).
  { intros Hnil. rewrite Hnil in Hrest. destruct n; [discriminate|].
    cbn [array_items] in Hrest. rewrite scan_nil in Hrest. discriminate. }
  rewrite skip_ws_app by exact Hne.
  rewrite (IH n' _ _ _ ltac:(lia) Hrest). reflexivity.
Qed.

Lemma object_items_app n : forall n' s kvs r,
  (n <= n')%nat ->
  object_items scan n s = Some (kvs, r) ->
  object_items scan' n' (s ++ t) = Some (kvs, r ++ t).
Proof.
  induction n as [|n IH]; intros n' s kvs r Hn; [discriminate|].
  destruct n' as [|n']; [lia|]. cbn [object_items].
  destruct s as [|q s1]; [discriminate|]. cbn [app].
  destruct (q =? QUOTE); [|discriminate].
  destruct (scanstring s1) as [[k r1]|] eqn:Hk; [|discriminate].
  rewrite (scanstring_app t _ _ _ Hk).
  destruct (skip_ws r1) as [|colon r2] eqn:Hskip1; [discriminate|].
  rewrite skip_ws_app by congruence. rewrite Hskip1. cbn [app].
  destruct (colon =? chr ":"); [|discriminate].
  destruct (scan (skip_ws r2)) as [[v r3]|] eqn:Hv; [|discriminate].
  assert (Hne2 : skip_ws r2 <> []).
  { intros Hnil. rewrite Hnil, scan_nil in Hv. discriminate. }
  rewrite skip_ws_app by exact Hne2. rewrite (scan_app _ _ _ Hv).
  destruct (skip_ws r3) as [|c r4] eqn:Hskip3; [discriminate|].
  rewrite skip_ws_app by congruence. rewrite Hskip3. cbn [app].
  destruct (c =? chr "}"); [intros [= <- <-]; reflexivity|].
  destruct (c =? chr ","); [|discriminate].
  destruct (object_items scan n (skip_ws r4)) as [[kvs' r5]|] eqn:Hrest; [|discriminate].
  intros [= <- <-].
  assert (Hne4 : skip_ws r4 <> []).
  { intros Hnil. rewrite Hnil in Hrest. destruct n; discriminate. }
  rewrite skip_ws_app by exact Hne4.
  rewrite (IH n' _ _ _ ltac:(lia) Hrest). reflexivity.
Qed.

End ItemsSuffix.

Lemma scan_once_nil fuel : scan_once fuel [] = None.
Proof. destruct fuel; reflexivity. Qed.

(** A term reads the same when white space follows it, and with more
    fuel. *)
Lemma scan_once_app fuel : forall fuel' s v r,
  (fuel <= fuel')%nat ->
  scan_once fuel s = Some (v, r) -> scan_once fuel' (s ++ t) = Some (v, r ++ t).
Proof.
  induction fuel as [|fuel IH]; intros fuel' s v r Hfuel; [discriminate|].
  destruct fuel' as [|fuel']; [lia|].
  destruct s as [|c s1]; [discriminate|].
  destruct (scan_number_value (c :: s1)) as [[v' r']|] eqn:Hnum.
  { (* a number *)
    assert (Hstart : starts_number (c :: s1)).
    { unfold scan_number_value in Hnum.
      destruct (scan_number (c :: s1)) as [res|] eqn:Hscan; [|discriminate].
      exact (scan_number_starts _ _ Hscan). }
    rewrite (scan_once_number fuel _ Hstart), Hnum. intros [= <- <-].
    rewrite (scan_once_number fuel' _ (starts_number_app _ t Hstart)).
    exact (scan_number_value_app _ _ _ Hnum). }
  cbn [scan_once app].
  destruct (c =? QUOTE).
  { destruct (scanstring s1) as [[x r']|] eqn:Hx; [|discriminate].
    intros [= <- <-]. rewrite (scanstring_app t _ _ _ Hx). reflexivity. }
  destruct (c =? chr "{").
  { destruct (skip_ws s1) as [|c' r'] eqn:Hskip; [discriminate|].
    rewrite skip_ws_app by congruence. rewrite Hskip. cbn [app].
    destruct (c' =? chr "}"); [intros [= <- <-]; reflexivity|].
    destruct (object_items (scan_once fuel) (length s1) (c' :: r'))
      as [[kvs r'']|] eqn:Hitems; [|discriminate].
    intros [= <- <-]. change (c' :: r' ++ t) with ((c' :: r') ++ t).
    rewrite (object_items_app (scan_once fuel) (scan_once fuel') (scan_once_nil fuel)
               (fun s v r => IH fuel' s v r ltac:(lia))
               (length s1) (length (s1 ++ t)) _ _ _
               ltac:(rewrite length_app; lia) Hitems).
    reflexivity. }
  destruct (c =? chr "[").
  { destruct (skip_ws s1) as [|c' r'] eqn:Hskip; [discriminate|].
    rewrite skip_ws_app by congruence. rewrite Hskip. cbn [app].
    destruct (c' =? chr "]"); [intros [= <- <-]; reflexivity|].
    destruct (array_items (scan_once fuel) (length s1) (c' :: r'))
      as [[vs r'']|] eqn:Hitems; [|discriminate].
    intros [= <- <-]. change (c' :: r' ++ t) with ((c' :: r') ++ t).
    rewrite (array_items_app (scan_once fuel) (scan_once fuel') (scan_once_nil fuel)
               (fun s v r => IH fuel' s v r ltac:(lia))
               (length s1) (length (s1 ++ t)) _ _ _
               ltac:(rewrite length_app; lia) Hitems).
    reflexivity. }
  rewrite Hnum.
  destruct (scan_constant (c :: s1)) as [[v' r']|] eqn:Hconst; [|discriminate].
  intros [= <- <-]. change (c :: s1 ++ t) with ((c :: s1) ++ t).
  rewrite (scan_constant_app _ _ _ Hconst). reflexivity.
Qed.

(** White space around a document changes nothing to what [json.loads]
    reads from it. *)
Lemma loads_padded l s v :
  ws_text l -> loads s = Some v -> loads (l ++ s ++ t) = Some v.
Proof.
  intros Hl. unfold loads.
  destruct (strip_prefix [65279] s) eqn:Hbom; [discriminate|].
  destruct (scan_once (S (length (skip_ws s))) (skip_ws s)) as [[v' r]|] eqn:Hscan;
    [|discriminate].
  destruct (skip_ws r) eqn:Hr; [|discriminate]. intros [= <-].
  assert (Hne : skip_ws s <> []).
  { intros Hnil. rewrite Hnil in Hscan. discriminate. }
  assert (Hskip : skip_ws (l ++ s ++ t) = skip_ws s ++ t).
  { rewrite skip_ws_ws by exact Hl. apply skip_ws_app. exact Hne. }
  assert (Hnobom : strip_prefix [65279] (l ++ s ++ t) = None).
  { destruct l as [|c l'].
    - destruct s as [|c s']; [cbn in Hne; congruence|]. cbn [app strip_prefix] in Hbom |- *.
      destruct (65279 =? c); [discriminate | reflexivity].
    - apply Forall_inv in Hl. cbn [app strip_prefix].
      destruct (65279 =? c) eqn:E; [|reflexivity].
      apply N.eqb_eq in E. subst c. discriminate. }
  rewrite Hnobom, Hskip.
  assert (Hfuel : (S (length (skip_ws s)) <= S (length (skip_ws s ++ t)))%nat)
    by (rewrite length_app; lia).
  rewrite (scan_once_app _ _ _ _ _ Hfuel Hscan).
  assert (Hrest : skip_ws (r ++ t) = []).
  { rewrite skip_ws_ws by (apply skip_ws_nil_ws; exact Hr).
    apply skip_ws_blank. exact Ht. }
  rewrite Hrest. reflexivity.
Qed.

End Suffix.

Section BodyExtras.
Context `{FloatConv}.

(** X9. When the runtime writes floats in printable ASCII, the object
    body of a batch is ASCII text, whatever characters the events hold:
    every byte is printable or is a newline, and the newlines are the
    separators only, so that splitting the body at the newlines gives one
    line per event, the encoding of that event. *)
Theorem X9_body_ascii_lines (b : list pyvalue) :
  Forall (fun e => Forall (fun f => Forall printable (encode_float f)) (floats e)) b ->
  Forall (fun x => x = x0a \/ printable_byte x) (body_of b)
  /\ (b <> [] -> split_lines (body_of b) = map (fun e => body_of [e]) b).
Proof.
  intros Hb.
  assert (Hbody : body_of b = join_seq [x0a] (map (fun e => body_of [e]) b)).
  { pose proof (encode_json_data b) as Hbody. rewrite encode_lines in Hbody.
    injection Hbody as <-. reflexivity. }
  split.
  - rewrite Hbody. apply join_seq_Forall; [constructor; [left; reflexivity | constructor]|].
    apply Forall_map. eapply Forall_impl; [exact Hb|]. cbv beta. intros e He.
    eapply Forall_impl; [exact (proj2 (line_printable e He))|]. cbv beta. auto.
  - intros Hne. rewrite Hbody. apply split_lines_join.
    + destruct b; [congruence | discriminate].
    + apply Forall_map. eapply Forall_impl; [exact Hb|]. cbv beta. intros e He Hin.
      pose proof (proj2 (line_printable e He)) as Hp. rewrite List.Forall_forall in Hp.
      specialize (Hp _ Hin). unfold printable_byte in Hp. cbn in Hp. lia.
Qed.

Lemma is_ws_small c : is_ws c = true -> c < 128.
Proof.
  unfold is_ws. intros Hc.
  repeat (apply orb_prop in Hc as [Hc|Hc]); apply N.eqb_eq in Hc; lia.
Qed.

(** X10. A record whose payload is empty or holds white space only (spaces,
    tabs, line feeds, carriage returns) is not a JSON document: the
    deserializer raises [JSONDecodeError]. *)
Theorem X10_blank_record_rejected (s : pystr) :
  ws_text s ->
  value_deserializer (Some (map byte_of s)) = inl JSONDecodeError.
Proof.
  intros Hs. unfold value_deserializer. rewrite decode_ascii.
  - unfold loads. rewrite (skip_ws_blank s Hs).
    destruct s as [|c s']; [reflexivity|].
    inversion Hs as [|? ? Hc _]; subst. cbn [strip_prefix].
    destruct (65279 =? c) eqn:E; [|reflexivity].
    apply N.eqb_eq in E. subst c. discriminate.
  - eapply Forall_impl; [exact Hs|]. exact is_ws_small.
Qed.

End BodyExtras.

(** *** Decoding a concatenation *)

Lemma fmap_cons_app (c : N) (o : option pystr) s (o' : option pystr) (k : option pystr) :
  (forall y, o = Some y -> o' = (fun z => y ++ z) <$> k) ->
  cons c <$> o = Some s -> cons c <$> o' = (fun z => s ++ z) <$> k.
Proof.
  intros Ho. destruct o as [y|]; [|discriminate]. intros [= <-].
  rewrite (Ho y eq_refl). destruct k; reflexivity.
Qed.

Lemma decode_app bs' : forall bs s,
  decode bs = Some s -> decode (bs ++ bs') = (fun z => s ++ z) <$> decode bs'.
Proof.
  intros bs. induction bs as [bs IH] using (induction_ltof1 _ (@length byte)).
  unfold ltof in IH. intros s.
  destruct bs as [|b0 r0].
  { intros [= <-]. cbn [app]. destruct (decode bs'); reflexivity. }
  cbn [decode app].
  destruct (Byte.to_N b0 <? 0x80).
  { apply fmap_cons_app. intros y. apply IH. cbn [length]. lia. }
  destruct ((0xC2 <=? Byte.to_N b0) && (Byte.to_N b0 <=? 0xDF)).
  { destruct r0 as [|b1 r1]; [discriminate|]. cbn [app].
    destruct (continuation (Byte.to_N b1)); [|discriminate].
    apply fmap_cons_app. intros y. apply IH. cbn [length]. lia. }
  destruct ((0xE0 <=? Byte.to_N b0) && (Byte.to_N b0 <=? 0xEF)).
  { destruct r0 as [|b1 [|b2 r2]]; try discriminate. cbn [app].
    destruct (_ && _); [|discriminate].
    apply fmap_cons_app. intros y. apply IH. cbn [length]. lia. }
  destruct ((0xF0 <=? Byte.to_N b0) && (Byte.to_N b0 <=? 0xF4)); [|discriminate].
  destruct r0 as [|b1 [|b2 [|b3 r3]]]; try discriminate. cbn [app].
  destruct (_ && _); [|discriminate].
  apply fmap_cons_app. intros y. apply IH. cbn [length]. lia.
Qed.

Section PaddedRecord.
Context `{FloatConv}.

Lemma ws_text_below l : ws_text l -> below 128 l.
Proof. intros Hl. eapply Forall_impl; [exact Hl|]. exact is_ws_small. Qed.

(** X11. White space around the document of a record changes nothing to
    the event read from it: a record that the deserializer accepts is read
    to the same event when spaces, tabs, line feeds or carriage returns
    come before or after its payload. *)
Theorem X11_padded_record_reads_same (payload : list byte) (l r : pystr) event :
  ws_text l -> ws_text r ->
  value_deserializer (Some payload) = inr event ->
  value_deserializer (Some (map byte_of l ++ payload ++ map byte_of r)) = inr event.
Proof.
  intros Hl Hr. unfold value_deserializer.
  destruct (decode payload) as [text|] eqn:Hdec; [|discriminate].
  destruct (loads text) as [v|] eqn:Hloads; [|discriminate]. intros [= <-].
  rewrite (decode_app _ _ _ (decode_ascii l (ws_text_below l Hl))).
  rewrite (decode_app _ _ _ Hdec).
  rewrite (decode_ascii r (ws_text_below r Hr)). cbn [fmap option_fmap option_map].
  rewrite (loads_padded r Hr l text v Hl Hloads). reflexivity.
Qed.

End PaddedRecord.

(** *** Repeated keys *)

Lemma str_eqb_sym a b : str_eqb a b = str_eqb b a.
Proof.
  destruct (str_eqb a b) eqn:E1, (str_eqb b a) eqn:E2; try reflexivity.
  - apply str_eqb_eq in E1. subst b. rewrite str_eqb_refl in E2. discriminate.
  - apply str_eqb_eq in E2. subst b. rewrite str_eqb_refl in E1. discriminate.
Qed.

Lemma dict_get_set k k' v d :
  dict_get k (dict_set k' v d) = if str_eqb k k' then Some v else dict_get k d.
Proof.
  induction d as [|[k0 v0] d IH]; cbn [dict_set dict_get]; [reflexivity|].
  destruct (str_eqb k' k0) eqn:E0; cbn [dict_get].
  - apply str_eqb_eq in E0. subst k0. destruct (str_eqb k k'); reflexivity.
  - destruct (str_eqb k k0) eqn:E1; [|exact IH].
    apply str_eqb_eq in E1. subst k0. rewrite str_eqb_sym, E0. reflexivity.
Qed.

Lemma dict_set_NoDup k v d : List.NoDup (map fst d) -> List.NoDup (map fst (dict_set k v d)).
Proof.
  induction d as [|[k0 v0] d IH]; cbn [dict_set map fst]; intros Hd.
  - constructor; [intros [] | constructor].
  - inversion Hd as [|? ? Hfresh Hd']; subst.
    destruct (str_eqb k k0) eqn:E; cbn [map fst]; [exact Hd|].
    constructor; [|exact (IH Hd')]. intros Hin.
    apply dict_set_keys in Hin as [-> | Hin]; [|exact (Hfresh Hin)].
    rewrite str_eqb_refl in E. discriminate.
Qed.

Lemma find_app {A} (p : A -> bool) l l' :
  List.find p (l ++ l') = match List.find p l with Some x => Some x | None => List.find p l' end.
Proof.
  induction l as [|x l IH]; [reflexivity|]. cbn [app List.find].
  destruct (p x); [reflexivity | exact IH].
Qed.

Lemma dict_of_pairs_get k kvs acc :
  dict_get k (fold_left (fun d kv => dict_set (fst kv) (snd kv) d) kvs acc)
  = match List.find (fun kv => str_eqb k (fst kv)) (rev kvs) with
    | Some kv => Some (snd kv)
    | None => dict_get k acc
    end.
Proof.
  revert acc. induction kvs as [|[k0 v0] kvs IH]; intros acc; [reflexivity|].
  cbn [fold_left rev fst snd]. rewrite IH, find_app.
  destruct (List.find _ (rev kvs)); [reflexivity|].
  cbn [List.find fst snd]. rewrite dict_get_set.
  destruct (str_eqb k k0); reflexivity.
Qed.

Lemma dict_of_pairs_NoDup kvs acc :
  List.NoDup (map fst acc) ->
  List.NoDup (map fst (fold_left (fun d kv => dict_set (fst kv) (snd kv) d) kvs acc)).
Proof.
  revert acc. induction kvs as [|kv kvs IH]; intros acc Hacc; [exact Hacc|].
  cbn [fold_left]. apply IH. apply dict_set_NoDup. exact Hacc.
Qed.

Section RepeatedKeys.
Context `{FloatConv}.

(** X12. An object of a record that repeats a key is read to a dictionary
    that holds each key once, with the value of its last occurrence in the
    text: such an event is not written back as it came. *)
Theorem X12_repeated_key_last_wins fuel (s r : pystr) (d : list (pystr * pyvalue)) :
  scan_once (S fuel) (chr "{" :: s) = Some (PyDict d, r) ->
  List.NoDup (map fst d)
  /\ (d = [] \/
      exists kvs,
        object_items (scan_once fuel) (length s) (skip_ws s) = Some (kvs, r)
        /\ forall k,
             dict_get k d
             = match List.find (fun kv => str_eqb k (fst kv)) (rev kvs) with
               | Some kv => Some (snd kv)
               | None => None
               end).
Proof.
  cbn [scan_once]. change (chr "{" =? QUOTE) with false.
  change (chr "{" =? chr "{") with true. cbv iota.
  destruct (skip_ws s) as [|c' r'] eqn:Hskip; [discriminate|].
  destruct (c' =? chr "}").
  - intros [= <- <-]. split; [constructor | left; reflexivity].
  - destruct (object_items (scan_once fuel) (length s) (c' :: r')) as [[kvs r'']|];
      [|discriminate].
    intros [= <- <-]. split; [apply dict_of_pairs_NoDup; constructor|].
    right. exists kvs. split; [reflexivity|]. intros k. apply dict_of_pairs_get.
Qed.

End RepeatedKeys.

(** *** Encoding, then decoding *)

Lemma lead_add (k n b : N) : b < 2 ^ n -> N.lor (k * 2 ^ n) b = k * 2 ^ n + b.
Proof.
  intros Hb. rewrite <- (lor_shiftl_add k b n Hb), N.shiftl_mul_pow2. reflexivity.
Qed.

Lemma land_63 a : N.land a 0x3F = a mod 64.
Proof. change 0x3F with (N.ones 6). apply N.land_ones. Qed.

Lemma land_31 a : N.land a 0x1F = a mod 32.
Proof. change 0x1F with (N.ones 5). apply N.land_ones. Qed.

Lemma land_15 a : N.land a 0x0F = a mod 16.
Proof. change 0x0F with (N.ones 4). apply N.land_ones. Qed.

Lemma land_7 a : N.land a 0x07 = a mod 8.
Proof. change 0x07 with (N.ones 3). apply N.land_ones. Qed.

Lemma trail_byte a : N.lor 0x80 (N.land a 0x3F) = 128 + a mod 64.
Proof.
  rewrite land_63. change 0x80 with (2 * 2 ^ 6). apply lead_add.
  change (2 ^ 6) with 64. euclid.
Qed.

Lemma trail_continuation a : continuation (128 + a mod 64) = true.
Proof.
  unfold continuation. apply andb_true_intro. split; apply N.leb_le; euclid.
Qed.

Lemma trail_low6 a : low6 (128 + a mod 64) = a mod 64.
Proof. unfold low6. rewrite land_63. euclid. Qed.

Lemma byte_of_small v : v < 256 -> Byte.to_N (byte_of v) = v.
Proof. apply byte_of_to_N. Qed.

Lemma decode_encode_char c bs rest :
  encode_char c = Some bs -> decode (bs ++ rest) = cons c <$> decode rest.
Proof.
  unfold encode_char.
  destruct (N.ltb_spec c 0x80) as [H1|H1].
  { intros [= <-]. cbn [app decode]. rewrite byte_of_small by lia.
    rewrite (proj2 (N.ltb_lt c 0x80) H1). reflexivity. }
  destruct (N.ltb_spec c 0x800) as [H2|H2].
  { intros [= <-]. cbn [app decode]. rewrite trail_byte.
    assert (E0 : N.lor 0xC0 (N.shiftr c 6) = 192 + c / 64).
    { rewrite N.shiftr_div_pow2. change 0xC0 with (3 * 2 ^ 6). change (2 ^ 6) with 64.
      change 64 with (2 ^ 6) at 1. apply lead_add. change (2 ^ 6) with 64. euclid. }
    rewrite E0. rewrite !byte_of_small by euclid.
    rewrite (proj2 (N.ltb_ge (192 + c / 64) 0x80)) by euclid.
    rewrite (proj2 (N.leb_le 0xC2 (192 + c / 64))) by euclid.
    rewrite (proj2 (N.leb_le (192 + c / 64) 0xDF)) by euclid.
    cbn [andb]. rewrite trail_continuation, trail_low6, land_31.
    replace (N.lor _ _) with c; [reflexivity|].
    rewrite lor_shiftl_add by (change (2 ^ 6) with 64; euclid).
    change (2 ^ 6) with 64. euclid. }
  destruct (N.ltb_spec c 0x10000) as [H3|H3].
  { destruct (is_surrogate c) eqn:Hsur; [discriminate|].
    intros [= <-]. cbn [app decode]. rewrite !trail_byte.
    assert (E0 : N.lor 0xE0 (N.shiftr c 12) = 224 + c / 4096).
    { rewrite N.shiftr_div_pow2. change 0xE0 with (14 * 2 ^ 4). change (2 ^ 12) with 4096.
      apply lead_add. change (2 ^ 4) with 16. euclid. }
    rewrite E0, N.shiftr_div_pow2. change (2 ^ 6) with 64.
    rewrite !byte_of_small by euclid.
    rewrite (proj2 (N.ltb_ge (224 + c / 4096) 0x80)) by euclid.
    rewrite (proj2 (N.leb_gt (224 + c / 4096) 0xDF)) by euclid.
    rewrite andb_false_r.
    rewrite (proj2 (N.leb_le 0xE0 (224 + c / 4096))) by euclid.
    rewrite (proj2 (N.leb_le (224 + c / 4096) 0xEF)) by euclid.
    cbn [andb]. rewrite !trail_continuation, !trail_low6, land_15. cbn [andb].
    assert (Hlow : negb (224 + c / 4096 =? 0xE0) || (0xA0 <=? 128 + (c / 64) mod 64) = true).
    { destruct (N.eqb_spec (224 + c / 4096) 0xE0) as [E|E]; [|reflexivity].
      cbn [negb orb]. apply N.leb_le. euclid. }
    assert (Hhigh : negb (224 + c / 4096 =? 0xED) || (128 + (c / 64) mod 64 <=? 0x9F) = true).
    { destruct (N.eqb_spec (224 + c / 4096) 0xED) as [E|E]; [|reflexivity].
      cbn [negb orb]. apply N.leb_le. unfold is_surrogate in Hsur.
      apply andb_false_iff in Hsur as [Hs|Hs]; apply N.leb_gt in Hs; euclid. }
    rewrite Hlow, Hhigh.
    replace (N.lor _ _) with c; [reflexivity|].
    rewrite (lor_shiftl_add _ (c mod 64)) by (change (2 ^ 6) with 64; euclid).
    rewrite lor_shiftl_add by (change (2 ^ 12) with 4096; change (2 ^ 6) with 64; euclid).
    change (2 ^ 12) with 4096. change (2 ^ 6) with 64. euclid. }
  destruct (N.ltb_spec c 0x110000) as [H4|H4]; [|discriminate].
  intros [= <-]. cbn [app decode]. rewrite !trail_byte.
  assert (E0 : N.lor 0xF0 (N.shiftr c 18) = 240 + c / 262144).
  { rewrite N.shiftr_div_pow2. change 0xF0 with (30 * 2 ^ 3). change (2 ^ 18) with 262144.
    apply lead_add. change (2 ^ 3) with 8. euclid. }
  rewrite E0, !N.shiftr_div_pow2. change (2 ^ 6) with 64. change (2 ^ 12) with 4096.
  rewrite !byte_of_small by euclid.
  rewrite (proj2 (N.ltb_ge (240 + c / 262144) 0x80)) by euclid.
  rewrite (proj2 (N.leb_gt (240 + c / 262144) 0xDF)) by euclid.
  rewrite andb_false_r.
  rewrite (proj2 (N.leb_gt (240 + c / 262144) 0xEF)) by euclid.
  rewrite andb_false_r.
  rewrite (proj2 (N.leb_le 0xF0 (240 + c / 262144))) by euclid.
  rewrite (proj2 (N.leb_le (240 + c / 262144) 0xF4)) by euclid.
  cbn [andb]. rewrite !trail_continuation, !trail_low6, land_7. cbn [andb].
  assert (Hlow : negb (240 + c / 262144 =? 0xF0) || (0x90 <=? 128 + (c / 4096) mod 64) = true).
  { destruct (N.eqb_spec (240 + c / 262144) 0xF0) as [E|E]; [|reflexivity].
    cbn [negb orb]. apply N.leb_le. euclid. }
  assert (Hhigh : negb (240 + c / 262144 =? 0xF4) || (128 + (c / 4096) mod 64 <=? 0x8F) = true).
  { destruct (N.eqb_spec (240 + c / 262144) 0xF4) as [E|E]; [|reflexivity].
    cbn [negb orb]. apply N.leb_le. euclid. }
  rewrite Hlow, Hhigh.
  replace (N.lor _ _) with c; [reflexivity|].
  rewrite (lor_shiftl_add _ (c mod 64)) by (change (2 ^ 6) with 64; euclid).
  rewrite (lor_shiftl_add ((c / 4096) mod 64))
    by (change (2 ^ 12) with 4096; change (2 ^ 6) with 64; euclid).
  rewrite lor_shiftl_add
    by (change (2 ^ 18) with 262144; change (2 ^ 12) with 4096; change (2 ^ 6) with 64; euclid).
  change (2 ^ 18) with 262144. change (2 ^ 12) with 4096. change (2 ^ 6) with 64. euclid.
Qed.

(** X13. The UTF-8 codec of the upload and of the deserializer agree:
    whenever [encode] accepts a text (it holds no surrogate and no value
    above U+10FFFF), decoding the bytes gives the text back. *)
Theorem X13_utf8_round_trip (s : pystr) (bs : list byte) :
  encode s = Some bs -> decode bs = Some s.
Proof.
  revert bs. induction s as [|c s IH]; intros bs; cbn [encode].
  - intros [= <-]. reflexivity.
  - destruct (encode_char c) as [b|] eqn:Hc; [|discriminate].
    destruct (encode s) as [bs'|]; [|discriminate]. intros [= <-].
    rewrite (decode_encode_char c b bs' Hc), (IH bs' eq_refl). reflexivity.
Qed.

(** ** The settings file *)

Import Dotenv.

Lemma head_of_name f : no_slash f = true -> head_of f = EmptyString.
Proof.
  induction f as [|c f IH]; [reflexivity|]. cbn [no_slash head_of].
  intros Hf. apply andb_prop in Hf as [Hc Hf]. rewrite (IH Hf).
  destruct (Ascii.eqb c "/"); [discriminate | reflexivity].
Qed.

Lemma head_of_slash p f :
  no_slash f = true -> head_of (p +:+ "/" +:+ f) = (p +:+ "/")%string.
Proof.
  intros Hf. induction p as [|c p IH].
  - rewrite !append_empty, append_cons, append_empty. cbn [head_of].
    rewrite (head_of_name f Hf). reflexivity.
  - rewrite (append_cons c p), (append_cons c p). cbn [head_of]. rewrite IH.
    destruct p; reflexivity.
Qed.

Lemma rstrip_name s :
  no_slash s = true -> rstrip s = s.
Proof.
  induction s as [|c s IH]; [reflexivity|]. cbn [no_slash rstrip].
  intros Hs. apply andb_prop in Hs as [Hc Hs]. rewrite (IH Hs).
  destruct s; [|reflexivity]. destruct (Ascii.eqb c "/"); [discriminate | reflexivity].
Qed.

Lemma rstrip_app a b :
  rstrip b = b -> b <> EmptyString -> rstrip (a +:+ b) = (a +:+ b)%string.
Proof.
  intros Hb Hne. induction a as [|c a IH]; [rewrite append_empty; exact Hb|].
  rewrite append_cons. cbn [rstrip]. rewrite IH.
  destruct (a +:+ b)%string eqn:E; [|reflexivity].
  destruct a; [rewrite append_empty in E; congruence | rewrite append_cons in E; discriminate].
Qed.

Lemma rstrip_slash a : rstrip (a +:+ "/") = rstrip a.
Proof.
  induction a as [|c a IH]; [reflexivity|].
  rewrite append_cons. cbn [rstrip]. rewrite IH. reflexivity.
Qed.

Lemma all_slashes_app a b : all_slashes (a +:+ b) = all_slashes a && all_slashes b.
Proof.
  induction a as [|c a IH]; [reflexivity|]. rewrite append_cons. cbn [all_slashes].
  rewrite IH, andb_assoc. reflexivity.
Qed.

Lemma all_slashes_name s :
  no_slash s = true -> s <> EmptyString -> all_slashes s = false.
Proof.
  destruct s as [|c s]; [congruence|]. cbn [no_slash all_slashes]. intros Hs _.
  apply andb_prop in Hs as [Hc _]. destruct (Ascii.eqb c "/"); [discriminate | reflexivity].
Qed.

Lemma all_slashes_rstrip s : all_slashes s = true -> rstrip s = EmptyString.
Proof.
  induction s as [|c s IH]; [reflexivity|]. cbn [all_slashes rstrip].
  intros Hs. apply andb_prop in Hs as [Hc Hs]. rewrite (IH Hs), Hc. reflexivity.
Qed.

Lemma rstrip_endswith s : rstrip s = s -> endswith_slash s = false.
Proof.
  induction s as [|c s IH]; [reflexivity|]. cbn [rstrip endswith_slash].
  destruct s as [|c' s'].
  - cbn [rstrip]. destruct (Ascii.eqb c "/"); [discriminate | reflexivity].
  - destruct (rstrip (String c' s')) eqn:E.
    + destruct (Ascii.eqb c "/"); discriminate.
    + intros [= -> ->]. apply IH. reflexivity.
Qed.

Lemma is_empty_app a b : is_empty (a +:+ b) = is_empty a && is_empty b.
Proof. destruct a; [rewrite append_empty; reflexivity | reflexivity]. Qed.

(** The directory of [d/sub/file] and the directory above it. *)
Lemma script_dirs d sub file :
  rstrip d = d -> no_slash sub = true -> sub <> EmptyString -> no_slash file = true ->
  dirname (d +:+ "/" +:+ sub +:+ "/" +:+ file) = (d +:+ "/" +:+ sub)%string
  /\ path_join (dirname (d +:+ "/" +:+ sub)) ".env" = (d +:+ "/.env")%string
  /\ path_join (d +:+ "/" +:+ sub) ".env" = (d +:+ "/" +:+ sub +:+ "/.env")%string.
Proof.
  intros Hd Hsub Hne Hfile.
  assert (Hkeep : rstrip (d +:+ "/" +:+ sub) = (d +:+ "/" +:+ sub)%string).
  { rewrite <- append_assoc. apply rstrip_app; [apply rstrip_name; exact Hsub | exact Hne]. }
  split; [|split].
  - unfold dirname.
    replace (d +:+ "/" +:+ sub +:+ "/" +:+ file)%string
      with ((d +:+ "/" +:+ sub) +:+ "/" +:+ file)%string
      by (rewrite !append_assoc; reflexivity).
    rewrite head_of_slash by exact Hfile.
    rewrite is_empty_app, andb_false_r. cbn [negb andb].
    rewrite !all_slashes_app, (all_slashes_name sub Hsub Hne), !andb_false_r, andb_false_l.
    cbn [negb]. rewrite rstrip_slash. exact Hkeep.
  - unfold dirname. rewrite head_of_slash by exact Hsub.
    rewrite is_empty_app, andb_false_r. cbn [negb andb].
    destruct d as [|c d'].
    + reflexivity.
    + assert (Hns : all_slashes (String c d') = false).
      { destruct (all_slashes (String c d')) eqn:E; [|reflexivity].
        apply all_slashes_rstrip in E. congruence. }
      rewrite all_slashes_app, Hns. cbn [andb negb].
      rewrite rstrip_slash, Hd. unfold path_join. cbn [startswith_slash Ascii.eqb Bool.eqb].
      cbn [is_empty orb]. rewrite (rstrip_endswith _ Hd). reflexivity.
  - unfold path_join. cbn [startswith_slash Ascii.eqb Bool.eqb].
    rewrite (rstrip_endswith _ Hkeep), !is_empty_app, !andb_false_r.
    cbn [orb]. rewrite !append_assoc. reflexivity.
Qed.

Lemma root_script_dirs file :
  no_slash file = true ->
  dirname ("/" +:+ file) = "/"%string /\ dirname "/" = "/"%string.
Proof.
  intros Hfile. split; [|reflexivity]. unfold dirname.
  rewrite append_cons, append_empty. cbn [head_of].
  rewrite (head_of_name file Hfile). reflexivity.
Qed.

(** X14. The settings file is looked up beside the directory that holds
    the directory of the script, then beside the script, and it is the
    first of the two that exists, or none: for a script [d/sub/file] the
    file is [d/.env] when it exists, whether or not [d/sub/.env] does. For
    a script in the root directory the two lookups are the same file. *)
Theorem X14_settings_file (path_exists : string -> bool) d sub file :
  rstrip d = d -> no_slash sub = true -> sub <> EmptyString -> no_slash file = true ->
  env_file path_exists (d +:+ "/" +:+ sub +:+ "/" +:+ file)
  = (if path_exists (d +:+ "/.env") then Some (d +:+ "/.env")%string
     else if path_exists (d +:+ "/" +:+ sub +:+ "/.env")
          then Some (d +:+ "/" +:+ sub +:+ "/.env")%string
          else None)
  /\ env_file path_exists ("/" +:+ file)
     = if path_exists "/.env" then Some "/.env"%string else None.
Proof.
  intros Hd Hsub Hne Hfile.
  destruct (script_dirs d sub file Hd Hsub Hne Hfile) as (Hdir & Hparent & Hbeside).
  destruct (root_script_dirs file Hfile) as [Hroot Hroot'].
  split.
  - unfold env_file. rewrite Hdir, Hparent, Hbeside. reflexivity.
  - unfold env_file. rewrite Hroot, Hroot'.
    change (path_join "/" ".env") with "/.env"%string.
    destruct (path_exists "/.env"); reflexivity.
Qed.

(** ** Whole runs *)

Section WholeRuns.
Context `{FloatConv}.

Lemma configure_default env st c st' :
  configure env st = Returned c st' -> getenv env "BATCH_SIZE" = None ->
  BATCH_SIZE c = 10%Z.
Proof.
  unfold configure, bind, read_batch_size. intros Hc Hnone. rewrite Hnone in Hc.
  unfold ret in Hc. destruct (missing_vars _); [|discriminate].
  injection Hc as <- _. reflexivity.
Qed.

Lemma count_none p tr : Forall (fun cl => p cl = false) tr -> count p tr = 0%nat.
Proof.
  unfold count. induction 1 as [|cl tr Hcl _ IH]; [reflexivity|].
  cbn [List.filter]. rewrite Hcl. exact IH.
Qed.

(** X15. With [BATCH_SIZE] unset the threshold is ten for the whole run:
    when the script has consumed the records delivered so far without
    raising, it has written one object per ten records, and the records
    beyond the last multiple of ten wait in the batch. *)
Theorem X15_default_threshold_run w env messages st :
  getenv env "BATCH_SIZE" = None ->
  main w env messages = Returned tt st ->
  count is_put (trace st) = (length messages / 10)%nat
  /\ length (batch st) = (length messages mod 10)%nat.
Proof.
  intros Hnone. pose proof (startup_runs w env initial) as Hrun.
  assert (Hmain : main w env messages
                  = match startup w env initial with
                    | Returned c st' => consume w c messages {| batch := []; trace := trace st' |}
                    | Raised e st' => Raised e st'
                    end) by reflexivity.
  rewrite Hmain. clear Hmain.
  destruct (startup w env initial) as [c st1|e st1]; [|discriminate].
  destruct Hrun as (Hc & _ & Htr). cbn [trace initial app] in Htr.
  pose proof (configure_default _ _ _ _ Hc Hnone) as Hsize. intros Hcons.
  destruct (consume_returned _ _ _ _ _ Hcons)
    as (events & groups & Hev & Hall & Htrace & _ & Hexact & _).
  cbn [batch trace app] in Hall, Htrace, Hexact.
  destruct (Hexact ltac:(rewrite Hsize; cbn; lia)) as [Hgroups Hrest].
  rewrite Hsize in Hgroups, Hrest.
  assert (Hten : Forall (fun g : list pyvalue => length g = 10%nat) groups).
  { eapply Forall_impl; [exact Hgroups|]. cbv beta. intros g Hg. lia. }
  assert (Hlen : length messages = (10 * length groups + length (batch st))%nat).
  { rewrite (Forall2_length _ _ _ Hev), Hall, length_app.
    rewrite (concat_length_uniform 10 groups Hten). reflexivity. }
  assert (Hputs : count is_put (trace st) = length groups).
  { rewrite Htrace, count_app, flush_calls_puts, count_none; [reflexivity|].
    rewrite Htr. apply List.Forall_forall. intros cl Hin.
    exact (startup_call_not_put w env cl Hin). }
  rewrite Hputs, Hlen. split.
  - apply (Nat.div_unique _ 10 _ (length (batch st))); lia.
  - apply (Nat.mod_unique _ 10 (length groups)); lia.
Qed.

End WholeRuns.

(** ** The further properties at concrete inputs *)

Lemma X1_witness :
  configure (full_env "2") initial = Returned (sample_config 2) initial
  /\ configure (full_env " -7 ") initial = Returned (sample_config (-7)) initial.
Proof.
  split; apply (proj2 (X1_configuration_accepted _ _ _ _));
    vm_compute; repeat split; try reflexivity;
    repeat constructor; eexists; reflexivity.
Defined.


Lemma X3_witness :
  getenv (full_env "10.5") "BATCH_SIZE" = Some "10.5"%string
  /\ Exists (fun c => int_char c = false) (list_ascii_of_string "10.5")
  /\ main (H := sample_floats) quiet_world (full_env "10.5") [id_record 1]
     = Raised (InvalidLiteral "10.5") initial.
Proof.
  assert (Henv : getenv (full_env "10.5") "BATCH_SIZE" = Some "10.5"%string)
    by (vm_compute; reflexivity).
  assert (Hpoint : Exists (fun c => int_char c = false) (list_ascii_of_string "10.5")).
  { cbn [list_ascii_of_string]. do 2 apply Exists_cons_tl. apply Exists_cons_hd.
    reflexivity. }
  split; [exact Henv|]. split; [exact Hpoint|].
  exact (X3_batch_size_rejected (H := sample_floats) quiet_world (full_env "10.5")
           [id_record 1] "10.5" Henv (or_intror Hpoint)).
Defined.

Lemma X4_witness :
  trace (final (startup unreachable_store (full_env "2") initial))
  = [boto_call (full_env "2"); head_bucket (Some "lake"); create_bucket (Some "lake")]
  /\ trace (final (startup unreachable_store (full_env "2") initial))
     `prefix_of` boto_call (full_env "2")
                 :: bucket_calls unreachable_store (full_env "2")
                 ++ [kafka_call (full_env "2")].
Proof.
  split; [vm_compute; reflexivity|].
  exact (proj1 (X4_startup_call_order unreachable_store (full_env "2"))).
Defined.

Lemma X5_witness :
  let run := main (H := sample_floats) quiet_world (full_env "2") [id_record 1; id_record 2] in
  let body := body_of (H := sample_floats) [id_event 1; id_event 2] in
  trace (final run) !! 4%nat
  = Some (put_object (Some "lake") (file_path (clock quiet_world 0)) body)
  /\ exists c st,
       startup quiet_world (full_env "2") initial = Returned c st
       /\ trace st `prefix_of` trace (final run)
       /\ (length (trace st) <= 4)%nat
       /\ Some "lake"%string = getenv (full_env "2") "MINIO_BUCKET"
       /\ is_Some (Some "lake"%string).
Proof.
  intros run body.
  assert (Hput : trace (final run) !! 4%nat
                 = Some (put_object (Some "lake") (file_path (clock quiet_world 0)) body))
    by (vm_compute; reflexivity).
  split; [exact Hput|].
  exact (X5_writes_follow_startup (H := sample_floats) quiet_world (full_env "2")
           [id_record 1; id_record 2] 4 _ _ _ Hput).
Defined.


Lemma X8_witness :
  let t1 := {| year := 2024; month := 3; day := 7; hour := 9; minute := 5;
               second := 1; microsecond := 0 |} in
  let t2 := {| year := 2024; month := 3; day := 7; hour := 9; minute := 5;
               second := 1; microsecond := 999999 |} in
  wall_clock_time t1 = true /\ wall_clock_time t2 = true
  /\ file_path t1 = file_path t2.
Proof.
  intros t1 t2.
  assert (H1 : wall_clock_time t1 = true) by reflexivity.
  assert (H2 : wall_clock_time t2 = true) by reflexivity.
  split; [exact H1|]. split; [exact H2|].
  apply (proj2 (X8_key_per_second t1 t2 H1 H2)). repeat split.
Defined.

Lemma X9_witness :
  let b := [PyStr [233; 0x1F600; 10];
            PyList [PyFloat (S754_finite false 4503599627370496 (-53)); PyFloat S754_nan]] in
  Forall (fun e => Forall (fun f => Forall printable (encode_float (H := sample_floats) f))
                     (floats e)) b
  /\ length (split_lines (body_of (H := sample_floats) b)) = 2%nat.
Proof.
  intros b.
  assert (Hb : Forall (fun e => Forall (fun f => Forall printable
                                          (encode_float (H := sample_floats) f))
                                 (floats e)) b).
  { repeat constructor; vm_compute; discriminate. }
  split; [exact Hb|].
  rewrite (proj2 (X9_body_ascii_lines (H := sample_floats) b Hb) ltac:(discriminate)).
  reflexivity.
Defined.

Lemma X10_witness :
  ws_text [32; 10]
  /\ value_deserializer (H := sample_floats) (Some (map byte_of [32; 10]))
     = inl JSONDecodeError.
Proof.
  assert (Hs : ws_text [32; 10]) by (repeat constructor).
  split; [exact Hs|].
  exact (X10_blank_record_rejected (H := sample_floats) [32; 10] Hs).
Defined.

Lemma X11_witness :
  ws_text [32; 9] /\ ws_text [13; 10]
  /\ value_deserializer (H := sample_floats) (id_record 1) = inr (id_event 1)
  /\ value_deserializer (H := sample_floats)
       (Some (map byte_of [32; 9] ++ body_of (H := sample_floats) [id_event 1]
              ++ map byte_of [13; 10]))
     = inr (id_event 1).
Proof.
  assert (Hl : ws_text [32; 9]) by (repeat constructor).
  assert (Hr : ws_text [13; 10]) by (repeat constructor).
  assert (Hm : value_deserializer (H := sample_floats) (id_record 1) = inr (id_event 1))
    by (vm_compute; reflexivity).
  split; [exact Hl|]. split; [exact Hr|]. split; [exact Hm|].
  exact (X11_padded_record_reads_same (H := sample_floats) _ _ _ _ Hl Hr Hm).
Defined.

Lemma X12_witness :
  let d := [(str "a", PyInt 2); (str "b", PyNone)] in
  scan_once (H := sample_floats) 2 (chr "{" :: repeated_key_text) = Some (PyDict d, [])
  /\ List.NoDup (map fst d).
Proof.
  intros d.
  assert (Hscan : scan_once (H := sample_floats) 2 (chr "{" :: repeated_key_text)
                  = Some (PyDict d, [])) by (vm_compute; reflexivity).
  split; [exact Hscan|].
  exact (proj1 (X12_repeated_key_last_wins (H := sample_floats) 1 _ _ _ Hscan)).
Defined.

Lemma X13_witness :
  let s := [97; 233; 0x20AC; 0x1F600] in
  exists bs, encode s = Some bs /\ length bs = 10%nat /\ decode bs = Some s.
Proof.
  intros s. destruct (encode s) as [bs|] eqn:Hbs; [|vm_compute in Hbs; discriminate].
  exists bs. split; [reflexivity|]. split.
  - vm_compute in Hbs. injection Hbs as <-. reflexivity.
  - exact (X13_utf8_round_trip s bs Hbs).
Defined.

Lemma X14_witness :
  let beside_script p := String.eqb p "/app/consumer/.env" in
  rstrip "/app" = "/app"%string /\ no_slash "consumer" = true
  /\ no_slash "kafka-to-minio.py" = true
  /\ env_file beside_script "/app/consumer/kafka-to-minio.py"
     = Some "/app/consumer/.env"%string
  /\ env_file (fun _ => true) "/app/consumer/kafka-to-minio.py" = Some "/app/.env"%string.
Proof.
  intros beside_script.
  assert (Hd : rstrip "/app" = "/app"%string) by reflexivity.
  assert (Hsub : no_slash "consumer" = true) by reflexivity.
  assert (Hne : "consumer"%string <> EmptyString) by discriminate.
  assert (Hfile : no_slash "kafka-to-minio.py" = true) by reflexivity.
  split; [exact Hd|]. split; [exact Hsub|]. split; [exact Hfile|]. split.
  - exact (proj1 (X14_settings_file beside_script "/app" "consumer" "kafka-to-minio.py"
                    Hd Hsub Hne Hfile)).
  - exact (proj1 (X14_settings_file (fun _ => true) "/app" "consumer" "kafka-to-minio.py"
                    Hd Hsub Hne Hfile)).
Defined.

Lemma X15_witness :
  let env := delete "BATCH_SIZE"%string (full_env "2") in
  let messages := map id_record [1; 2; 3; 4; 5; 6; 7; 8; 9; 10; 11]%Z in
  let st := final (main (H := sample_floats) quiet_world env messages) in
  getenv env "BATCH_SIZE" = None
  /\ main (H := sample_floats) quiet_world env messages = Returned tt st
  /\ count is_put (trace st) = 1%nat
  /\ batch st = [id_event 11].
Proof.
  intros env messages st.
  assert (Hnone : getenv env "BATCH_SIZE" = None) by (vm_compute; reflexivity).
  assert (Hrun : main (H := sample_floats) quiet_world env messages = Returned tt st)
    by (vm_compute; reflexivity).
  split; [exact Hnone|]. split; [exact Hrun|]. split; [|vm_compute; reflexivity].
  exact (proj1 (X15_default_threshold_run (H := sample_floats) quiet_world env messages st
                  Hnone Hrun)).
Defined.
